(** * WorkflowGenius: provider orchestration and workflow execution

    A shallow embedding of the files that carry the engineering core:
    - [src/background/ai-engine.js]: [AIEngine] (provider order, fallback,
      retry, cache, requests, API keys), [RateLimiter], [AIMetrics], the
      text parser of the Hugging Face provider;
    - the service worker ([src/unnamed/part_000]): [evaluateCondition],
      [resolveValue], [executeWorkflow], [executeStep], [executeLoop],
      [retryStep], [handleGenerateWorkflow], [createFallbackWorkflow],
      [handleExecuteWorkflow], [handleFeedback], and the cache and the text
      similarity of [PatternMatcher];
    - [src/background/training-system.js]: [recordFeedback] and the
      feedback store.

    Asynchronous code is written in a state-and-exception monad: an [await]
    is a bind, a rejected promise is a [Throw], and the observable effects
    (provider calls, step dispatches, timer waits) are appended to a trace. *)

From Stdlib Require Import ZArith QArith Lia Ascii String.
From stdpp Require Import gmap strings list pretty sorting.

Set Warnings "-register-all".

Local Open Scope string_scope.
Local Open Scope list_scope.
Local Open Scope Z_scope.

(** ** Completions and the effect monad *)

(** A JavaScript [Error] object, as far as the code inspects it
    ([error.name], [error.message]). *)
Record JsError := mkError { err_name : string; err_message : string }.

Definition Error_ (msg : string) : JsError := mkError "Error" msg.
Definition TypeError_ (msg : string) : JsError := mkError "TypeError" msg.

(** What a [throw] carries: an [Error] object, or [undefined] (the
    [throw lastError] of a retry loop that never ran). *)
Inductive thrown : Type :=
| Thrown (e : JsError)
| ThrownUndefined.

Inductive completion (A : Type) : Type :=
| Normal (a : A)
| Throw (t : thrown).
Arguments Normal {A} a.
Arguments Throw {A} t.

Definition Eff (S A : Type) : Type := S → completion A * S.

Definition ret {S A} (a : A) : Eff S A := λ s, (Normal a, s).
Definition throw {S A} (t : thrown) : Eff S A := λ s, (Throw t, s).
Definition bind {S A B} (m : Eff S A) (k : A → Eff S B) : Eff S B :=
  λ s, match m s with
       | (Normal a, s') => k a s'
       | (Throw t, s') => (Throw t, s')
       end.
(** [try { m } catch (error) { h error }] *)
Definition try_catch {S A} (m : Eff S A) (h : thrown → Eff S A) : Eff S A :=
  λ s, match m s with
       | (Normal a, s') => (Normal a, s')
       | (Throw t, s') => h t s'
       end.
Definition get_state {S} : Eff S S := λ s, (Normal s, s).
Definition modify {S} (f : S → S) : Eff S unit := λ s, (Normal tt, f s).

(** [error.message] on a caught value; reading a property of [undefined]
    is a [TypeError]. *)
Definition message_of {S} (error : thrown) : Eff S string :=
  match error with
  | Thrown e => ret (err_message e)
  | ThrownUndefined =>
      throw (Thrown (TypeError_ "Cannot read properties of undefined (reading 'message')"))
  end.

#[global] Instance eff_ret {S} : MRet (Eff S) := λ A, @ret S A.
#[global] Instance eff_bind {S} : MBind (Eff S) := λ A B k m, @bind S A B m k.

(** Synchronous code that touches no state: exceptions only. *)
#[global] Instance completion_ret : MRet completion := λ A, @Normal A.
#[global] Instance completion_bind : MBind completion := λ A B k m,
  match m with
  | Normal a => k a
  | Throw t => Throw t
  end.

(** A synchronous call from asynchronous code. *)
Definition lift {S A} (c : completion A) : Eff S A := λ s, (c, s).

(** A string is truthy when it is not empty. *)
Definition truthy_string (s : string) : bool := negb (String.eqb s "").

(** [Math.pow(2, i) * 1000] *)
Definition backoff (i : nat) : Z := 2 ^ Z.of_nat i * 1000.

(** ** src/background/ai-engine.js *)
Module AIEngine.

(** *** class AIMetrics *)

(** [this.metrics.requests]: a [Map] from ["<type>:success"] and
    ["<type>:failure"] to a counter. *)
Definition request_key (type : string) (success : bool) : string :=
  type +:+ ":" +:+ (if success then "success" else "failure").

(** [recordGeneration(type, latency, success)], the counter part. *)
Definition recordGeneration (type : string) (success : bool)
    (requests : gmap string N) : gmap string N :=
  let key := request_key type success in
  <[key := (default 0%N (requests !! key) + 1)%N]> requests.

(** [getSuccessRate(provider)].  The quotient of two counters is kept as
    an exact rational; the source computes it in double precision, which
    orders the quotients of counters below 2^26 the same way. *)
Definition getSuccessRate (requests : gmap string N) (provider : string) : Q :=
  let success := default 0%N (requests !! (provider +:+ ":success")) in
  let failure := default 0%N (requests !! (provider +:+ ":failure")) in
  let total := (success + failure)%N in
  match total with
  | N0 => 1 # 2
  | Npos t => Z.of_N success # t
  end.

(** *** Array.prototype.sort

    ECMAScript specifies [sort] as stable: elements for which the
    comparator does not return a positive or negative number keep their
    order.  The model is the stable insertion sort; [cmp a b > 0] means
    that [a] goes after [b]. *)
Section Sort.
Context {A : Type} (cmp : A → A → Q).

Definition goes_after (a b : A) : bool := negb (Qle_bool (cmp a b) 0).

Fixpoint sort_insert (x : A) (l : list A) : list A :=
  match l with
  | [] => [x]
  | y :: l' => if goes_after x y then y :: sort_insert x l' else x :: y :: l'
  end.

Fixpoint js_sort (l : list A) : list A :=
  match l with
  | [] => []
  | x :: l' => sort_insert x (js_sort l')
  end.
End Sort.

(** *** AIEngine.getProviderOrder

    [order] is [Object.keys(this.providers)], the declaration order;
    [preferred] is [None] for [null]. *)

(** The comparator [(a, b) => successB - successA]. *)
Definition by_rate (requests : gmap string N) (a b : string) : Q :=
  (getSuccessRate requests b - getSuccessRate requests a)%Q.

Definition getProviderOrder (requests : gmap string N) (order : list string)
    (preferred : option string) : list string :=
  match preferred with
  | Some p =>
      if truthy_string p && bool_decide (p ∈ order)
      then p :: filter (λ q, q ≠ p) order
      else js_sort (by_rate requests) order
  | None => js_sort (by_rate requests) order
  end.

(** [a] is not behind [b] in a descending order: its rate is at least
    as high. *)
Definition not_behind (requests : gmap string N) (a b : string) : Prop :=
  (getSuccessRate requests b <= getSuccessRate requests a)%Q.

(** The providers whose rate is [q], in the order of the list. *)
Definition of_rate (requests : gmap string N) (q : Q) (l : list string) : list string :=
  filter (λ p, Qeq_bool (getSuccessRate requests p) q = true) l.

(** [Object.keys(this.providers)] of the constructor. *)
Definition provider_names : list string := ["groq"; "huggingface"; "openrouter"].

(** *** class RateLimiter *)
Record RateLimiter := mkLimiter {
  maxRequests : Z;
  windowMs : Z;
  requests : list Z
}.

Definition newRateLimiter (maxRequests windowMs : Z) : RateLimiter :=
  mkLimiter maxRequests windowMs [].

(** [cleanup()], with [now] the value [Date.now()] returned. *)
Definition cleanup (now : Z) (rl : RateLimiter) : RateLimiter :=
  mkLimiter (maxRequests rl) (windowMs rl)
    (filter (λ time, now - time < windowMs rl) (requests rl)).

Definition canMakeRequest (now : Z) (rl : RateLimiter) : bool * RateLimiter :=
  let rl' := cleanup now rl in
  (bool_decide (Z.of_nat (length (requests rl')) < maxRequests rl'), rl').

(** [recordRequest()] reads the clock twice: once in [cleanup], once for
    the pushed timestamp. *)
Definition recordRequest (now now' : Z) (rl : RateLimiter) : RateLimiter :=
  let rl' := cleanup now rl in
  mkLimiter (maxRequests rl') (windowMs rl') (requests rl' ++ [now']).

Definition getRemaining (now : Z) (rl : RateLimiter) : Z * RateLimiter :=
  let rl' := cleanup now rl in
  (Z.max 0 (maxRequests rl' - Z.of_nat (length (requests rl'))), rl').

Definition getResetTime (rl : RateLimiter) : option Z :=
  match requests rl with
  | [] => None
  | first :: _ => Some (first + windowMs rl)
  end.

(** The admission gate as [executeWithFallback] drives it: the check, and
    on admission the record, with no suspension point in between.  The
    three arguments are the three successive clock readings. *)
Definition tryAcquire (t1 t2 t3 : Z) (rl : RateLimiter) : bool * RateLimiter :=
  let '(ok, rl') := canMakeRequest t1 rl in
  if ok then (true, recordRequest t2 t3 rl') else (false, rl').

(** A sequence of passes through the gate, each with its three clock
    readings: the answers, the timestamps admitted, and the limiter
    afterwards. *)
Fixpoint run_gate (calls : list (Z * Z * Z)) (rl : RateLimiter)
    : list bool * list Z * RateLimiter :=
  match calls with
  | [] => ([], [], rl)
  | (t1, t2, t3) :: calls' =>
      let '(ok, rl') := tryAcquire t1 t2 t3 rl in
      let '(oks, admitted, rl'') := run_gate calls' rl' in
      (ok :: oks, (if ok then [t3] else []) ++ admitted, rl'')
  end.

(** The clock readings of a sequence of passes, in the order taken.  A
    refused pass takes only the first. *)
Definition readings (calls : list (Z * Z * Z)) : list Z :=
  flat_map (λ '(t1, t2, t3), [t1; t2; t3]) calls.

(** The admissions that lie in the window that ends at [t]. *)
Definition in_window (windowMs t : Z) (admitted : list Z) : list Z :=
  filter (λ a, (a ≤ t ∧ t - a < windowMs)%Z) admitted.

(** *** Map, in insertion order

    [this.cache] is a [Map]: [set] on a present key keeps its position,
    [set] on a new key appends, [keys().next().value] is the oldest key. *)
Section JsMap.
Context {V : Type}.

Fixpoint map_get (key : string) (m : list (string * V)) : option V :=
  match m with
  | [] => None
  | (k, v) :: m' => if String.eqb k key then Some v else map_get key m'
  end.

Fixpoint map_set (key : string) (v : V) (m : list (string * V)) : list (string * V) :=
  match m with
  | [] => [(key, v)]
  | (k, v') :: m' =>
      if String.eqb k key then (k, v) :: m' else (k, v') :: map_set key v m'
  end.

(** Keys are unique, so [delete] leaves no entry under [key]. *)
Definition map_delete (key : string) (m : list (string * V)) : list (string * V) :=
  filter (λ kv, kv.1 ≠ key) m.

Definition map_first_key (m : list (string * V)) : option string :=
  match m with
  | [] => None
  | (k, _) :: _ => Some k
  end.
End JsMap.

(** *** The engine: state, collaborators, effects *)
Inductive event : Type :=
| EvOperation (provider : string)   (* [operation(provider)] was called *)
| EvDelay (ms : Z).                 (* [this.delay(ms)] was awaited *)

Record CacheEntry (A : Type) := mkEntry { data : A; timestamp : Z }.
Arguments mkEntry {A} data timestamp.
Arguments data {A} _.
Arguments timestamp {A} _.

Record Config := mkConfig { maxRetries : nat; timeout : Z; cacheExpiry : Z }.

(** [this.config] of the constructor. *)
Definition default_config : Config := mkConfig 3 30000 3600000.

Record state (W A : Type) := mkState {
  config : Config;
  rateLimiters : gmap string RateLimiter;
  apiKeys : gmap string string;          (* provider.apiKey, absent for null *)
  cache : list (string * CacheEntry A);
  world : W;                             (* everything outside the engine *)
  trace : list event
}.
Arguments mkState {W A}.
Arguments config {W A} _.
Arguments rateLimiters {W A} _.
Arguments apiKeys {W A} _.
Arguments cache {W A} _.
Arguments world {W A} _.
Arguments trace {W A} _.

Section Engine.
Context {W A : Type}.
(** [Date.now()]: each reading may move the world on. *)
Variable clock : W → Z * W.
(** What passing [ms] on a timer does to the world. *)
Variable sleep : Z → W → W.
(** The provider call behind [operation(provider)]: it resolves, it
    rejects, or ([None]) it is still pending when the timer of
    [this.timeout(this.config.timeout)] fires. *)
Variable call : string → W → option (JsError + A) * W.

Abbreviation St := (state W A).

Definition set_world (w : W) (s : St) : St :=
  mkState (config s) (rateLimiters s) (apiKeys s) (cache s) w (trace s).
Definition set_cache (c : list (string * CacheEntry A)) (s : St) : St :=
  mkState (config s) (rateLimiters s) (apiKeys s) c (world s) (trace s).
Definition set_limiter (name : string) (rl : RateLimiter) (s : St) : St :=
  mkState (config s) (<[name := rl]> (rateLimiters s)) (apiKeys s) (cache s)
    (world s) (trace s).
Definition emit (e : event) : Eff St unit :=
  modify (λ s, mkState (config s) (rateLimiters s) (apiKeys s) (cache s)
                 (world s) (trace s ++ [e])).

(** A step of the outside world. *)
Definition external {B} (f : W → B * W) : Eff St B :=
  λ s, let '(b, w) := f (world s) in (Normal b, set_world w s).

Definition now : Eff St Z := external clock.

(** [this.delay(ms)] *)
Definition delay (ms : Z) : Eff St unit :=
  emit (EvDelay ms);; external (λ w, (tt, sleep ms w)).

(** [operation(provider)], observed through the trace.  [Normal None]
    stands for the promise that has not settled in time. *)
Definition invoke (provider : string) : Eff St (option A) :=
  emit (EvOperation provider);;
  r ← external (call provider);
  match r with
  | Some (inr a) => mret (Some a)
  | Some (inl e) => throw (Thrown e)
  | None => mret None
  end.

(** [Promise.race([operation(), this.timeout(this.config.timeout)])] *)
Definition race_timeout (operation : Eff St (option A)) : Eff St A :=
  r ← operation;
  match r with
  | Some a => mret a
  | None => throw (Thrown (Error_ "Request timeout"))
  end.

(** [executeWithRetry(operation, maxRetries)]: the loop from index [i]
    with [remaining = maxRetries - i] iterations to go. *)
Fixpoint retry_loop (operation : Eff St (option A)) (maxRetries : nat)
    (remaining i : nat) (lastError : thrown) : Eff St A :=
  match remaining with
  | O => throw lastError
  | S remaining' =>
      try_catch (race_timeout operation)
        (λ error,
           (if bool_decide (Z.of_nat i < Z.of_nat maxRetries - 1)
            then delay (backoff i) else mret tt);;
           retry_loop operation maxRetries remaining' (S i) error)
  end.

Definition executeWithRetry (operation : Eff St (option A)) (maxRetries : nat)
    : Eff St A :=
  retry_loop operation maxRetries maxRetries 0 ThrownUndefined.

(** [provider.isConfigured()]: [!!this.apiKey] *)
Definition isConfigured (provider : string) (s : St) : bool :=
  match apiKeys s !! provider with
  | Some key => truthy_string key
  | None => false
  end.

(** [this.rateLimiters.get(providerName)], about to be dereferenced. *)
Definition limiter_of (providerName method : string) : Eff St RateLimiter :=
  s ← get_state;
  match rateLimiters s !! providerName with
  | Some rl => mret rl
  | None =>
      throw (Thrown (TypeError_ ("Cannot read properties of undefined (reading '"
                                 +:+ method +:+ "')")))
  end.

Definition limiter_canMakeRequest (providerName : string) : Eff St bool :=
  rl ← limiter_of providerName "canMakeRequest";
  t ← now;
  let '(ok, rl') := canMakeRequest t rl in
  modify (set_limiter providerName rl');; mret ok.

Definition limiter_recordRequest (providerName : string) : Eff St unit :=
  rl ← limiter_of providerName "recordRequest";
  t ← now;
  t' ← now;
  modify (set_limiter providerName (recordRequest t t' rl)).

(** The body of the [for ... of] loop of [executeWithFallback] either
    returns from the function or goes on to the next provider. *)
Inductive loop_exit : Type :=
| Return (result : A)
| Continue (lastError : option JsError).

Fixpoint fallback_loop (providers : list string) (lastError : option JsError)
    : Eff St A :=
  match providers with
  | [] =>
      throw (Thrown (default (Error_ "All AI providers failed") lastError))
  | providerName :: rest =>
      ok ← limiter_canMakeRequest providerName;
      if negb ok then fallback_loop rest lastError
      else
        exit ← try_catch
          (s ← get_state;
           if negb (isConfigured providerName s) then mret (Continue lastError)
           else
             limiter_recordRequest providerName;;
             s' ← get_state;
             result ← executeWithRetry (invoke providerName) (maxRetries (config s'));
             mret (Return result))
          (λ error, _ ← message_of error;
                    mret (Continue (match error with
                                    | Thrown e => Some e
                                    | ThrownUndefined => None
                                    end)));
        match exit with
        | Return result => mret result
        | Continue lastError' => fallback_loop rest lastError'
        end
  end.

(** [executeWithFallback(operation, preferredProvider)]; [requests] is
    the counter map of [this.metrics], [order] the provider names. *)
Definition executeWithFallback (requests : gmap string N) (order : list string)
    (preferredProvider : option string) : Eff St A :=
  fallback_loop (getProviderOrder requests order preferredProvider) None.

(** [getFromCache(key)]: [null] is [None].  The clock is read only when
    the entry exists. *)
Definition getFromCache (key : string) : Eff St (option A) :=
  s ← get_state;
  let miss : Eff St (option A) :=
    modify (λ s, set_cache (map_delete key (cache s)) s);; mret None in
  match map_get key (cache s) with
  | Some cached =>
      t ← now;
      s ← get_state;
      if bool_decide (t - timestamp cached < cacheExpiry (config s))
      then mret (Some (data cached))
      else miss
  | None => miss
  end.

(** [setCache(key, data)] *)
Definition setCache (key : string) (d : A) : Eff St unit :=
  t ← now;
  modify (λ s, set_cache (map_set key (mkEntry d t) (cache s)) s);;
  s ← get_state;
  if bool_decide (100 < Z.of_nat (length (cache s)))
  then match map_first_key (cache s) with
       | Some firstKey => modify (λ s, set_cache (map_delete firstKey (cache s)) s)
       | None => mret tt
       end
  else mret tt.

(** [clearCache()] *)
Definition clearCache : Eff St unit := modify (set_cache []).
End Engine.

End AIEngine.

(** ** The JavaScript values the service worker computes with

    Workflows, parameters and step results are JSON-like data.  The model
    keeps what conditions and the executor observe of them:
    - numbers are the integers (meant within the range a double holds
      exactly) and [NaN]; fractions, infinities and the negative zero are
      not represented;
    - a string converts to a number when it is an optionally signed run of
      decimal digits between ASCII white space, the empty string being 0;
      every other string, a fraction, an exponent or a radix prefix
      included, converts to [NaN];
    - strings are compared by their bytes, which is the order of
      JavaScript on ASCII text;
    - arrays and plain objects carry an address: two of them are [==]
      exactly when they are the same object;
    - property lookup sees own properties, and [length] and the indices of
      arrays and strings; inherited members ([toString], [constructor],
      array methods) are not properties of the model, and a statement
      about a key that an object does not have says that the key is none
      of [Object_prototype];
    - the messages of the errors are those of V8. *)
Module Js.

Inductive number : Type := NaN | Int (z : Z).

Inductive value : Type :=
| VUndefined
| VNull
| VBool (b : bool)
| VNum (n : number)
| VStr (s : string)
| VArr (addr : nat) (items : list value)
| VObj (addr : nat) (props : gmap string value).

(** ToBoolean *)
Definition truthy (v : value) : bool :=
  match v with
  | VUndefined | VNull => false
  | VBool b => b
  | VNum NaN => false
  | VNum (Int z) => negb (Z.eqb z 0)
  | VStr s => negb (String.eqb s "")
  | VArr _ _ | VObj _ _ => true
  end.

Definition number_to_string (n : number) : string :=
  match n with
  | NaN => "NaN"
  | Int z => pretty z
  end.

(** ToString; [Array.prototype.toString] joins with commas and prints
    [null] and [undefined] elements as the empty string. *)
Fixpoint toString (v : value) : string :=
  match v with
  | VUndefined => "undefined"
  | VNull => "null"
  | VBool b => if b then "true" else "false"
  | VNum n => number_to_string n
  | VStr s => s
  | VArr _ items =>
      String.concat ","
        (map (λ x, match x with
                   | VUndefined | VNull => ""
                   | _ => toString x
                   end) items)
  | VObj _ _ => "[object Object]"
  end.

(** ToPrimitive *)
Definition toPrimitive (v : value) : value :=
  match v with
  | VArr _ _ | VObj _ _ => VStr (toString v)
  | _ => v
  end.

Definition is_white_space (c : ascii) : bool :=
  let n := N_of_ascii c in (N.leb 9 n && N.leb n 13) || N.eqb n 32.

Fixpoint trim_start (s : string) : string :=
  match s with
  | String c s' => if is_white_space c then trim_start s' else s
  | EmptyString => EmptyString
  end.

Definition trim (s : string) : string :=
  String.rev (trim_start (String.rev (trim_start s))).

Definition digit_of (c : ascii) : option Z :=
  let n := Z.of_N (N_of_ascii c) in
  if Z.leb 48 n && Z.leb n 57 then Some (n - 48) else None.

Fixpoint parse_digits (s : string) (acc : Z) : option Z :=
  match s with
  | EmptyString => Some acc
  | String c s' =>
      match digit_of c with
      | Some d => parse_digits s' (acc * 10 + d)
      | None => None
      end
  end.

Definition parse_unsigned (s : string) : option Z :=
  match s with
  | EmptyString => None
  | _ => parse_digits s 0
  end.

(** StringToNumber *)
Definition string_to_number (s : string) : number :=
  let of_digits (sign : Z) (r : string) :=
    match parse_unsigned r with
    | Some z => Int (sign * z)
    | None => NaN
    end in
  match trim s with
  | EmptyString => Int 0
  | String c r as t =>
      if Ascii.eqb c "+" then of_digits 1 r
      else if Ascii.eqb c "-" then of_digits (-1) r
      else of_digits 1 t
  end.

(** ToNumber *)
Definition toNumber (v : value) : number :=
  match v with
  | VUndefined => NaN
  | VNull => Int 0
  | VBool b => Int (if b then 1 else 0)
  | VNum n => n
  | VStr s => string_to_number s
  | VArr _ _ | VObj _ _ => string_to_number (toString v)
  end.

Definition number_eq (a b : number) : bool :=
  match a, b with
  | Int x, Int y => Z.eqb x y
  | _, _ => false
  end.

(** [x == y] *)
Definition looseEq (x y : value) : bool :=
  match x, y with
  | (VUndefined | VNull), (VUndefined | VNull) => true
  | (VUndefined | VNull), _ | _, (VUndefined | VNull) => false
  | (VArr a _ | VObj a _), (VArr b _ | VObj b _) => Nat.eqb a b
  | _, _ =>
      let norm v := match v with
                    | VBool _ => VNum (toNumber v)
                    | _ => toPrimitive v
                    end in
      match norm x, norm y with
      | VStr a, VStr b => String.eqb a b
      | a, b => number_eq (toNumber a) (toNumber b)
      end
  end.

(** The abstract relational comparison [x < y]; [None] is its
    [undefined] result, which every operator turns into [false]. *)
Definition lessThan (x y : value) : option bool :=
  match toPrimitive x, toPrimitive y with
  | VStr a, VStr b => Some (String.ltb a b)
  | px, py =>
      match toNumber px, toNumber py with
      | Int a, Int b => Some (Z.ltb a b)
      | _, _ => None
      end
  end.

Definition lt (x y : value) : bool := default false (lessThan x y).
Definition gt (x y : value) : bool := default false (lessThan y x).
Definition le (x y : value) : bool := default false (negb <$> lessThan y x).
Definition ge (x y : value) : bool := default false (negb <$> lessThan x y).

(** [s.includes(sub)] *)
Fixpoint includes (s sub : string) : bool :=
  String.prefix sub s ||
  match s with
  | String _ s' => includes s' sub
  | EmptyString => false
  end.

(** [s.split(sep)] for a one-character separator. *)
Fixpoint split (sep : ascii) (s : string) : list string :=
  match s with
  | EmptyString => [EmptyString]
  | String c s' =>
      if Ascii.eqb c sep then EmptyString :: split sep s'
      else match split sep s' with
           | h :: t => String c h :: t
           | [] => [String c EmptyString]
           end
  end.

(** A property key that is a canonical array index. *)
Definition parse_index (key : string) : option nat :=
  match parse_unsigned key with
  | Some z => if String.eqb (pretty z) key then Some (Z.to_nat z) else None
  | None => None
  end.

(** [v[key]].  Reading a property of [null] or [undefined] throws. *)
Definition get (v : value) (key : string) : completion value :=
  match v with
  | VUndefined | VNull =>
      Throw (Thrown (TypeError_ ("Cannot read properties of " +:+ toString v
                                 +:+ " (reading '" +:+ key +:+ "')")))
  | VObj _ props => Normal (default VUndefined (props !! key))
  | VArr _ items =>
      if String.eqb key "length" then Normal (VNum (Int (Z.of_nat (length items))))
      else Normal (default VUndefined (i ← parse_index key; items !! i))
  | VStr s =>
      if String.eqb key "length" then Normal (VNum (Int (Z.of_nat (String.length s))))
      else Normal (default VUndefined
                     (i ← parse_index key; c ← String.get i s;
                      Some (VStr (String c EmptyString))))
  | VBool _ | VNum _ => Normal VUndefined
  end.

(** The members that every object inherits from [Object.prototype].
    [get] does not find them: what it says of a key that is not an own
    property is what the code does for every key but these. *)
Definition Object_prototype : list string :=
  ["constructor"; "__proto__"; "hasOwnProperty"; "isPrototypeOf";
   "propertyIsEnumerable"; "toLocaleString"; "toString"; "valueOf";
   "__defineGetter__"; "__defineSetter__"; "__lookupGetter__"; "__lookupSetter__"].

(** [const { key, ... } = v]: the first property that a destructuring
    pattern takes from [v], which is written [name] in the source.  The
    properties that follow it are read with [get]. *)
Definition destructure (name : string) (v : value) (key : string) : completion value :=
  match v with
  | VUndefined | VNull =>
      Throw (Thrown (TypeError_ ("Cannot destructure property '" +:+ key +:+ "' of '"
                                 +:+ name +:+ "' as it is " +:+ toString v +:+ ".")))
  | _ => get v key
  end.

(** [v?.key] *)
Definition optional_get (v : value) (key : string) : completion value :=
  match v with
  | VUndefined | VNull => Normal VUndefined
  | _ => get v key
  end.

(** [target.key = v] outside strict mode, the result being the target
    as it is afterwards: an object has the property; a primitive is left
    as it is; [null] and [undefined] throw.  An array takes the property
    beside its items, where the model does not keep it. *)
Definition put (target : value) (key : string) (v : value) : completion value :=
  match target with
  | VUndefined | VNull =>
      Throw (Thrown (TypeError_ ("Cannot set properties of " +:+ toString target
                                 +:+ " (setting '" +:+ key +:+ "')")))
  | VObj a props => Normal (VObj a (<[key := v]> props))
  | _ => Normal target
  end.

End Js.

(** ** The service worker (src/unnamed/part_000) *)
Module ServiceWorker.
Import Js.

(** *** resolveValue, evaluateCondition, evaluateConditions *)

(** The [for (const key of path)] loop of [resolveValue]. *)
Fixpoint walk (path : list string) (result : value) : completion value :=
  match path with
  | [] => Normal result
  | key :: path' =>
      result' ← get result key;
      match result' with
      | VUndefined => Normal VUndefined
      | _ => walk path' result'
      end
  end.

Definition resolveValue (v context : value) : completion value :=
  match v with
  | VStr (String c rest) =>
      if Ascii.eqb c "$" then walk (split "." rest) context else Normal v
  | _ => Normal v
  end.

Section Conditions.
(** [new RegExp(source)]: [None] when the constructor throws a
    [SyntaxError], otherwise the [test] method of the expression. *)
Variable RegExp : string → option (string → bool).

(** The [try] block of [evaluateCondition]. *)
Definition condition_body (condition context : value) : completion bool :=
  left ← get condition "left";
  operator ← get condition "operator";
  right ← get condition "right";
  leftValue ← resolveValue left context;
  rightValue ← resolveValue right context;
  match operator with
  | VStr op =>
      if String.eqb op "==" then Normal (looseEq leftValue rightValue)
      else if String.eqb op "!=" then Normal (negb (looseEq leftValue rightValue))
      else if String.eqb op ">" then Normal (gt leftValue rightValue)
      else if String.eqb op "<" then Normal (lt leftValue rightValue)
      else if String.eqb op ">=" then Normal (ge leftValue rightValue)
      else if String.eqb op "<=" then Normal (le leftValue rightValue)
      else if String.eqb op "contains"
      then Normal (includes (toString leftValue) (toString rightValue))
      else if String.eqb op "matches"
      then match RegExp (match rightValue with
                         | VUndefined => ""
                         | _ => toString rightValue
                         end) with
           | Some test => Normal (test (toString leftValue))
           | None => Throw (Thrown (mkError "SyntaxError" "Invalid regular expression"))
           end
      else Normal true
  | _ => Normal true
  end.

Definition evaluateCondition (condition context : value) : bool :=
  match condition_body condition context with
  | Normal b => b
  | Throw error => false
  end.

(** [conditions.every(condition => evaluateCondition(condition, context))] *)
Definition evaluateConditions (conditions : list value) (context : value) : bool :=
  forallb (λ condition, evaluateCondition condition context) conditions.
End Conditions.

(** *** Workflows and executions *)

(** A step of a workflow.  [conditions], [errorHandling] and [storeAs]
    are [None] when the property is absent; [inner] is the step list of
    a loop action ([action.steps]). *)
Inductive Step : Type := mkStep {
  step_id : string;
  step_type : string;
  action : value;
  conditions : option (list value);
  errorHandling : option string;
  storeAs : option string;
  inner : list Step
}.

(** [stepDelay] is [workflow.settings?.stepDelay], [VUndefined] when
    there is none. *)
Record Workflow := mkWorkflow {
  steps : list Step;
  stepDelay : value
}.

(** The entries of the local [results] array of [executeWorkflow]. *)
Inductive StepRecord : Type :=
| Skipped (stepId : string)                    (* { stepId, skipped: true } *)
| Result (stepId : string) (result : value)    (* { stepId, result } *)
| Retried (stepId : string) (result : value)   (* { stepId, result, retried: true } *)
| Failed (stepId : string) (error : string).   (* { stepId, error } *)

Inductive event : Type :=
| EvExecuteStep (step : Step)   (* [executeStep(step, execution, tabId)] was entered *)
| EvDelay (ms : value).         (* [delay(ms)] was awaited *)

(** [execution] holds the properties of the execution object, which the
    conditions see as their context; [results] is the local array of
    [executeWorkflow]. *)
Record state (W : Type) := mkState {
  execution : gmap string value;
  results : list StepRecord;
  next_addr : nat;
  world : W;
  trace : list event
}.
Arguments mkState {W}.
Arguments execution {W} _.
Arguments results {W} _.
Arguments next_addr {W} _.
Arguments world {W} _.
Arguments trace {W} _.

Record Summary := mkSummary {
  executionId : value;
  summary_results : list StepRecord;
  errors : value;
  duration : number
}.

(** [patternMatcher.match(...)], as far as [handleGenerateWorkflow] looks
    at it: [patternMatch.confidence > 0.85] and the expression
    [patternMatch.matches[0]?.pattern.workflow]. *)
Record PatternMatch := mkPatternMatch {
  confident : bool;
  matched_workflow : completion value
}.

Section Worker.
Context {W : Type}.
Variable RegExp : string → option (string → bool).
Variable clock : W → Z * W.
Variable sleep : value → W → W.
(** The step types served by collaborators: [chrome.tabs.update],
    [executeInTab], [executeApiCall] and [transformData], given the
    step and the execution it may read. *)
Variable runner : Step → gmap string value → W → (JsError + value) * W.
(** [patternMatcher.match], [workflowGenerator.generateFromDescription],
    [patternMatcher.learnPattern] and [storeWorkflow], which catches its
    own errors. *)
Variable patternMatcher_match : value → value → W → (JsError + PatternMatch) * W.
Variable generateFromDescription : value → value → W → (JsError + value) * W.
Variable learnPattern : value → value → value → W → option JsError * W.
Variable storeWorkflow : value → W → W.

Abbreviation St := (state W).

Definition set_execution (e : gmap string value) (s : St) : St :=
  mkState e (results s) (next_addr s) (world s) (trace s).
Definition set_results (r : list StepRecord) (s : St) : St :=
  mkState (execution s) r (next_addr s) (world s) (trace s).
Definition set_world (w : W) (s : St) : St :=
  mkState (execution s) (results s) (next_addr s) w (trace s).
Definition emit (e : event) : Eff St unit :=
  modify (λ s, mkState (execution s) (results s) (next_addr s) (world s)
                 (trace s ++ [e])).
(** A fresh array or object. *)
Definition alloc : Eff St nat :=
  λ s, (Normal (next_addr s),
        mkState (execution s) (results s) (S (next_addr s)) (world s) (trace s)).

Definition external {B} (f : W → B * W) : Eff St B :=
  λ s, let '(b, w) := f (world s) in (Normal b, set_world w s).
(** An asynchronous collaborator that resolves or rejects. *)
Definition await (f : W → (JsError + value) * W) : Eff St value :=
  r ← external f;
  match r with
  | inr v => mret v
  | inl e => throw (Thrown e)
  end.

Definition now : Eff St Z := external clock.

(** [delay(ms)] *)
Definition delay (ms : value) : Eff St unit :=
  emit (EvDelay ms);; external (λ w, (tt, sleep ms w)).

(** The execution object as a value; it lives at address 0. *)
Definition context_of (s : St) : value := VObj 0 (execution s).

(** [execution[name] = v] *)
Definition assign (name : string) (v : value) : Eff St unit :=
  modify (λ s, set_execution (<[name := v]> (execution s)) s).

(** [results.push(r)] on the local array. *)
Definition push_result (r : StepRecord) : Eff St unit :=
  modify (λ s, set_results (results s ++ [r]) s).

(** [execution.<name>.push(arg)]: the method is looked up first, then
    the argument is built. *)
Definition array_push (name : string) (arg : Eff St value) : Eff St unit :=
  s ← get_state;
  match execution s !! name with
  | Some (VArr a items) =>
      v ← arg;
      modify (λ s, set_execution (<[name := VArr a (items ++ [v])]> (execution s)) s)
  | _ => throw (Thrown (TypeError_ ("execution." +:+ name +:+ ".push is not a function")))
  end.

(** The items a [for ... of] visits. *)
Definition iterate (v : value) : completion (list value) :=
  match v with
  | VArr _ items => Normal items
  | VStr s => Normal (map (λ c, VStr (String c EmptyString)) (list_ascii_of_string s))
  | _ => Throw (Thrown (TypeError_ "items is not iterable"))
  end.

Definition served_by_runner (type : string) : bool :=
  bool_decide (type ∈ ["navigate"; "click"; "input"; "extract"; "api"; "transform"]).

(** [executeLoop(action, execution, tabId)].  It calls back into
    [executeStep] for the inner steps, which are [steps] here. *)
Section ExecuteLoop.
Variable executeStep : Step → Eff St value.

(** [for (const step of steps)] *)
Fixpoint loop_steps (steps : list Step) (results : list value)
    : Eff St (list value) :=
  match steps with
  | [] => mret results
  | step :: steps' =>
      result ← executeStep step;
      loop_steps steps' (results ++ [result])
  end.

(** [for (const item of items)] *)
Fixpoint loop_items (variable : string) (steps : list Step)
    (items : list value) (results : list value) : Eff St (list value) :=
  match items with
  | [] => mret results
  | item :: items' =>
      assign variable item;;
      results ← loop_steps steps results;
      loop_items variable steps items' results
  end.

Definition executeLoop (action : value) (steps : list Step) : Eff St value :=
  items ← lift (destructure "action" action "items");
  variable ← lift (get action "variable");
  a ← alloc;
  items ← lift (iterate items);
  results ← loop_items (match variable with
                        | VUndefined => "item"
                        | _ => toString variable
                        end) steps items [];
  mret (VArr a results).
End ExecuteLoop.

(** [executeStep(step, execution, tabId)] *)
Fixpoint executeStep (step : Step) : Eff St value :=
  emit (EvExecuteStep step);;
  let type := step_type step in
  if served_by_runner type then
    s ← get_state; await (runner step (execution s))
  else if String.eqb type "wait" then
    timeout ← lift (get (action step) "timeout");
    delay (if truthy timeout then timeout else VNum (Int 1000));;
    mret VUndefined
  else if String.eqb type "condition" then
    s ← get_state;
    mret (VBool (evaluateCondition RegExp (action step) (context_of s)))
  else if String.eqb type "loop" then
    executeLoop executeStep (action step) (inner step)
  else
    throw (Thrown (Error_ ("Unknown step type: " +:+ type))).

(** [retryStep(step, execution, tabId, maxRetries)]: the loop from
    index [i]. *)
Fixpoint retry_loop (step : Step) (remaining i : nat) (lastError : thrown)
    : Eff St value :=
  match remaining with
  | O => throw lastError
  | S remaining' =>
      try_catch
        (delay (VNum (Int (backoff i)));; executeStep step)
        (λ error, retry_loop step remaining' (S i) error)
  end.

Definition retryStep (step : Step) (maxRetries : nat) : Eff St value :=
  retry_loop step maxRetries 0 ThrownUndefined.

(** [step.conditions && !evaluateConditions(step.conditions, execution)] *)
Definition conditions_fail (step : Step) (s : St) : bool :=
  match conditions step with
  | Some conditions => negb (evaluateConditions RegExp conditions (context_of s))
  | None => false
  end.

(** The [try] block of the loop body of [executeWorkflow].  The result
    tells whether the iteration left through [continue]. *)
Definition run_step (step : Step) : Eff St bool :=
  s ← get_state;
  if conditions_fail step s then
    push_result (Skipped (step_id step));; mret true
  else
    result ← executeStep step;
    push_result (Result (step_id step) result);;
    array_push "results" (mret result);;
    match storeAs step with
    | Some name => if truthy_string name then assign name result else mret tt
    | None => mret tt
    end;;
    mret false.

(** The [catch] block of the loop body. *)
Definition handle_step_error (step : Step) (error : thrown) : Eff St bool :=
  if bool_decide (errorHandling step = Some "fail") then throw error
  else if bool_decide (errorHandling step = Some "retry") then
    retryResult ← retryStep step 3;
    push_result (Retried (step_id step) retryResult);;
    mret false
  else
    message ← message_of error;
    push_result (Failed (step_id step) message);;
    array_push "errors"
      (a ← alloc;
       mret (VObj a (<["step" := VStr (step_id step)]>
                      (<["error" := VStr message]> ∅))));;
    mret false.

Definition try_step (step : Step) : Eff St bool :=
  try_catch (run_step step) (handle_step_error step).

(** One iteration of the [for] loop of [executeWorkflow]. *)
Definition iteration (workflow : Workflow) (i : nat) (step : Step) : Eff St unit :=
  assign "currentStep" (VNum (Int (Z.of_nat i)));;
  continued ← try_step step;
  if (continued : bool) then mret tt
  else if truthy (stepDelay workflow) then delay (stepDelay workflow)
  else mret tt.

Fixpoint steps_loop (workflow : Workflow) (i : nat) (steps : list Step) : Eff St unit :=
  match steps with
  | [] => mret tt
  | step :: steps' =>
      iteration workflow i step;; steps_loop workflow (S i) steps'
  end.

Definition number_sub (a b : number) : number :=
  match a, b with
  | Int x, Int y => Int (x - y)
  | _, _ => NaN
  end.

(** [executeWorkflow(execution)] *)
Definition executeWorkflow (workflow : Workflow) : Eff St Summary :=
  modify (set_results []);;
  steps_loop workflow 0 (steps workflow);;
  t ← now;
  s ← get_state;
  mret (mkSummary
          (default VUndefined (execution s !! "id"))
          (results s)
          (default VUndefined (execution s !! "errors"))
          (number_sub (Int t)
             (toNumber (default VUndefined (execution s !! "startTime"))))).

(** [createFallbackWorkflow(description)] *)
Definition fallback_message : string :=
  "Workflow generation failed. Please try again with more details.".

Definition createFallbackWorkflow (description : value) : Eff St value :=
  wf ← alloc;
  t ← now;
  stepsArr ← alloc;
  step ← alloc;
  act ← alloc;
  meta ← alloc;
  mret (VObj wf
    (<["id" := VStr ("fallback_" +:+ pretty t)]>
    (<["name" := VStr "Fallback Workflow"]>
    (<["description" := VStr ("Generated fallback for: " +:+ toString description)]>
    (<["steps" := VArr stepsArr
         [VObj step
            (<["id" := VStr "step_1"]>
            (<["type" := VStr "alert"]>
            (<["action" := VObj act (<["message" := VStr fallback_message]> ∅)]> ∅)))]]>
    (<["metadata" := VObj meta
         (<["isFallback" := VBool true]>
         (<["originalDescription" := description]> ∅))]> ∅)))))).

(** The [try] block of [handleGenerateWorkflow]: pattern match first,
    generation otherwise. *)
Definition generation_path (description context : value) : Eff St value :=
  patternMatch ← external (patternMatcher_match description context);
  match patternMatch with
  | inl e => throw (Thrown e)
  | inr patternMatch =>
      matched ← (if confident patternMatch
                 then lift (matched_workflow patternMatch)
                 else mret VUndefined);
      if confident patternMatch && truthy matched then mret matched
      else
        workflow ← await (generateFromDescription description context);
        learned ← external (learnPattern description workflow context);
        match learned with
        | Some e => throw (Thrown e)
        | None =>
            external (λ w, (tt, storeWorkflow workflow w));;
            mret workflow
        end
  end.

(** The statements of [handleGenerateWorkflow] before its [try]: the
    destructuring of the payload, with a new object for a context that
    is [undefined], and the three assignments to the context, each of
    which evaluates its right-hand side before it assigns.  The result is
    the description and the context as the [try] block finds them. *)
Definition request_context (payload sender : value) : Eff St (value * value) :=
  description ← lift (destructure "payload" payload "description");
  context ← lift (get payload "context");
  context ← match context with
            | VUndefined => a ← alloc; mret (VObj a ∅)
            | _ => mret context
            end;
  tab ← lift (get sender "tab");
  tabId ← lift (optional_get tab "id");
  context ← lift (put context "tabId" tabId);
  tab ← lift (get sender "tab");
  url ← lift (optional_get tab "url");
  context ← lift (put context "url" url);
  frameId ← lift (get sender "frameId");
  context ← lift (put context "frameId" frameId);
  mret (description, context).

(** [handleGenerateWorkflow(payload, sender)] *)
Definition handleGenerateWorkflow (payload sender : value) : Eff St value :=
  request ← request_context payload sender;
  try_catch (generation_path request.1 request.2)
    (λ error, createFallbackWorkflow request.1).
End Worker.

End ServiceWorker.

(** ** class AIMetrics, in full (src/background/ai-engine.js) *)
Module AIMetrics.

(** An entry of [this.metrics.errors]: [{ message, timestamp }]. *)
Record ErrorEntry := mkErrorEntry { entry_message : string; entry_timestamp : Z }.

(** [this.metrics]; [requests] and [errors] are [Map]s, the first read
    only by key and as a sum, the second in insertion order. *)
Record t := mkMetrics {
  requests : gmap string N;
  cacheHits : N;
  cacheMisses : N;
  errors : list (string * list ErrorEntry);
  latencies : list Z
}.

(** The constructor. *)
Definition new : t := mkMetrics ∅ 0 0 [] [].

(** [recordGeneration(type, latency, success)]: the counter, and for a
    success the latency, of which the last hundred are kept. *)
Definition recordGeneration (type : string) (latency : Z) (success : bool) (m : t) : t :=
  let requests' := AIEngine.recordGeneration type success (requests m) in
  if success then
    let pushed := latencies m ++ [latency] in
    mkMetrics requests' (cacheHits m) (cacheMisses m) (errors m)
      (if bool_decide (100 < Z.of_nat (length pushed)) then tail pushed else pushed)
  else mkMetrics requests' (cacheHits m) (cacheMisses m) (errors m) (latencies m).

Definition recordCacheHit (m : t) : t :=
  mkMetrics (requests m) (cacheHits m + 1) (cacheMisses m) (errors m) (latencies m).

Definition recordCacheMiss (m : t) : t :=
  mkMetrics (requests m) (cacheHits m) (cacheMisses m + 1) (errors m) (latencies m).

(** [l.slice(-n)] *)
Definition slice_last {A} (n : nat) (l : list A) : list A := drop (length l - n) l.

(** [recordError(provider, error)], with [message] the message of the
    error and [now] the clock reading. *)
Definition recordError (provider message : string) (now : Z) (m : t) : t :=
  let pushed := default [] (AIEngine.map_get provider (errors m))
                ++ [mkErrorEntry message now] in
  mkMetrics (requests m) (cacheHits m) (cacheMisses m)
    (AIEngine.map_set provider (slice_last 10 pushed) (errors m)) (latencies m).

(** [getAverageLatency()], an exact rational. *)
Definition getAverageLatency (m : t) : Q :=
  match latencies m with
  | [] => 0
  | _ => foldl Z.add 0 (latencies m) # Pos.of_nat (length (latencies m))
  end.

Record Report := mkReport {
  totalRequests : N;
  cacheHitRate : Q;
  averageLatency : Q;
  providerStats : list (string * Q * list ErrorEntry)
}.

(** [getReport()].  The hit rate is [hits / (hits + misses) || 0]: the
    [NaN] of 0 / 0 becomes 0.  [providerStats] maps over
    [Object.keys(this.metrics.errors)], and a [Map] has no enumerable
    property of its own, whatever it holds. *)
Definition getReport (m : t) : Report :=
  mkReport
    (map_fold (λ _ count total, (total + count)%N) 0%N (requests m))
    (match (cacheHits m + cacheMisses m)%N with
     | N0 => 0
     | Npos total => Z.of_N (cacheHits m) # total
     end)
    (getAverageLatency m)
    [].

End AIMetrics.

(** ** class AIEngine, the public methods (src/background/ai-engine.js) *)
Module Engine.
Import Js.

(** *** hashString, getCacheKey *)

(** ToInt32, and the two operators of [hashString] on it. *)
Definition toInt32 (z : Z) : Z := (z + 2 ^ 31) mod 2 ^ 32 - 2 ^ 31.
Definition shl32 (a n : Z) : Z := toInt32 (Z.shiftl (toInt32 a) n).
Definition and32 (a b : Z) : Z := Z.land (toInt32 a) (toInt32 b).

(** The body of the loop: [hash = ((hash << 5) - hash) + char;
    hash = hash & hash]. *)
Definition hash_char (hash : Z) (c : ascii) : Z :=
  let char := Z.of_N (N_of_ascii c) in
  let hash := (shl32 hash 5 - hash) + char in
  and32 hash hash.

(** The number [hashString] ends with. *)
Definition hash_code (str : string) : Z :=
  fold_left hash_char (list_ascii_of_string str) 0.

(** A digit in base 36: 0 to 9, then a to z. *)
Definition digit36 (d : Z) : ascii :=
  ascii_of_N (Z.to_N (if Z.ltb d 10 then 48 + d else 87 + d)).

Fixpoint radix36 (fuel : nat) (n : Z) (acc : string) : string :=
  match fuel with
  | O => acc
  | S fuel' =>
      let acc' := String (digit36 (n mod 36)) acc in
      if Z.eqb (n / 36) 0 then acc' else radix36 fuel' (n / 36) acc'
  end.

(** [n.toString(36)] for an integer [n]. *)
Definition toString36 (n : Z) : string :=
  let digits m := radix36 (S (Z.to_nat (Z.log2 m))) m EmptyString in
  if Z.ltb n 0 then "-" +:+ digits (- n) else digits n.

Definition hashString (str : string) : string := toString36 (hash_code str).

(** [getCacheKey(type, input, options)], with [optionsStr] the text
    [JSON.stringify(options)], which is "{}" without options. *)
Definition getCacheKey (type input optionsStr : string) : string :=
  type +:+ ":" +:+ hashString (input +:+ optionsStr).

(** *** The engine with its metrics *)
Record state (W : Type) := mkEngine {
  core : AIEngine.state W value;
  metrics : AIMetrics.t;
  next_addr : nat
}.
Arguments mkEngine {W}.
Arguments core {W} _.
Arguments metrics {W} _.
Arguments next_addr {W} _.

(** The properties a spread [{ ...v }] copies: the own enumerable ones. *)
Definition own_props (v : value) : gmap string value :=
  match v with
  | VObj _ props => props
  | VArr _ items => list_to_map (imap (λ i x, (pretty i, x)) items)
  | VStr s =>
      list_to_map (imap (λ i c, (pretty i, VStr (String c EmptyString)))
                     (list_ascii_of_string s))
  | _ => ∅
  end.

(** The members every object inherits from [Object.prototype]: the
    lookup [this.providers[name]] finds them, and none of them has a
    method [setAPIKey]. *)
Definition inherited_members : list string :=
  ["constructor"; "__proto__"; "hasOwnProperty"; "isPrototypeOf";
   "propertyIsEnumerable"; "toLocaleString"; "toString"; "valueOf";
   "__defineGetter__"; "__defineSetter__"; "__lookupGetter__"; "__lookupSetter__"].

Section Methods.
Context {W : Type}.
Variable clock : W → Z * W.
Variable sleep : Z → W → W.
(** The provider calls behind the three operations: the prompt, for
    [generateWorkflow] the options, and the name of the provider. *)
Variable provider_generateWorkflow :
  string → string → string → W → option (JsError + value) * W.
Variable provider_extractPatterns : string → string → W → option (JsError + value) * W.
Variable provider_optimize : string → string → W → option (JsError + value) * W.
(** The prompt templates; they only feed the provider calls. *)
Variable enhancePrompt : string → string → string.
Variable buildPatternExtractionPrompt : string → string.
Variable buildOptimizationPrompt : value → string.
(** [chrome.storage.local], for the item "apiKeys": [get] resolves with
    the stored object, if any, or rejects; [set] replaces the item. *)
Variable storage_get : W → (JsError + option (list (string * string))) * W.
Variable storage_set : list (string * string) → W → W.

Abbreviation St := (state W).

Definition set_core (c : AIEngine.state W value) (e : St) : St :=
  mkEngine c (metrics e) (next_addr e).
Definition set_metrics (m : AIMetrics.t) (e : St) : St :=
  mkEngine (core e) m (next_addr e).

(** A method of the engine proper, run on the engine with its metrics. *)
Definition on_core {B} (m : Eff (AIEngine.state W value) B) : Eff St B :=
  λ e, let '(r, c) := m (core e) in (r, set_core c e).

Definition now : Eff St Z := on_core (AIEngine.now clock).

Definition alloc : Eff St nat :=
  λ e, (Normal (next_addr e), mkEngine (core e) (metrics e) (S (next_addr e))).

(** [this.metrics.recordGeneration('workflow', Date.now() - startTime, success)] *)
Definition record_workflow (startTime : Z) (success : bool) : Eff St unit :=
  t ← now;
  modify (λ e, set_metrics
                 (AIMetrics.recordGeneration "workflow" (t - startTime) success (metrics e)) e).

(** [if (cached)] on what [getFromCache] returned. *)
Definition usable (cached : option value) : option value :=
  match cached with
  | Some v => if truthy v then Some v else None
  | None => None
  end.

(** [new AIEngineError('Failed to generate workflow', error)]; the
    constructor reads the clock for its [timestamp]. *)
Definition AIEngineError (message : string) : Eff St JsError :=
  _ ← now; mret (mkError "AIEngineError" message).

(** [generateWorkflow(prompt, options)]; [preferredProvider] is
    [options.preferredProvider]. *)
Definition generateWorkflow (prompt optionsStr : string)
    (preferredProvider : option string) : Eff St value :=
  startTime ← now;
  let cacheKey := getCacheKey "workflow" prompt optionsStr in
  cached ← on_core (AIEngine.getFromCache clock cacheKey);
  match usable cached with
  | Some cached =>
      modify (λ e, set_metrics (AIMetrics.recordCacheHit (metrics e)) e);;
      mret cached
  | None =>
      let enhancedPrompt := enhancePrompt prompt "workflow" in
      try_catch
        (e ← get_state;
         result ← on_core
           (AIEngine.executeWithFallback clock sleep
              (provider_generateWorkflow enhancedPrompt optionsStr)
              (AIMetrics.requests (metrics e)) AIEngine.provider_names preferredProvider);
         on_core (AIEngine.setCache clock cacheKey result);;
         record_workflow startTime true;;
         mret result)
        (λ error,
           record_workflow startTime false;;
           failure ← AIEngineError "Failed to generate workflow";
           throw (Thrown failure))
  end.

(** [extractPatterns(text)] *)
Definition extractPatterns (text : string) : Eff St value :=
  let cacheKey := getCacheKey "patterns" text "{}" in
  cached ← on_core (AIEngine.getFromCache clock cacheKey);
  match usable cached with
  | Some cached => mret cached
  | None =>
      let prompt := buildPatternExtractionPrompt text in
      try_catch
        (e ← get_state;
         patterns ← on_core
           (AIEngine.executeWithFallback clock sleep (provider_extractPatterns prompt)
              (AIMetrics.requests (metrics e)) AIEngine.provider_names None);
         on_core (AIEngine.setCache clock cacheKey patterns);;
         mret patterns)
        (λ error, a ← alloc; mret (VArr a []))
  end.

(** [applyOptimizations(workflow, optimizations)] *)
Definition applyOptimizations (workflow optimizations : value) : Eff St value :=
  a ← alloc;
  let optimized := own_props workflow in
  parallelSteps ← lift (get optimizations "parallelSteps");
  let optimized :=
    if truthy parallelSteps then <["parallelGroups" := parallelSteps]> optimized
    else optimized in
  caching ← lift (get optimizations "caching");
  let optimized :=
    if truthy caching then <["cachePoints" := caching]> optimized else optimized in
  errorHandling ← lift (get optimizations "errorHandling");
  if truthy errorHandling then
    merged ← alloc;
    mret (VObj a
            (<["errorHandling" :=
                 VObj merged
                   (own_props errorHandling
                    ∪ own_props (default VUndefined (optimized !! "errorHandling")))]>
               optimized))
  else mret (VObj a optimized).

(** [optimizeWorkflow(workflow)] *)
Definition optimizeWorkflow (workflow : value) : Eff St value :=
  let analysisPrompt := buildOptimizationPrompt workflow in
  try_catch
    (e ← get_state;
     optimization ← on_core
       (AIEngine.executeWithFallback clock sleep (provider_optimize analysisPrompt)
          (AIMetrics.requests (metrics e)) AIEngine.provider_names None);
     applyOptimizations workflow optimization)
    (λ error, mret workflow).

(** *** API keys *)

(** [this.providers[provider].setAPIKey(key)], after the test
    [if (this.providers[provider])]: [None] when the test fails. *)
Definition provider_setAPIKey (provider key : string) : Eff St (option unit) :=
  if bool_decide (provider ∈ AIEngine.provider_names) then
    modify (λ e,
      set_core
        (AIEngine.mkState (AIEngine.config (core e)) (AIEngine.rateLimiters (core e))
           (<[provider := key]> (AIEngine.apiKeys (core e)))
           (AIEngine.cache (core e)) (AIEngine.world (core e))
           (AIEngine.trace (core e))) e);;
    mret (Some tt)
  else if bool_decide (provider ∈ inherited_members) then
    throw (Thrown (TypeError_ "this.providers[provider].setAPIKey is not a function"))
  else mret None.

(** [setAPIKey(provider, key)].  [getStoredKeys] is an async function:
    the call issues the read of the storage and returns a promise, and
    the spread of a promise copies nothing. *)
Definition setAPIKey (provider key : string) : Eff St unit :=
  found ← provider_setAPIKey provider key;
  match found with
  | Some _ =>
      _ ← on_core (AIEngine.external storage_get);
      on_core (AIEngine.external (λ w, (tt, storage_set [(provider, key)] w)))
  | None => mret tt
  end.

(** The [forEach] of [loadAPIKeys]. *)
Fixpoint load_entries (entries : list (string * string)) : Eff St unit :=
  match entries with
  | [] => mret tt
  | (provider, key) :: entries' =>
      provider_setAPIKey provider key;; load_entries entries'
  end.

(** [loadAPIKeys()] *)
Definition loadAPIKeys : Eff St unit :=
  try_catch
    (keys ← on_core (AIEngine.external storage_get);
     match keys with
     | inr (Some apiKeys) => load_entries apiKeys
     | inr None => mret tt
     | inl e => throw (Thrown e)
     end)
    (λ error, mret tt).

(** The engine as the constructor and [initialize] leave it before the
    keys are loaded, in the world [w]. *)
Definition constructed (w : W) : St :=
  mkEngine
    (AIEngine.mkState AIEngine.default_config
       (<["groq" := AIEngine.newRateLimiter 100 60000]>
       (<["huggingface" := AIEngine.newRateLimiter 50 60000]>
       (<["openrouter" := AIEngine.newRateLimiter 200 60000]> ∅)))
       ∅ [] w [])
    AIMetrics.new 0.
End Methods.

End Engine.

(** ** class HuggingFaceProvider: parseTextToWorkflow *)
Module HuggingFaceProvider.
Import Js.

Record ParsedStep := mkParsedStep { parsed_id : string; parsed_action : string }.

Record ParsedWorkflow := mkParsedWorkflow {
  name : string;
  description : string;
  steps : list ParsedStep;
  triggers : list value;
  conditions : list value
}.

Definition is_digit (c : ascii) : bool :=
  match digit_of c with Some _ => true | None => false end.

Fixpoint skip_digits (s : string) : string :=
  match s with
  | String c s' => if is_digit c then skip_digits s' else s
  | EmptyString => EmptyString
  end.

(** [line.replace(/^\d+\.?\s*/, '')]: digits at the start, a dot if there
    is one, and the white space after them. *)
Definition strip_numbering (line : string) : string :=
  match line with
  | String c _ =>
      if is_digit c then
        match skip_digits line with
        | String d rest => if Ascii.eqb d "." then trim_start rest
                           else trim_start (String d rest)
        | EmptyString => EmptyString
        end
      else line
  | EmptyString => EmptyString
  end.

(** [parseTextToWorkflow(text)] *)
Definition parseTextToWorkflow (text : string) : ParsedWorkflow :=
  let lines := filter (λ l, truthy_string (trim l) = true) (split "010" text) in
  mkParsedWorkflow
    "Generated Workflow"
    (match lines with
     | first :: _ => first
     | [] => "Automated workflow"
     end)
    (omap id
       (imap (λ index line,
                if includes line "step" || includes line "action"
                then Some (mkParsedStep ("step_" +:+ pretty index)
                             (trim (strip_numbering line)))
                else None)
          lines))
    [] [].

End HuggingFaceProvider.

(** ** The service worker: feedback and executions
    (src/unnamed/part_000, src/background/training-system.js) *)
Module Service.
Import Js ServiceWorker.

(** *** updatePerformanceMetrics *)

(** [serviceState.performance]; the average is an exact rational. *)
Record Performance := mkPerformance {
  requestsHandled : N;
  averageResponseTime : Q;
  performance_errors : N
}.

Definition initial_performance : Performance := mkPerformance 0 0 0.

(** [updatePerformanceMetrics(responseTime, success)] *)
Definition updatePerformanceMetrics (responseTime : Z) (success : bool)
    (metrics : Performance) : Performance :=
  let count := (requestsHandled metrics + 1)%N in
  let oldAvg := averageResponseTime metrics in
  mkPerformance count
    ((oldAvg * inject_Z (Z.of_N count - 1) + inject_Z responseTime)
     / inject_Z (Z.of_N count))%Q
    (if success then performance_errors metrics
     else (performance_errors metrics + 1)%N).

(** *** The feedback store *)

(** The [record] that [recordFeedback] builds. *)
Record FeedbackRecord := mkFeedbackRecord {
  record_workflowId : value;
  record_feedback : value;
  record_corrections : value;
  record_timestamp : Z;
  record_context : value
}.

(** [FeedbackStore.add(record)], on the array [feedbackStore.feedback]. *)
Definition FeedbackStore_add (record : FeedbackRecord)
    (feedback : list FeedbackRecord) : list FeedbackRecord :=
  let feedback := feedback ++ [record] in
  if (1000 <? length feedback)%nat then tail feedback else feedback.

(** [activeWorkflows] is the [Map] of [serviceState], of which only the
    keys are looked at; [feedbackStore] is the array of the feedback
    store of the training system. *)
Record state (W : Type) := mkService {
  activeWorkflows : gset string;
  feedbackStore : list FeedbackRecord;
  worker : ServiceWorker.state W
}.
Arguments mkService {W}.
Arguments activeWorkflows {W} _.
Arguments feedbackStore {W} _.
Arguments worker {W} _.

(** [try { m } finally { f }] *)
Definition finally {S B} (m : Eff S B) (f : Eff S unit) : Eff S B :=
  λ s, let '(r, s1) := m s in
       match f s1 with
       | (Normal _, s2) => (r, s2)
       | (Throw t, s2) => (Throw t, s2)
       end.

Section Handlers.
Context {W : Type}.
Variable RegExp : string → option (string → bool).
Variable clock : W → Z * W.
Variable sleep : value → W → W.
Variable runner : Step → gmap string value → W → (JsError + value) * W.
(** [getStoredWorkflow(workflowId)], which catches its own errors: the
    stored object with its steps as [executeWorkflow] reads them, or
    [None] for a missing or falsy item. *)
Variable getStoredWorkflow : value → W → option (value * Workflow) * W.
(** [generateExecutionId()] *)
Variable generateExecutionId : W → string * W.
(** The expression [process.memoryUsage?.() || {}], which throws where
    [process] is not declared. *)
Variable memoryUsage : W → (JsError + value) * W.
(** [learnFromFeedback(record)], [recordSuccess(workflowId, feedback)]
    and [recordFailure(workflowId, feedback)] of the training system. *)
Variable learnFromFeedback : FeedbackRecord → W → option JsError * W.
Variable recordSuccess : value → value → W → option JsError * W.
Variable recordFailure : value → value → W → option JsError * W.
(** [patternMatcher.learnPattern(text, workflow, context)] *)
Variable learnPattern : value → value → value → W → option JsError * W.

Abbreviation St := (state W).

Definition on_worker {B} (m : Eff (ServiceWorker.state W) B) : Eff St B :=
  λ s, let '(r, w) := m (worker s) in
       (r, mkService (activeWorkflows s) (feedbackStore s) w).

(** A collaborator that returns nothing or throws. *)
Definition call (f : W → option JsError * W) : Eff St unit :=
  r ← on_worker (ServiceWorker.external f);
  match r with
  | None => mret tt
  | Some e => throw (Thrown e)
  end.

(** [trainingSystem.recordFeedback(workflowId, feedback)] *)
Definition recordFeedback (workflowId feedback : value) : Eff St value :=
  rating ← lift (get feedback "rating");
  corrections ← lift (get feedback "corrections");
  corrections ← (if truthy corrections then mret corrections
                 else a ← on_worker alloc; mret (VArr a []));
  timestamp ← on_worker (ServiceWorker.now clock);
  context ← lift (get feedback "context");
  context ← (if truthy context then mret context
             else a ← on_worker alloc; mret (VObj a ∅));
  let record := mkFeedbackRecord workflowId rating corrections timestamp context in
  modify (λ s, mkService (activeWorkflows s)
                 (FeedbackStore_add record (feedbackStore s)) (worker s));;
  critical ← (if le rating (VNum (Int 2)) then mret true
              else
                corrections ← lift (get feedback "corrections");
                length ← lift (get corrections "length");
                mret (gt length (VNum (Int 0))));
  (if (critical : bool) then call (learnFromFeedback record) else mret tt);;
  (if ge rating (VNum (Int 4)) then call (recordSuccess workflowId feedback)
   else call (recordFailure workflowId feedback));;
  a ← on_worker alloc;
  mret (VObj a (<["processed" := VBool true]>
               (<["learningTriggered" := VBool (le rating (VNum (Int 2)))]> ∅))).

(** [handleFeedback(payload)]; [workflowId] and [feedback] are the
    destructured payload. *)
Definition handleFeedback (workflowId feedback : value) : Eff St value :=
  result ← recordFeedback workflowId feedback;
  corrections ← lift (get feedback "corrections");
  corrected ← (if truthy corrections
               then length ← lift (get corrections "length");
                    mret (gt length (VNum (Int 0)))
               else mret false);
  (if (corrected : bool) then
     stored ← on_worker (ServiceWorker.external (getStoredWorkflow workflowId));
     match stored with
     | Some (workflow, _) =>
         metadata ← lift (get workflow "metadata");
         description ← match metadata with
                       | VUndefined | VNull => mret VUndefined
                       | _ => lift (get metadata "originalDescription")
                       end;
         a ← on_worker alloc;
         call (learnPattern (if truthy description then description else VStr "")
                 workflow (VObj a (<["corrected" := VBool true]> ∅)))
     | None => mret tt
     end
   else mret tt);;
  mret result.

(** [estimateResourceUsage(execution)] *)
Definition estimateResourceUsage : Eff (ServiceWorker.state W) value :=
  memory ← await memoryUsage;
  s ← get_state;
  steps ← lift (get (default VUndefined (execution s !! "results")) "length");
  errors ← lift (get (default VUndefined (execution s !! "errors")) "length");
  a ← alloc;
  mret (VObj a (<["memory" := memory]>
               (<["steps" := steps]>
               (<["errors" := errors]> ∅)))).

(** [error.name] on a caught value. *)
Definition name_of (error : thrown) : Eff St string :=
  match error with
  | Thrown e => mret (err_name e)
  | ThrownUndefined =>
      throw (Thrown (TypeError_ "Cannot read properties of undefined (reading 'name')"))
  end.

(** The execution context [handleExecuteWorkflow] creates. *)
Definition new_execution (id : string) (workflowId workflow parameters tabId : value)
    (startTime : Z) (results errors : nat) : gmap string value :=
  <["id" := VStr id]>
  (<["workflowId" := workflowId]>
  (<["workflow" := workflow]>
  (<["parameters" := parameters]>
  (<["tabId" := tabId]>
  (<["startTime" := VNum (Int startTime)]>
  (<["status" := VStr "running"]>
  (<["currentStep" := VNum (Int 0)]>
  (<["results" := VArr results []]>
  (<["errors" := VArr errors []]> ∅))))))))).

(** [serviceState.activeWorkflows.delete(execution.id)], with the [id]
    the execution has by then; the keys of the map are the strings of
    [generateExecutionId]. *)
Definition release : Eff St unit :=
  modify (λ s, match execution (worker s) !! "id" with
               | Some (VStr id) =>
                   mkService (activeWorkflows s ∖ {[id]}) (feedbackStore s) (worker s)
               | _ => s
               end).

(** The [try] block of [handleExecuteWorkflow]. *)
Definition execute_and_report (workflowId : value) (workflow : Workflow)
    : Eff St Summary :=
  result ← on_worker (executeWorkflow RegExp clock sleep runner workflow);
  t ← on_worker (ServiceWorker.now clock);
  s ← get_state;
  resourceUsage ← on_worker estimateResourceUsage;
  a ← on_worker alloc;
  recordFeedback workflowId
    (VObj a
       (<["rating" := VNum (Int 5)]>
       (<["executionTime" :=
            VNum (number_sub (Int t)
                    (toNumber (default VUndefined (execution (worker s) !! "startTime"))))]>
       (<["resourceUsage" := resourceUsage]> ∅))));;
  mret result.

(** Its [catch] block. *)
Definition report_failure (workflowId : value) (error : thrown) : Eff St Summary :=
  errorType ← name_of error;
  errorMessage ← message_of error;
  s ← get_state;
  a ← on_worker alloc;
  recordFeedback workflowId
    (VObj a
       (<["rating" := VNum (Int 1)]>
       (<["errorType" := VStr errorType]>
       (<["errorMessage" := VStr errorMessage]>
       (<["failedStep" := default VUndefined (execution (worker s) !! "currentStep")]> ∅)))));;
  throw error.

(** [handleExecuteWorkflow(payload, sender)]; [workflowId] and
    [parameters] are the destructured payload, [tabId] is
    [sender.tab?.id]. *)
Definition handleExecuteWorkflow (workflowId parameters tabId : value)
    : Eff St Summary :=
  parameters ← match parameters with
               | VUndefined => a ← on_worker alloc; mret (VObj a ∅)
               | _ => mret parameters
               end;
  stored ← on_worker (ServiceWorker.external (getStoredWorkflow workflowId));
  match stored with
  | None =>
      throw (Thrown (Error_ ("Workflow " +:+ toString workflowId +:+ " not found")))
  | Some (stored_workflow, workflow) =>
      id ← on_worker (ServiceWorker.external generateExecutionId);
      startTime ← on_worker (ServiceWorker.now clock);
      results ← on_worker alloc;
      errors ← on_worker alloc;
      on_worker (modify (set_execution
        (new_execution id workflowId stored_workflow parameters tabId startTime
           results errors)));;
      modify (λ s, mkService ({[id]} ∪ activeWorkflows s) (feedbackStore s) (worker s));;
      finally
        (try_catch (execute_and_report workflowId workflow)
                   (report_failure workflowId))
        release
  end.
End Handlers.

End Service.

(** ** The pattern matcher (src/unnamed/part_000)

    Texts are ASCII, as in [Js]; the similarity of two texts is the exact
    quotient where JavaScript rounds it to a double. *)
Module PatternMatcher.
Import Js.

(** [text.toLowerCase()] *)
Definition lower (c : ascii) : ascii :=
  let n := N_of_ascii c in
  if (N.leb 65 n && N.leb n 90)%N then ascii_of_N (n + 32) else c.

Definition toLowerCase (text : string) : string :=
  string_of_list_ascii (map lower (list_ascii_of_string text)).

(** [text.split(/\s+/)]: [current] is the piece being read, [in_space]
    tells that the last character was white space. *)
Fixpoint pieces (text current : string) (in_space : bool) : list string :=
  match text with
  | EmptyString => [current]
  | String c text' =>
      if is_white_space c
      then if in_space then pieces text' current true
           else current :: pieces text' EmptyString true
      else pieces text' (current +:+ String c EmptyString) false
  end.

Definition split_white_space (text : string) : list string :=
  pieces text EmptyString false.

(** A character of the class [[a-z0-9]]. *)
Definition is_alphanumeric (c : ascii) : bool :=
  let n := N_of_ascii c in
  ((N.leb 97 n && N.leb n 122) || (N.leb 48 n && N.leb n 57))%N.

(** [t.replace(/[^a-z0-9]/g, '')] *)
Definition strip (t : string) : string :=
  string_of_list_ascii (List.filter is_alphanumeric (list_ascii_of_string t)).

(** [tokenize(text)] *)
Definition tokenize (text : string) : list string :=
  map strip
    (List.filter (λ t, (2 <? String.length t)%nat) (split_white_space text)).

(** [calculateSimilarity(text1, text2)] *)
Definition calculateSimilarity (text1 text2 : string) : Q :=
  let tokens1 := tokenize (toLowerCase text1) in
  let tokens2 := tokenize (toLowerCase text2) in
  let intersection := filter (λ t, t ∈ tokens2) tokens1 in
  let union := remove_dups (tokens1 ++ tokens2) in
  if (0 <? length union)%nat
  then inject_Z (Z.of_nat (length intersection)) / inject_Z (Z.of_nat (length union))
  else 0.

(** [getCacheKey(text, context)], given [JSON.stringify(context)]. *)
Definition getCacheKey (text contextJson : string) : string :=
  substring 0 50 text +:+ ":" +:+ contextJson.

(** [cache] is the [Map] of results, in insertion order; [cacheSize] is
    [config.cacheSize]; [matchesFound] is the counter of the
    statistics. *)
Record state (W R : Type) := mkMatcher {
  cache : list (string * R);
  cacheSize : nat;
  matchesFound : N;
  world : W
}.
Arguments mkMatcher {W R}.
Arguments cache {W R} _.
Arguments cacheSize {W R} _.
Arguments matchesFound {W R} _.
Arguments world {W R} _.

Section Matcher.
Context {W R C : Type}.
Variable JSON_stringify : C → string.
(** [performMatching(text, context)] *)
Variable performMatching : string → C → W → (JsError + R) * W.

Abbreviation St := (state W R).

Definition set_cache (c : list (string * R)) (s : St) : St :=
  mkMatcher c (cacheSize s) (matchesFound s) (world s).

(** [match(text, context)] *)
Definition match_ (text : string) (context : C) : Eff St R :=
  let cacheKey := getCacheKey text (JSON_stringify context) in
  s ← get_state;
  match AIEngine.map_get cacheKey (cache s) with
  | Some results => mret results
  | None =>
      let '(r, w) := performMatching text context (world s) in
      modify (λ s, mkMatcher (cache s) (cacheSize s) (matchesFound s) w);;
      match r with
      | inl e => throw (Thrown e)
      | inr results =>
          modify (λ s, set_cache (AIEngine.map_set cacheKey results (cache s)) s);;
          s ← get_state;
          (if (cacheSize s <? length (cache s))%nat
           then match AIEngine.map_first_key (cache s) with
                | Some firstKey =>
                    modify (λ s, set_cache (AIEngine.map_delete firstKey (cache s)) s)
                | None => mret tt
                end
           else mret tt);;
          modify (λ s, mkMatcher (cache s) (cacheSize s) (matchesFound s + 1)%N (world s));;
          mret results
      end
  end.

(** [clearCache()] *)
Definition clearCache : Eff St unit := modify (set_cache []).
End Matcher.

End PatternMatcher.

(** * Vocabulary of the properties *)

(** The error an attempt ends with when the provider call does not
    resolve: its rejection, or the timeout of the race. *)
Definition failure_of {A} (r : option (JsError + A)) : JsError :=
  match r with
  | Some (inl e) => e
  | _ => Error_ "Request timeout"
  end.

Definition resolves {A} (r : option (JsError + A)) : Prop :=
  ∃ a, r = Some (inr a).

(** [null] or [undefined]. *)
Definition nullish (v : Js.value) : Prop := v = Js.VNull ∨ v = Js.VUndefined.

(** The condition [{ left, operator, right }], an object at address 1. *)
Definition a_condition (left : Js.value) (operator : string) (right : Js.value) : Js.value :=
  Js.VObj 1 (<["left" := left]> (<["operator" := Js.VStr operator]> (<["right" := right]> ∅))).

(** An execution whose [parameters] are [params], as a context. *)
Definition a_context (params : gmap string Js.value) : Js.value :=
  Js.VObj 0 (<["parameters" := Js.VObj 2 params]> ∅).

(** A host without regular expressions: every pattern is rejected. *)
Definition no_RegExp (source : string) : option (string → bool) := None.

(** [m] takes every state to one related to it by [R]. *)
Definition respects {S : Type} (R : relation S) {B : Type} (m : Eff S B) : Prop :=
  ∀ s, R s (m s).2.

(** [m] never throws [undefined]. *)
Definition throws_errors {S B : Type} (m : Eff S B) : Prop :=
  ∀ s, (m s).1 ≠ Throw ThrownUndefined.

(** The service worker only appends to its trace. *)
Definition trace_grows {W} (s s' : ServiceWorker.state W) : Prop :=
  ServiceWorker.trace s `prefix_of` ServiceWorker.trace s'.

(** What [executeStep] leaves alone: it appends to the trace and does not
    touch the local [results] of [executeWorkflow]. *)
Definition inside_step {W} (s s' : ServiceWorker.state W) : Prop :=
  ServiceWorker.trace s `prefix_of` ServiceWorker.trace s'
  ∧ ServiceWorker.results s' = ServiceWorker.results s.

(** A record of [results] that stands for a step that ran. *)
Definition ran (stepId : string) (r : ServiceWorker.StepRecord) : Prop :=
  match r with
  | ServiceWorker.Skipped _ => False
  | ServiceWorker.Result id _ | ServiceWorker.Retried id _ | ServiceWorker.Failed id _ =>
      id = stepId
  end.

(** A workflow of one step, of type alert, whose action carries the
    message of [createFallbackWorkflow]. *)
Definition is_placeholder (workflow : Js.value) : Prop :=
  ∃ a step,
    Js.get workflow "steps" = Normal (Js.VArr a [step])
    ∧ Js.get step "type" = Normal (Js.VStr "alert")
    ∧ (Js.get step "action" ≫= λ action, Js.get action "message")
      = Normal (Js.VStr ServiceWorker.fallback_message).

(** The state in which iteration [i] enters its [try]:
    [execution.currentStep = i] has been done. *)
Definition at_step {W} (i : nat) (s : ServiceWorker.state W) : ServiceWorker.state W :=
  ServiceWorker.set_execution
    (<["currentStep" := Js.VNum (Js.Int (Z.of_nat i))]> (ServiceWorker.execution s)) s.

(** [results.push(r)] has been done. *)
Definition recorded {W} (r : ServiceWorker.StepRecord) (s : ServiceWorker.state W)
    : ServiceWorker.state W :=
  ServiceWorker.set_results (ServiceWorker.results s ++ [r]) s.

(** [await delay(ms)] has been done. *)
Definition waited {W} (sleep : Js.value → W → W) (ms : Js.value)
    (s : ServiceWorker.state W) : ServiceWorker.state W :=
  ServiceWorker.mkState (ServiceWorker.execution s) (ServiceWorker.results s)
    (ServiceWorker.next_addr s) (sleep ms (ServiceWorker.world s))
    (ServiceWorker.trace s ++ [ServiceWorker.EvDelay ms]).

(** The end of an iteration that did not leave through [continue]: the
    wait of [settings.stepDelay], when there is one. *)
Definition after_step {W} (sleep : Js.value → W → W) (workflow : ServiceWorker.Workflow)
    (s : ServiceWorker.state W) : ServiceWorker.state W :=
  if Js.truthy (ServiceWorker.stepDelay workflow)
  then waited sleep (ServiceWorker.stepDelay workflow) s
  else s.

(** [execution.errors.push({ step, error })] has been done, on the array
    [items] at address [a]. *)
Definition error_logged {W} (stepId message : string) (a : nat) (items : list Js.value)
    (s : ServiceWorker.state W) : ServiceWorker.state W :=
  ServiceWorker.mkState
    (<["errors" := Js.VArr a
         (items ++ [Js.VObj (ServiceWorker.next_addr s)
                      (<["step" := Js.VStr stepId]> (<["error" := Js.VStr message]> ∅))])]>
       (ServiceWorker.execution s))
    (ServiceWorker.results s) (S (ServiceWorker.next_addr s))
    (ServiceWorker.world s) (ServiceWorker.trace s).

(** The engine only appends to its trace. *)
Definition engine_grows {W A : Type} (s s' : AIEngine.state W A) : Prop :=
  AIEngine.trace s `prefix_of` AIEngine.trace s'.

(** The trace of [m] run from [s] starts with [l]. *)
Definition reaches {W A B : Type} (l : list AIEngine.event)
    (m : Eff (AIEngine.state W A) B) (s : AIEngine.state W A) : Prop :=
  l `prefix_of` AIEngine.trace (m s).2.

(** What the log of a limiter has to do with the timestamps [admitted]
    so far, the latest clock reading being [T]: from [T] on, the log and
    the admissions agree on what is still inside the window. *)
Definition log_agrees (rl : AIEngine.RateLimiter) (admitted : list Z) (T : Z) : Prop :=
  Forall (λ a, a ≤ T) admitted
  ∧ ∀ t, T ≤ t →
      filter (λ a, t - a < AIEngine.windowMs rl) (AIEngine.requests rl)
      = filter (λ a, t - a < AIEngine.windowMs rl) admitted.

(** Sample data of the engine. *)
Definition sample_requests : gmap string N :=
  <["groq:success" := 1%N]> (<["groq:failure" := 3%N]> (<["openrouter:success" := 2%N]> ∅)).

Definition sample_engine : AIEngine.state unit unit :=
  AIEngine.mkState AIEngine.default_config
    (<["openrouter" := AIEngine.newRateLimiter 200 60000]> ∅)
    (<["openrouter" := "sk-or-key"]> ∅) [] tt [].

Definition failing_call (_ : string) (w : nat) : option (JsError + unit) * nat :=
  (Some (inl (Error_ (match w with
                      | 0%nat => "HTTP 503 (first)"
                      | 1%nat => "HTTP 503 (second)"
                      | _ => "HTTP 503 (third)"
                      end))), S w).

Definition sample_cache_state : AIEngine.state Z string :=
  AIEngine.mkState AIEngine.default_config ∅ ∅ [] 5000 [].

(** The engine as its constructor leaves it, with the given API keys. *)
Definition engine_with_keys (keys : gmap string string) : AIEngine.state nat string :=
  AIEngine.mkState AIEngine.default_config
    (<["groq" := AIEngine.newRateLimiter 100 60000]>
    (<["huggingface" := AIEngine.newRateLimiter 50 60000]>
    (<["openrouter" := AIEngine.newRateLimiter 200 60000]> ∅)))
    keys [] 0%nat [].

(** Providers that answer with their own name, except groq, which never
    settles before the timeout. *)
Definition groq_times_out (provider : string) (w : nat) : option (JsError + string) * nat :=
  (if String.eqb provider "groq" then None else Some (inr ("workflow by " +:+ provider)), S w).

(** A collaborator for transform steps that returns the current loop item. *)
Definition item_runner (step : ServiceWorker.Step) (execution : gmap string Js.value)
    (w : nat) : (JsError + Js.value) * nat :=
  (inr (default Js.VUndefined (execution !! "item")), S w).

(** Every call of [recordGeneration] in the engine has type "workflow". *)
Definition recorded_generations (history : list bool) : gmap string N :=
  foldr (AIEngine.recordGeneration "workflow") ∅ history.

(** The operators [evaluateCondition] knows. *)
Definition known_operators : list string :=
  ["=="; "!="; ">"; "<"; ">="; "<="; "contains"; "matches"].

(** Sample data: a page-automation collaborator that fails on the step
    called "bad", an execution with empty parameters, and steps without
    payload. *)
Definition sample_runner (step : ServiceWorker.Step) (execution : gmap string Js.value)
    (w : nat) : (JsError + Js.value) * nat :=
  (if String.eqb (ServiceWorker.step_id step) "bad"
   then inl (Error_ "element not found")
   else inr (Js.VStr ("done " +:+ ServiceWorker.step_id step)), S w).

Definition sample_sleep (ms : Js.value) (w : nat) : nat := w.

Definition sample_execution : ServiceWorker.state nat :=
  ServiceWorker.mkState
    (<["id" := Js.VStr "exec_1"]>
    (<["parameters" := Js.VObj 2 ∅]>
    (<["startTime" := Js.VNum (Js.Int 0)]>
    (<["results" := Js.VArr 3 []]>
    (<["errors" := Js.VArr 4 []]> ∅)))))
    [] 10 0%nat [].

Definition a_step (id type : string) (conditions : option (list Js.value))
    (errorHandling : option string) : ServiceWorker.Step :=
  ServiceWorker.mkStep id type Js.VUndefined conditions errorHandling None [].

(** A step guarded by a condition on a parameter that is not there. *)
Definition guarded_step : ServiceWorker.Step :=
  a_step "s2" "click"
    (Some [a_condition (Js.VStr "$parameters.limit") "==" (Js.VNum (Js.Int 5))]) None.

Definition sample_clock (w : nat) : Z * nat := (Z.of_nat w, w).

(** A workflow that waits 500 ms between steps. *)
Definition delayed_workflow (steps : list ServiceWorker.Step) : ServiceWorker.Workflow :=
  ServiceWorker.mkWorkflow steps (Js.VNum (Js.Int 500)).

(** ** Vocabulary of the further properties *)

(** The events of [k] successive attempts on provider [p], the first of
    index [i]: a call each, and between two of them the wait of
    [backoff]. *)
Fixpoint attempts (p : string) (i k : nat) : list AIEngine.event :=
  match k with
  | O => []
  | S k' =>
      AIEngine.EvOperation p ::
      match k' with
      | O => []
      | S _ => AIEngine.EvDelay (backoff i) :: attempts p (S i) k'
      end
  end.

(** What an attempt leaves alone: everything but the world and the
    trace. *)
Definition engine_kept {W A : Type} (s s' : AIEngine.state W A) : Prop :=
  AIEngine.config s' = AIEngine.config s
  ∧ AIEngine.rateLimiters s' = AIEngine.rateLimiters s
  ∧ AIEngine.apiKeys s' = AIEngine.apiKeys s
  ∧ AIEngine.cache s' = AIEngine.cache s.

(** No provider was called and no admission was recorded between [s] and
    [s']: the trace is the same, and the log of every limiter has only
    lost entries. *)
Definition nothing_attempted {W A : Type} (s s' : AIEngine.state W A) : Prop :=
  AIEngine.trace s' = AIEngine.trace s
  ∧ AIEngine.apiKeys s' = AIEngine.apiKeys s
  ∧ dom (AIEngine.rateLimiters s') = dom (AIEngine.rateLimiters s)
  ∧ ∀ p rl', AIEngine.rateLimiters s' !! p = Some rl' →
      ∃ rl, AIEngine.rateLimiters s !! p = Some rl
            ∧ AIEngine.requests rl' `sublist_of` AIEngine.requests rl.

(** The step a record of [results] belongs to. *)
Definition record_step (r : ServiceWorker.StepRecord) : string :=
  match r with
  | ServiceWorker.Skipped id | ServiceWorker.Result id _
  | ServiceWorker.Retried id _ | ServiceWorker.Failed id _ => id
  end.

(** The step types [executeStep] has a case for. *)
Definition handled_step_types : list string :=
  ["navigate"; "click"; "input"; "extract"; "wait"; "api"; "transform";
   "condition"; "loop"].

(** Providers that reject every call with an error of their own. *)
Definition provider_error (provider : string) : JsError :=
  Error_ (provider +:+ " API error: 503").

Definition rejecting_call (provider : string) (w : nat)
    : option (JsError + string) * nat :=
  (Some (inl (provider_error provider)), S w).

(** A clock that advances by one millisecond at every reading. *)
Definition ticking_clock (w : nat) : Z * nat := (Z.of_nat w, S w).

(** The engine with a key for every provider. *)
Definition configured_engine : AIEngine.state nat string :=
  engine_with_keys
    (<["groq" := "gsk-key"]> (<["huggingface" := "hf-key"]>
       (<["openrouter" := "sk-or-key"]> ∅))).

(** The same engine once [maxRetries] has been set to 0. *)
Definition engine_without_retries : AIEngine.state nat string :=
  AIEngine.mkState (AIEngine.mkConfig 0 30000 3600000)
    (AIEngine.rateLimiters configured_engine)
    (AIEngine.apiKeys configured_engine) [] 0%nat [].

(** A cache at its bound: a hundred entries under distinct keys, the
    oldest first. *)
Definition full_cache : list (string * AIEngine.CacheEntry string) :=
  map (λ i, ("workflow:" +:+ pretty i, AIEngine.mkEntry "cached workflow" (Z.of_nat i)))
    (seq 0 100).

Definition full_cache_state : AIEngine.state Z string :=
  AIEngine.mkState AIEngine.default_config ∅ ∅ full_cache 5000 [].

(** A limiter of capacity 3 that holds two requests. *)
Definition busy_limiter : AIEngine.RateLimiter := AIEngine.mkLimiter 3 60000 [1000; 2000].

(** A limiter of capacity 2 that is full. *)
Definition full_limiter : AIEngine.RateLimiter := AIEngine.mkLimiter 2 60000 [1000; 2000].

(** The step of the placeholder workflow of [createFallbackWorkflow]. *)
Definition alert_step : ServiceWorker.Step :=
  ServiceWorker.mkStep "step_1" "alert"
    (Js.VObj 5 (<["message" := Js.VStr ServiceWorker.fallback_message]> ∅))
    None None None [].

(** A loop over [items] whose inner steps are [inner]. *)
Definition loop_over (items : list Js.value) (inner : list ServiceWorker.Step)
    : ServiceWorker.Step :=
  ServiceWorker.mkStep "each" "loop"
    (Js.VObj 9 (<["items" := Js.VArr 8 items]> ∅)) None None None inner.

(** An inner step that asks to be skipped on error, under a condition
    that is false. *)
Definition lenient_alert : ServiceWorker.Step :=
  ServiceWorker.mkStep "notify" "alert" Js.VUndefined
    (Some [a_condition (Js.VNum (Js.Int 1)) "==" (Js.VNum (Js.Int 2))])
    (Some "skip") None [].

(** The name a loop binds its items to: [variable = 'item'] of the
    destructuring in [executeLoop], as a property key. *)
Definition loop_variable (action : Js.value) : string :=
  match Js.get action "variable" with
  | Normal Js.VUndefined | Throw _ => "item"
  | Normal variable => Js.toString variable
  end.

(** The names the loops of a step assign to in the execution. *)
Fixpoint loop_variables (step : ServiceWorker.Step) : list string :=
  if String.eqb (ServiceWorker.step_type step) "loop"
  then (loop_variable (ServiceWorker.action step)
        :: flat_map loop_variables (ServiceWorker.inner step))
  else [].

(** A step that leaves [execution.results] to [executeWorkflow]: neither
    its [storeAs] nor a loop variable of it is called "results". *)
Definition keeps_results (step : ServiceWorker.Step) : Prop :=
  ("results" ∉ loop_variables step) ∧ ServiceWorker.storeAs step ≠ Some "results".

(** Neither [execution.results] nor the local [results] has changed. *)
Definition results_kept {W} (s s' : ServiceWorker.state W) : Prop :=
  ServiceWorker.execution s' !! "results" = ServiceWorker.execution s !! "results"
  ∧ ServiceWorker.results s' = ServiceWorker.results s.

(** [execution.results] is an array. *)
Definition results_is_array {W} (s : ServiceWorker.state W) : Prop :=
  ∃ a items, ServiceWorker.execution s !! "results" = Some (Js.VArr a items).

(** The workflow of three steps whose second step is guarded by a
    condition on a missing parameter. *)
Definition guarded_workflow : ServiceWorker.Workflow :=
  ServiceWorker.mkWorkflow
    [a_step "s1" "click" None None; guarded_step; a_step "s3" "click" None None]
    Js.VUndefined.

(** A workflow whose first step stores its result as "results". *)
Definition overwriting_workflow : ServiceWorker.Workflow :=
  ServiceWorker.mkWorkflow
    [ServiceWorker.mkStep "s1" "click" Js.VUndefined None None (Some "results") [];
     a_step "s2" "click" None None]
    Js.VUndefined.

(** The metrics after a history of [recordGeneration(type, latency,
    success)] calls on new metrics. *)
Definition recordings (history : list (string * Z * bool)) : AIMetrics.t :=
  foldl (λ m '(type, latency, success),
           AIMetrics.recordGeneration type latency success m)
    AIMetrics.new history.

(** The latencies of the successes of a history, oldest first. *)
Definition successes (history : list (string * Z * bool)) : list Z :=
  omap (λ '(_, latency, success), if success : bool then Some latency else None) history.

(** The polynomial hash with multiplier 31, before it is wrapped. *)
Definition polynomial_hash (str : string) : Z :=
  fold_left (λ h c, 31 * h + Z.of_N (N_of_ascii c)) (list_ascii_of_string str) 0.

(** The error [generateWorkflow] throws. *)
Definition generation_failed : JsError :=
  mkError "AIEngineError" "Failed to generate workflow".

(** The requests the engine serves. *)
Inductive Request : Type :=
| GenerateWorkflow (prompt optionsStr : string) (preferredProvider : option string)
| ExtractPatterns (text : string)
| OptimizeWorkflow (workflow : Js.value).

(** No counter is kept under the name of a provider. *)
Definition no_provider_history (requests : gmap string N) : Prop :=
  ∀ p, p ∈ AIEngine.provider_names →
    requests !! (p +:+ ":success") = None ∧ requests !! (p +:+ ":failure") = None.

(** The keys [applyOptimizations] may write. *)
Definition optimization_keys : list string :=
  ["parallelGroups"; "cachePoints"; "errorHandling"].

(** An engine that has answered the prompt "scrape Aa" before. *)
Definition cached_engine : Engine.state nat :=
  Engine.mkEngine
    (AIEngine.mkState AIEngine.default_config ∅ ∅
       [(Engine.getCacheKey "workflow" "scrape Aa" "{}",
         AIEngine.mkEntry (Js.VStr "workflow for Aa") 0)]
       0%nat [])
    AIMetrics.new 0.

(** Providers that are never reached in time. *)
Definition silent_provider (prompt optionsStr provider : string) (w : nat)
    : option (JsError + Js.value) * nat := (None, w).

(** Serving a request, whatever comes of it. *)
Definition serve {W : Type} (clock : W → Z * W) (sleep : Z → W → W)
    (provider_generateWorkflow :
       string → string → string → W → option (JsError + Js.value) * W)
    (provider_extractPatterns provider_optimize :
       string → string → W → option (JsError + Js.value) * W)
    (enhancePrompt : string → string → string)
    (buildPatternExtractionPrompt : string → string)
    (buildOptimizationPrompt : Js.value → string)
    (e : Engine.state W) (request : Request) : Engine.state W :=
  match request with
  | GenerateWorkflow prompt optionsStr preferredProvider =>
      (Engine.generateWorkflow clock sleep provider_generateWorkflow enhancePrompt
         prompt optionsStr preferredProvider e).2
  | ExtractPatterns text =>
      (Engine.extractPatterns clock sleep provider_extractPatterns
         buildPatternExtractionPrompt text e).2
  | OptimizeWorkflow workflow =>
      (Engine.optimizeWorkflow clock sleep provider_optimize buildOptimizationPrompt
         workflow e).2
  end.

(** The cache is as it was. *)
Definition cache_kept {W A : Type} (s s' : AIEngine.state W A) : Prop :=
  AIEngine.cache s' = AIEngine.cache s.

(** A workflow as an object, and a provider that suggests caching and an
    error policy for it. *)
Definition plain_workflow : Js.value :=
  Js.VObj 20
    (<["name" := Js.VStr "Price watch"]>
    (<["errorHandling" := Js.VObj 21 (<["mode" := Js.VStr "skip"]> ∅)]> ∅)).

Definition suggesting_provider (prompt provider : string) (w : nat)
    : option (JsError + Js.value) * nat :=
  (Some (inr (Js.VObj 30
     (<["caching" := Js.VStr "after extract"]>
     (<["errorHandling" := Js.VObj 31 (<["mode" := Js.VStr "retry"]> ∅)]> ∅)))), w).

(** The engine with its metrics, a key for every provider. *)
Definition ready_engine : Engine.state nat :=
  Engine.mkEngine
    (AIEngine.mkState AIEngine.default_config
       (AIEngine.rateLimiters configured_engine) (AIEngine.apiKeys configured_engine)
       [] 0%nat [])
    AIMetrics.new 40.

(** A storage that keeps what was set last: the world is the item
    "apiKeys" of [chrome.storage.local]. *)
Definition memory_get (w : option (list (string * string)))
    : (JsError + option (list (string * string))) * option (list (string * string)) :=
  (inr w, w).

Definition memory_set (entries : list (string * string))
    (w : option (list (string * string))) : option (list (string * string)) :=
  Some entries.

(** The lines [parseTextToWorkflow] looks at: the ones that are not
    blank. *)
Definition text_lines (text : string) : list string :=
  filter (λ l, truthy_string (Js.trim l) = true) (Js.split "010" text).

(** A line that [parseTextToWorkflow] takes for a step. *)
Definition names_a_step (line : string) : Prop :=
  Js.includes line "step" || Js.includes line "action" = true.

(** The properties of the execution that a step assigns: the name of
    its [storeAs] and the variables of its loops. *)
Definition assigned_names (step : ServiceWorker.Step) : list string :=
  option_list (ServiceWorker.storeAs step) ++ loop_variables step.

(** The properties [executeWorkflow] itself writes. *)
Definition bookkeeping : list string := ["currentStep"; "results"; "errors"].

(** The execution has the property [key] as before. *)
Definition property_kept {W} (key : string) (s s' : ServiceWorker.state W) : Prop :=
  ServiceWorker.execution s' !! key = ServiceWorker.execution s !! key.

(** Sample collaborators of the service worker: a store that holds the
    workflow "wf_1", a training system that accepts what it is given,
    and a pattern matcher that learns without complaint. *)
Definition stored_workflow : ServiceWorker.Workflow :=
  ServiceWorker.mkWorkflow [a_step "s1" "click" None None] Js.VUndefined.

Definition sample_store (workflowId : Js.value) (w : nat)
    : option (Js.value * ServiceWorker.Workflow) * nat :=
  (if Js.looseEq workflowId (Js.VStr "wf_1")
   then Some (Js.VObj 1 ∅, stored_workflow) else None, w).

Definition sample_learning (record : Service.FeedbackRecord) (w : nat)
    : option JsError * nat := (None, S w).

Definition sample_outcome (workflowId feedback : Js.value) (w : nat)
    : option JsError * nat := (None, S w).

Definition sample_learnPattern (text workflow context : Js.value) (w : nat)
    : option JsError * nat := (None, S w).

Definition sample_service : Service.state nat :=
  Service.mkService {["exec_0"]} [] sample_execution.

(** [m] ends, from every state, by throwing. *)
Definition never_resolves {S B : Type} (m : Eff S B) : Prop :=
  ∀ s, ∃ t, (m s).1 = Throw t.

(** The registry of active executions is as it was, and so is the [id]
    of the execution. *)
Definition registration_kept {W} (s s' : Service.state W) : Prop :=
  Service.activeWorkflows s' = Service.activeWorkflows s
  ∧ property_kept "id" (Service.worker s) (Service.worker s').

Definition sample_generateExecutionId (w : nat) : string * nat :=
  ("exec_" +:+ pretty (Z.of_nat w), w).

Definition sample_memoryUsage (w : nat) : (JsError + Js.value) * nat :=
  (inr (Js.VObj 5 ∅), w).

(** A store whose workflow has one step, which keeps its result as the
    [id] of the execution. *)
Definition renaming_workflow : ServiceWorker.Workflow :=
  ServiceWorker.mkWorkflow
    [ServiceWorker.mkStep "s1" "click" Js.VUndefined None None (Some "id") []]
    Js.VUndefined.

Definition renaming_store (workflowId : Js.value) (w : nat)
    : option (Js.value * ServiceWorker.Workflow) * nat :=
  (Some (Js.VObj 1 ∅, renaming_workflow), w).

(** A matcher that answers with the text it was given, and two requests
    that differ after their fiftieth character. *)
Definition sample_performMatching (text : string) (context : string) (w : nat)
    : (JsError + string) * nat :=
  (inr ("patterns of: " +:+ text), S w).

Definition fifty : string := "open the dashboard and export the weekly report as".

Definition sample_matcher : PatternMatcher.state nat string :=
  PatternMatcher.mkMatcher [] 100 0 0%nat.

(** A rating that is not 2 or less, among those the model compares as
    the code does: a number above 2, [NaN], or no rating at all. *)
Definition above_two (rating : Js.value) : Prop :=
  match rating with
  | Js.VUndefined | Js.VNum Js.NaN => True
  | Js.VNum (Js.Int r) => 2 < r
  | _ => False
  end.

(** The payload of a generation request with the given context, and the
    sender of a message from a tab. *)
Definition a_request (context : Js.value) : Js.value :=
  Js.VObj 5 (<["description" := Js.VStr "export my invoices every Monday"]>
               (<["context" := context]> ∅)).

Definition a_sender : Js.value :=
  Js.VObj 6 (<["tab" := Js.VObj 8 (<["id" := Js.VNum (Js.Int 3)]>
                                    (<["url" := Js.VStr "https://example.org/invoices"]> ∅))]>
               (<["frameId" := Js.VNum (Js.Int 0)]> ∅)).

(** No provider other than [p] was tried between [s] and [s']: the log
    of every other limiter has only lost entries. *)
Definition others_untried {W A : Type} (p : string) (s s' : AIEngine.state W A) : Prop :=
  ∀ q rl', q ≠ p → AIEngine.rateLimiters s' !! q = Some rl' →
    ∃ rl, AIEngine.rateLimiters s !! q = Some rl
          ∧ AIEngine.requests rl' `sublist_of` AIEngine.requests rl.

(** A provider that is tried whenever its turn comes: it has a key, and
    its limiter holds fewer requests than it admits. *)
Definition ready {W A : Type} (p : string) (s : AIEngine.state W A) : Prop :=
  AIEngine.isConfigured p s = true
  ∧ ∃ rl, AIEngine.rateLimiters s !! p = Some rl
          ∧ Z.of_nat (length (AIEngine.requests rl)) < AIEngine.maxRequests rl.

(** The error of reading [error.message] when [undefined] was thrown. *)
Definition message_of_undefined : JsError :=
  TypeError_ "Cannot read properties of undefined (reading 'message')".

(** * Properties *)

(** ** Running a bind *)
Lemma bind_run_normal {S B C} (m : Eff S B) (k : B → Eff S C) s b s1 :
  m s = (Normal b, s1) → (m ≫= k) s = k b s1.
Proof. unfold mbind, eff_bind, bind. by intros ->. Qed.

Lemma bind_run_throw {S B C} (m : Eff S B) (k : B → Eff S C) s t s1 :
  m s = (Throw t, s1) → (m ≫= k) s = (Throw t, s1).
Proof. unfold mbind, eff_bind, bind. by intros ->. Qed.

(** ** Effects that respect a preorder on states *)
Section Respects.
Context {S : Type} (R : relation S) `{!PreOrder R}.

Lemma respects_ret {B} (b : B) : respects R (mret b : Eff S B).
Proof. intros s. simpl. reflexivity. Qed.

Lemma respects_throw {B} t : respects R (throw t : Eff S B).
Proof. intros s. simpl. reflexivity. Qed.

Lemma respects_lift {B} (c : completion B) : respects R (lift c : Eff S B).
Proof. intros s. simpl. reflexivity. Qed.

Lemma respects_get_state : respects R (get_state : Eff S S).
Proof. intros s. simpl. reflexivity. Qed.

Lemma respects_message_of error : respects R (message_of error : Eff S string).
Proof. destruct error; [apply respects_ret | apply respects_throw]. Qed.

Lemma respects_modify (f : S → S) : (∀ s, R s (f s)) → respects R (modify f).
Proof. intros Hf s. apply Hf. Qed.

Lemma respects_bind {B C} (m : Eff S B) (k : B → Eff S C) :
  respects R m → (∀ b, respects R (k b)) → respects R (m ≫= k).
Proof.
  intros Hm Hk s. unfold mbind, eff_bind, bind.
  specialize (Hm s). destruct (m s) as [[b|t] s1]; simpl in *; [|done].
  etrans; [exact Hm|]. apply Hk.
Qed.

Lemma respects_try_catch {B} (m : Eff S B) h :
  respects R m → (∀ t, respects R (h t)) → respects R (try_catch m h).
Proof.
  intros Hm Hh s. unfold try_catch.
  specialize (Hm s). destruct (m s) as [[b|t] s1]; simpl in *; [done|].
  etrans; [exact Hm|]. apply Hh.
Qed.
End Respects.

Section ThrowsErrors.
Context {S : Type}.

Lemma throws_errors_ret {B} (b : B) : throws_errors (mret b : Eff S B).
Proof. intros s. done. Qed.

Lemma throws_errors_throw {B} e : throws_errors (throw (Thrown e) : Eff S B).
Proof. intros s. done. Qed.

Lemma throws_errors_get_state : throws_errors (get_state : Eff S S).
Proof. intros s. done. Qed.

Lemma throws_errors_modify (f : S → S) : throws_errors (modify f).
Proof. intros s. done. Qed.

Lemma throws_errors_message_of error : throws_errors (message_of error : Eff S string).
Proof. destruct error; [apply throws_errors_ret | apply throws_errors_throw]. Qed.

Lemma throws_errors_lift {B} (c : completion B) :
  c ≠ Throw ThrownUndefined → throws_errors (lift c : Eff S B).
Proof. intros Hc s. done. Qed.

Lemma throws_errors_bind {B C} (m : Eff S B) (k : B → Eff S C) :
  throws_errors m → (∀ b, throws_errors (k b)) → throws_errors (m ≫= k).
Proof.
  intros Hm Hk s. unfold mbind, eff_bind, bind.
  specialize (Hm s). destruct (m s) as [[b|t] s1]; simpl in *; [apply Hk|].
  intros [= ->]. by apply Hm.
Qed.

Lemma throws_errors_try_catch {B} (m : Eff S B) h :
  throws_errors m → (∀ e, throws_errors (h (Thrown e))) → throws_errors (try_catch m h).
Proof.
  intros Hm Hh s. unfold try_catch.
  specialize (Hm s). destruct (m s) as [[b|[e|]] s1]; simpl in *; [done| |done].
  apply Hh.
Qed.
End ThrowsErrors.

Create HintDb respects.
#[global] Hint Resolve respects_ret respects_throw respects_lift respects_get_state
  respects_message_of : respects.
Create HintDb throws.
#[global] Hint Resolve throws_errors_ret throws_errors_throw throws_errors_get_state
  throws_errors_modify throws_errors_message_of : throws.

Ltac rbind := apply respects_bind; try solve [apply _].
Ltac rtry := apply respects_try_catch; try solve [apply _].

Ltac respects :=
  repeat first
    [ progress eauto with respects
    | rbind; [|intros ?]
    | rtry; [|intros ?]
    | match goal with
      | |- respects _ (match ?x with _ => _ end) => destruct x
      | |- respects _ (if ?x then _ else _) => destruct x
      | |- respects _ (let '(_, _) := ?x in _) => destruct x
      end ].

Ltac throws :=
  repeat first
    [ progress eauto with throws
    | apply throws_errors_bind; [|intros ?]
    | apply throws_errors_try_catch; [|intros ?]
    | match goal with
      | |- throws_errors (match ?x with _ => _ end) => destruct x
      | |- throws_errors (if ?x then _ else _) => destruct x
      end ].

(** ** Provider order *)
Section ProviderOrder.
Import AIEngine.
Variable requests : gmap string N.

Local Abbreviation rate := (getSuccessRate requests).

Lemma goes_after_lt a b :
  goes_after (by_rate requests) a b = true ↔ (rate a < rate b)%Q.
Proof.
  unfold goes_after, by_rate. rewrite negb_true_iff, <- not_true_iff_false, Qle_bool_iff.
  split; intros H.
  - apply Qnot_le_lt in H. apply (Qplus_lt_l _ _ (rate a)) in H. ring_simplify in H. exact H.
  - apply Qlt_not_le. apply (Qplus_lt_l _ _ (rate a)). ring_simplify. exact H.
Qed.

Lemma goes_after_ge a b :
  goes_after (by_rate requests) a b = false ↔ (rate b <= rate a)%Q.
Proof.
  rewrite <- not_true_iff_false, goes_after_lt. split.
  - apply Qnot_lt_le.
  - intros H H'. exact (Qlt_not_le _ _ H' H).
Qed.

Lemma sort_insert_perm x l : sort_insert (by_rate requests) x l ≡ₚ x :: l.
Proof.
  induction l as [|y l IH]; simpl; [done|].
  destruct (goes_after _ x y); [|done].
  rewrite IH. apply perm_swap.
Qed.

Lemma js_sort_perm l : js_sort (by_rate requests) l ≡ₚ l.
Proof.
  induction l as [|x l IH]; simpl; [done|].
  by rewrite sort_insert_perm, IH.
Qed.

Lemma sort_insert_sorted x l :
  StronglySorted (not_behind requests) l →
  StronglySorted (not_behind requests) (sort_insert (by_rate requests) x l).
Proof.
  induction 1 as [|y l Hl IH Hy]; simpl.
  - repeat constructor.
  - destruct (goes_after _ x y) eqn:E.
    + constructor; [exact IH|].
      rewrite Forall_forall. intros z Hz.
      rewrite sort_insert_perm in Hz. apply elem_of_cons in Hz as [->|Hz].
      * apply goes_after_lt in E. unfold not_behind. by apply Qlt_le_weak.
      * rewrite Forall_forall in Hy. by apply Hy.
    + apply goes_after_ge in E.
      constructor; [by constructor|].
      constructor; [exact E|].
      eapply Forall_impl; [exact Hy|].
      intros z Hz. unfold not_behind in *. by eapply Qle_trans.
Qed.

Lemma js_sort_sorted l : StronglySorted (not_behind requests) (js_sort (by_rate requests) l).
Proof.
  induction l as [|x l IH]; simpl; [constructor|]. by apply sort_insert_sorted.
Qed.

Lemma sort_insert_stable (q : Q) x l :
  of_rate requests q (sort_insert (by_rate requests) x l) = of_rate requests q (x :: l).
Proof.
  unfold of_rate.
  induction l as [|y l IH]; simpl; [done|].
  destruct (goes_after _ x y) eqn:E; [|done].
  rewrite !filter_cons in *.
  destruct (decide (Qeq_bool (rate y) q = true)) as [Hy|Hy].
  - destruct (decide (Qeq_bool (rate x) q = true)) as [Hx|Hx].
    + apply goes_after_lt in E. apply Qeq_bool_iff in Hx, Hy.
      rewrite Hx, Hy in E. by apply Qlt_irrefl in E.
    + by rewrite IH.
  - by rewrite IH.
Qed.

Lemma js_sort_stable (q : Q) l :
  of_rate requests q (js_sort (by_rate requests) l) = of_rate requests q l.
Proof.
  induction l as [|x l IH]; simpl; [done|].
  rewrite sort_insert_stable. unfold of_rate in *. rewrite !filter_cons, IH. done.
Qed.
End ProviderOrder.

(** ** The engine's trace only grows *)
#[global] Instance engine_grows_preorder {W A} : PreOrder (@engine_grows W A).
Proof.
  split; [intros s; unfold engine_grows; reflexivity|].
  intros s1 s2 s3 H1 H2. unfold engine_grows in *. by etrans.
Qed.

#[global] Hint Resolve engine_grows_preorder : respects.

Section EngineTrace.
Import AIEngine.
Context {W A : Type}.
Variable clock : W → Z * W.
Variable sleep : Z → W → W.
Variable call : string → W → option (JsError + A) * W.

Local Abbreviation St := (state W A).

Lemma grows_modify (f : St → St) :
  (∀ s, trace (f s) = trace s) → respects engine_grows (modify f).
Proof. intros Hf s. unfold engine_grows. simpl. by rewrite Hf. Qed.

Lemma grows_emit e : respects engine_grows (emit e : Eff St unit).
Proof. intros s. unfold engine_grows. simpl. by apply prefix_app_r. Qed.

Lemma grows_external {B} (f : W → B * W) : respects engine_grows (external f : Eff St B).
Proof.
  intros s. unfold engine_grows, external. destruct (f (world s)). simpl. reflexivity.
Qed.

#[local] Hint Resolve grows_emit grows_external : respects.
#[local] Hint Extern 1 (respects engine_grows (modify _)) =>
  apply grows_modify; by intros ? : respects.

Lemma grows_delay ms : respects engine_grows (delay sleep ms : Eff St unit).
Proof. unfold delay. respects. Qed.

Lemma grows_invoke p : respects engine_grows (invoke call p).
Proof. unfold invoke. respects. Qed.

Lemma grows_race (operation : Eff St (option A)) :
  respects engine_grows operation → respects engine_grows (race_timeout operation).
Proof. intros H. unfold race_timeout. respects. Qed.

Lemma grows_retry_loop (operation : Eff St (option A)) maxRetries remaining i lastError :
  respects engine_grows operation →
  respects engine_grows (retry_loop sleep operation maxRetries remaining i lastError).
Proof.
  intros H. revert i lastError.
  induction remaining as [|r IH]; intros i lastError; simpl; [respects|].
  rtry; [by apply grows_race|]. intros t.
  rbind; [|intros _; apply IH].
  case_bool_decide; [apply grows_delay | respects].
Qed.

Lemma grows_limiter_of p method :
  respects engine_grows (limiter_of p method : Eff St RateLimiter).
Proof. unfold limiter_of. respects. Qed.

Lemma grows_canMakeRequest p :
  respects engine_grows (limiter_canMakeRequest clock p : Eff St bool).
Proof.
  unfold limiter_canMakeRequest, now. pose proof (grows_limiter_of p). respects.
Qed.

Lemma grows_recordRequest p :
  respects engine_grows (limiter_recordRequest clock p : Eff St unit).
Proof.
  unfold limiter_recordRequest, now. pose proof (grows_limiter_of p). respects.
Qed.

Lemma grows_fallback_loop providers lastError :
  respects engine_grows (fallback_loop clock sleep call providers lastError).
Proof.
  revert lastError.
  induction providers as [|p rest IH]; intros lastError; simpl; [respects|].
  rbind; [apply grows_canMakeRequest|]. intros ok.
  destruct (negb ok); [apply IH|].
  rbind.
  - rtry; [|intros t; respects].
    rbind; [respects|]. intros s.
    destruct (negb _); [respects|].
    rbind; [apply grows_recordRequest|]. intros _.
    rbind; [respects|]. intros s'.
    rbind; [|intros ?; respects].
    apply grows_retry_loop, grows_invoke.
  - intros [result|lastError']; [respects | apply IH].
Qed.

Lemma reaches_grows {B} (m : Eff St B) s :
  respects engine_grows m → reaches (trace s) m s.
Proof. intros H. apply H. Qed.

Lemma reaches_bind_normal {B C} l (m : Eff St B) (k : B → Eff St C) s b s1 :
  m s = (Normal b, s1) → reaches l (k b) s1 → reaches l (m ≫= k) s.
Proof. unfold reaches, mbind, eff_bind, bind. by intros ->. Qed.

Lemma reaches_bind_grows {B C} l (m : Eff St B) (k : B → Eff St C) s :
  reaches l m s → (∀ b, respects engine_grows (k b)) → reaches l (m ≫= k) s.
Proof.
  unfold reaches, mbind, eff_bind, bind. intros Hm Hk.
  destruct (m s) as [[b|t] s1]; simpl in *; [|done].
  etrans; [exact Hm|]. apply Hk.
Qed.

Lemma reaches_try_grows {B} l (m : Eff St B) h s :
  reaches l m s → (∀ t, respects engine_grows (h t)) → reaches l (try_catch m h) s.
Proof.
  unfold reaches, try_catch. intros Hm Hh.
  destruct (m s) as [[b|t] s1]; simpl in *; [done|].
  etrans; [exact Hm|]. apply Hh.
Qed.

Lemma limiter_canMakeRequest_run p (s : St) rl :
  rateLimiters s !! p = Some rl →
  limiter_canMakeRequest clock p s
  = (Normal (canMakeRequest (clock (world s)).1 rl).1,
     set_limiter p (canMakeRequest (clock (world s)).1 rl).2
       (set_world (clock (world s)).2 s)).
Proof.
  intros Hrl. unfold limiter_canMakeRequest, limiter_of, now, external.
  unfold mbind, eff_bind, bind, get_state. rewrite Hrl. simpl.
  by destruct (clock (world s)).
Qed.

Lemma limiter_recordRequest_run p (s : St) rl :
  rateLimiters s !! p = Some rl →
  ∃ s', limiter_recordRequest clock p s = (Normal tt, s')
        ∧ trace s' = trace s ∧ config s' = config s.
Proof.
  intros Hrl. unfold limiter_recordRequest, limiter_of, now, external.
  unfold mbind, eff_bind, bind, get_state. rewrite Hrl. simpl.
  destruct (clock (world s)) as [t w]. simpl.
  destruct (clock w) as [t' w']. simpl. eauto.
Qed.

(** A provider that passes the admission gate and has a key is the one
    the first call goes to. *)
Lemma fallback_loop_first_call p rest lastError (s : St) rl :
  rateLimiters s !! p = Some rl →
  (canMakeRequest (clock (world s)).1 rl).1 = true →
  isConfigured p s = true →
  maxRetries (config s) ≠ 0%nat →
  reaches (trace s ++ [EvOperation p])
    (fallback_loop clock sleep call (p :: rest) lastError) s.
Proof.
  intros Hrl Hok Hkey Hmax.
  cbn [fallback_loop].
  eapply reaches_bind_normal; [by apply limiter_canMakeRequest_run|].
  rewrite Hok. cbn [negb].
  set (s1 := set_limiter _ _ _).
  apply reaches_bind_grows;
    [|intros [result|lastError']; [respects | apply grows_fallback_loop]].
  apply reaches_try_grows; [|intros t; respects].
  eapply reaches_bind_normal; [reflexivity|].
  replace (isConfigured p s1) with true by done. cbn [negb].
  destruct (limiter_recordRequest_run p s1 (canMakeRequest (clock (world s)).1 rl).2)
    as (s2 & Hrun & Htr & Hcfg).
  { subst s1. simpl. apply lookup_insert_eq. }
  eapply reaches_bind_normal; [exact Hrun|].
  eapply reaches_bind_normal; [reflexivity|].
  apply reaches_bind_grows; [|intros ?; respects].
  rewrite Hcfg. replace (config s1) with (config s) by done.
  destruct (maxRetries (config s)) as [|n]; [done|].
  unfold executeWithRetry. cbn [retry_loop].
  apply reaches_try_grows.
  - unfold race_timeout. apply reaches_bind_grows; [|intros ?; respects].
    unfold invoke. eapply reaches_bind_normal; [reflexivity|].
    replace (trace s ++ [EvOperation p])
      with (trace (emit (W:=W) (A:=A) (EvOperation p) s2).2)
      by (simpl; by rewrite Htr).
    apply reaches_grows. respects.
  - intros t. rbind.
    + case_bool_decide; [apply grows_delay | respects].
    + intros _. apply grows_retry_loop, grows_invoke.
Qed.
End EngineTrace.

(** C1.  [getProviderOrder] puts a preferred provider that is one of the
    provider names first, and [executeWithFallback] calls it before any
    other provider when it passes the admission gate and has a key.
    Without such a preference the providers are sorted by descending
    success rate, providers of equal rate keep their declaration order, and
    a provider with no recorded request has rate 1/2. *)
Theorem provider_order (requests : gmap string N) (order : list string) :
  (∀ p, p ≠ "" → p ∈ order →
     AIEngine.getProviderOrder requests order (Some p) = p :: filter (λ q, q ≠ p) order)
  ∧ (∀ (W A : Type) clock sleep call (s : AIEngine.state W A) p rl,
       p ≠ "" → p ∈ order →
       AIEngine.rateLimiters s !! p = Some rl →
       (AIEngine.canMakeRequest (clock (AIEngine.world s)).1 rl).1 = true →
       AIEngine.isConfigured p s = true →
       AIEngine.maxRetries (AIEngine.config s) ≠ 0%nat →
       (AIEngine.trace s ++ [AIEngine.EvOperation p])
         `prefix_of`
         AIEngine.trace
           (AIEngine.executeWithFallback clock sleep call requests order (Some p) s).2)
  ∧ (∀ preferred,
       (∀ p, preferred = Some p → p = "" ∨ p ∉ order) →
       let result := AIEngine.getProviderOrder requests order preferred in
       result ≡ₚ order
       ∧ StronglySorted (AIEngine.not_behind requests) result
       ∧ ∀ q, AIEngine.of_rate requests q result = AIEngine.of_rate requests q order)
  ∧ (∀ p,
       (default 0 (requests !! (p +:+ ":success"))
        + default 0 (requests !! (p +:+ ":failure")) = 0)%N →
       AIEngine.getSuccessRate requests p = 1 # 2).
Proof.
  assert (Hpref : ∀ p, p ≠ "" → p ∈ order →
            AIEngine.getProviderOrder requests order (Some p)
            = p :: filter (λ q, q ≠ p) order).
  { intros p Hp Hin. unfold AIEngine.getProviderOrder, truthy_string.
    rewrite (bool_decide_eq_true_2 _ Hin).
    destruct (String.eqb_spec p ""); [done|]. done. }
  split; [exact Hpref|]. split; [|split].
  - intros W A clock sleep call s p rl Hp Hin Hrl Hok Hkey Hmax.
    unfold AIEngine.executeWithFallback. rewrite (Hpref p Hp Hin).
    by eapply fallback_loop_first_call.
  - intros preferred Hnone result.
    assert (result = AIEngine.js_sort (AIEngine.by_rate requests) order) as ->.
    { subst result. unfold AIEngine.getProviderOrder.
      destruct preferred as [p|]; [|done].
      destruct (Hnone p eq_refl) as [->|Hnin]; [done|].
      rewrite (bool_decide_eq_false_2 _ Hnin), andb_false_r. done. }
    split; [apply js_sort_perm|]. split; [apply js_sort_sorted|].
    intros q. apply js_sort_stable.
  - intros p Hzero. unfold AIEngine.getSuccessRate. by rewrite Hzero.
Qed.

Lemma provider_order_witness :
  AIEngine.getProviderOrder sample_requests AIEngine.provider_names (Some "openrouter")
  = ["openrouter"; "groq"; "huggingface"]
  ∧ [AIEngine.EvOperation "openrouter"]
      `prefix_of`
      AIEngine.trace
        (AIEngine.executeWithFallback (λ w, (0, w)) (λ _ w, w) (λ _ w, (Some (inr tt), w))
           sample_requests AIEngine.provider_names (Some "openrouter") sample_engine).2
  ∧ AIEngine.getProviderOrder sample_requests AIEngine.provider_names None
    = ["openrouter"; "huggingface"; "groq"]
  ∧ AIEngine.getSuccessRate sample_requests "huggingface" = 1 # 2.
Proof.
  destruct (provider_order sample_requests AIEngine.provider_names)
    as (Hfirst & Hcall & Hsort & Hnew).
  assert (Hin : "openrouter" ∈ AIEngine.provider_names)
    by (unfold AIEngine.provider_names; repeat constructor).
  split; [|split; [|split]].
  - rewrite (Hfirst "openrouter"); [reflexivity | discriminate | exact Hin].
  - apply (Hcall unit unit (λ w, (0, w)) (λ _ w, w) (λ _ w, (Some (inr tt), w))
             sample_engine "openrouter" (AIEngine.newRateLimiter 200 60000)).
    + discriminate.
    + exact Hin.
    + reflexivity.
    + reflexivity.
    + reflexivity.
    + discriminate.
  - destruct (Hsort None) as (_ & _ & _); [intros p Hp; discriminate|].
    vm_compute. reflexivity.
  - apply Hnew. reflexivity.
Defined.

(** ** C2: three attempts, two waits *)

Section Attempts.
Import AIEngine.
Context {W A : Type}.
Variable sleep : Z → W → W.
Variable call : string → W → option (JsError + A) * W.

(** One attempt that does not resolve: the call is made and the race
    throws. *)
Lemma attempt_fails p (s : state W A) :
  ¬ resolves (call p (world s)).1 →
  race_timeout (invoke call p) s
  = (Throw (Thrown (failure_of (call p (world s)).1)),
     mkState (config s) (rateLimiters s) (apiKeys s) (cache s)
       (call p (world s)).2 (trace s ++ [EvOperation p])).
Proof.
  intros Hfail.
  unfold race_timeout, invoke, emit, external.
  unfold mbind, eff_bind, bind, modify, mret, eff_ret, ret, throw. simpl.
  destruct (call p (world s)) as [[[e|a]|] w]; simpl in *; try done.
  exfalso. apply Hfail. by eexists.
Qed.

Lemma delay_run ms (s : state W A) :
  delay sleep ms s
  = (Normal tt,
     mkState (config s) (rateLimiters s) (apiKeys s) (cache s)
       (sleep ms (world s)) (trace s ++ [EvDelay ms])).
Proof. reflexivity. Qed.
End Attempts.

(** C2.  With [maxRetries = 3] and a provider call that never resolves,
    [executeWithRetry] calls the operation exactly three times, waits
    1000 * 2^0 after the first failure and 1000 * 2^1 after the second,
    does not wait after the third, and throws the error of the third
    attempt. *)
Theorem retry_three_attempts {W A : Type} (sleep : Z → W → W)
    (call : string → W → option (JsError + A) * W) (p : string)
    (s : AIEngine.state W A) :
  (∀ w, ¬ resolves (call p w).1) →
  let r1 := call p (AIEngine.world s) in
  let r2 := call p (sleep 1000 r1.2) in
  let r3 := call p (sleep 2000 r2.2) in
  AIEngine.executeWithRetry sleep (AIEngine.invoke call p) 3 s
  = (Throw (Thrown (failure_of r3.1)),
     AIEngine.mkState (AIEngine.config s) (AIEngine.rateLimiters s)
       (AIEngine.apiKeys s) (AIEngine.cache s) r3.2
       (AIEngine.trace s
        ++ [AIEngine.EvOperation p; AIEngine.EvDelay 1000;
            AIEngine.EvOperation p; AIEngine.EvDelay 2000;
            AIEngine.EvOperation p])).
Proof.
  intros Hfail r1 r2 r3.
  unfold AIEngine.executeWithRetry. cbn [AIEngine.retry_loop].
  change (backoff 0) with 1000. change (backoff 1) with 2000.
  change (bool_decide (Z.of_nat 0 < Z.of_nat 3 - 1)) with true.
  change (bool_decide (Z.of_nat 1 < Z.of_nat 3 - 1)) with true.
  change (bool_decide (Z.of_nat 2 < Z.of_nat 3 - 1)) with false.
  cbv iota.
  unfold try_catch at 1. rewrite attempt_fails by apply Hfail.
  unfold mbind at 1, eff_bind at 1, bind at 1. rewrite delay_run.
  cbn [AIEngine.world AIEngine.trace AIEngine.config AIEngine.rateLimiters
       AIEngine.apiKeys AIEngine.cache].
  unfold try_catch at 1. rewrite attempt_fails by apply Hfail.
  unfold mbind at 1, eff_bind at 1, bind at 1. rewrite delay_run.
  cbn [AIEngine.world AIEngine.trace AIEngine.config AIEngine.rateLimiters
       AIEngine.apiKeys AIEngine.cache].
  unfold try_catch at 1. rewrite attempt_fails by apply Hfail.
  cbn. subst r1 r2 r3. by rewrite <- !(assoc_L (++)).
Qed.

Lemma retry_three_attempts_witness :
  AIEngine.executeWithRetry (λ _ w, w) (AIEngine.invoke failing_call "groq") 3
    (AIEngine.mkState AIEngine.default_config ∅ ∅ [] 0%nat [])
  = (Throw (Thrown (Error_ "HTTP 503 (third)")),
     AIEngine.mkState AIEngine.default_config ∅ ∅ [] 3%nat
       [AIEngine.EvOperation "groq"; AIEngine.EvDelay 1000;
        AIEngine.EvOperation "groq"; AIEngine.EvDelay 2000;
        AIEngine.EvOperation "groq"]).
Proof.
  apply (retry_three_attempts (λ _ w, w) failing_call "groq"
           (AIEngine.mkState AIEngine.default_config ∅ ∅ [] 0%nat [])).
  intros w [a Ha]. simpl in Ha. discriminate Ha.
Defined.

(** ** C5: the admission gate *)
Section Gate.
Import AIEngine.

Lemma filter_all {X} (P : X → Prop) `{!∀ x, Decision (P x)} (l : list X) :
  Forall P l → filter P l = l.
Proof.
  induction 1 as [|x l Hx _ IH]; [done|].
  rewrite filter_cons, decide_True by done. by rewrite IH.
Qed.

Lemma cleanup_length now rl :
  (length (requests (cleanup now rl)) ≤ length (requests rl))%nat.
Proof. apply length_filter. Qed.

(** The gate never lets the log grow beyond the capacity. *)
Lemma tryAcquire_bounded t1 t2 t3 rl :
  0 ≤ maxRequests rl →
  Z.of_nat (length (requests rl)) ≤ maxRequests rl →
  Z.of_nat (length (requests (tryAcquire t1 t2 t3 rl).2)) ≤ maxRequests rl
  ∧ maxRequests (tryAcquire t1 t2 t3 rl).2 = maxRequests rl
  ∧ windowMs (tryAcquire t1 t2 t3 rl).2 = windowMs rl.
Proof.
  intros Hcap Hlen. unfold tryAcquire, canMakeRequest.
  case_bool_decide as Hok; simpl in *.
  - split; [|done]. rewrite length_app. simpl.
    pose proof (length_filter (λ time, t2 - time < windowMs rl)
                  (filter (λ time, t1 - time < windowMs rl) (requests rl))).
    lia.
  - split; [|done]. pose proof (cleanup_length t1 rl). simpl in *. lia.
Qed.

Lemma run_gate_bounded calls rl :
  0 ≤ maxRequests rl →
  Z.of_nat (length (requests rl)) ≤ maxRequests rl →
  Z.of_nat (length (requests (run_gate calls rl).2)) ≤ maxRequests rl.
Proof.
  revert rl. induction calls as [|[[t1 t2] t3] calls IH]; intros rl Hcap Hlen; [done|].
  cbn [run_gate].
  destruct (tryAcquire_bounded t1 t2 t3 rl Hcap Hlen) as (Hlen' & Hmax & _).
  destruct (tryAcquire t1 t2 t3 rl) as [ok rl'] eqn:E. simpl in *.
  specialize (IH rl'). rewrite Hmax in IH.
  destruct (run_gate calls rl') as [[oks admitted] rl'']. simpl in *.
  apply IH; lia.
Qed.

(** While every reading and every logged timestamp lies in a span
    shorter than the window, nothing expires: the gate admits exactly
    as many passes as there is room for, and refuses all later ones. *)
Lemma run_gate_within lo hi calls rl :
  hi - lo < windowMs rl →
  Forall (λ t, lo ≤ t ≤ hi) (readings calls) →
  Forall (λ a, lo ≤ a) (requests rl) →
  let room := Z.to_nat (maxRequests rl - Z.of_nat (length (requests rl))) in
  (run_gate calls rl).1.1
  = replicate (room `min` length calls) true ++ replicate (length calls - room) false.
Proof.
  revert rl. induction calls as [|[[t1 t2] t3] calls IH]; intros rl Hspan Hcalls Hreq room.
  { simpl. by rewrite Nat.min_0_r. }
  cbn [readings flat_map] in Hcalls. simpl in Hcalls.
  apply Forall_cons in Hcalls as [H1 Hcalls].
  apply Forall_cons in Hcalls as [H2 Hcalls].
  apply Forall_cons in Hcalls as [H3 Hcalls].
  assert (Hkeep : ∀ t, lo ≤ t ≤ hi →
            filter (λ time, t - time < windowMs rl) (requests rl) = requests rl).
  { intros t Ht. apply filter_all. eapply Forall_impl; [exact Hreq|]. simpl. lia. }
  cbn [run_gate]. unfold tryAcquire, canMakeRequest, recordRequest, cleanup.
  cbn [requests maxRequests windowMs].
  rewrite (Hkeep t1 H1).
  case_bool_decide as Hok.
  - cbn [requests maxRequests windowMs]. rewrite (Hkeep t2 H2).
    set (rl' := mkLimiter _ _ _).
    specialize (IH rl'). cbn zeta in IH.
    destruct (run_gate calls rl') as [[oks admitted] rl''] eqn:E. cbn [fst snd] in *.
    rewrite IH; subst rl'; cbn [requests maxRequests windowMs]; try done.
    + rewrite length_app. simpl.
      replace room with (S (Z.to_nat (maxRequests rl
                                      - Z.of_nat (length (requests rl) + 1)))) by (subst room; lia).
      simpl. done.
    + apply Forall_app. split; [done|]. apply Forall_singleton. lia.
  - set (rl' := mkLimiter _ _ _).
    specialize (IH rl'). cbn zeta in IH.
    destruct (run_gate calls rl') as [[oks admitted] rl''] eqn:E. cbn [fst snd] in *.
    rewrite IH; subst rl'; cbn [requests maxRequests windowMs]; try done.
    replace room with 0%nat by (subst room; lia).
    replace (Z.to_nat _) with 0%nat by lia. simpl. by rewrite Nat.sub_0_r.
Qed.

Lemma filter_filter_impl {X} (P Q : X → Prop)
    `{!∀ x, Decision (P x)} `{!∀ x, Decision (Q x)} (l : list X) :
  (∀ x, P x → Q x) → filter P (filter Q l) = filter P l.
Proof.
  intros HPQ. induction l as [|x l IH]; [done|].
  rewrite !filter_cons.
  destruct (decide (Q x)) as [HQ|HQ].
  - rewrite filter_cons. destruct (decide (P x)); by rewrite IH.
  - rewrite IH. destruct (decide (P x)) as [HP|HP]; [|done]. by destruct HQ; auto.
Qed.

Lemma filter_agree {X} (P Q : X → Prop)
    `{!∀ x, Decision (P x)} `{!∀ x, Decision (Q x)} (l : list X) :
  Forall (λ x, P x ↔ Q x) l → filter P l = filter Q l.
Proof.
  induction 1 as [|x l Hx _ IH]; [done|].
  rewrite !filter_cons, IH.
  destruct (decide (P x)), (decide (Q x)); tauto.
Qed.

Lemma length_filter_impl {X} (P Q : X → Prop)
    `{!∀ x, Decision (P x)} `{!∀ x, Decision (Q x)} (l : list X) :
  (∀ x, P x → Q x) → (length (filter P l) ≤ length (filter Q l))%nat.
Proof.
  intros HPQ. rewrite <- (filter_filter_impl P Q l HPQ). apply length_filter.
Qed.

Lemma run_gate_sliding calls : ∀ rl before T,
  log_agrees rl before T →
  StronglySorted Z.le (T :: readings calls) →
  (∀ t, Z.of_nat (length (in_window (windowMs rl) t before)) ≤ maxRequests rl) →
  ∀ t, Z.of_nat (length (in_window (windowMs rl) t
                           (before ++ (run_gate calls rl).1.2))) ≤ maxRequests rl.
Proof.
  induction calls as [|[[t1 t2] t3] calls IH]; intros rl before T [Hle Hlog] Hsorted Hwin t.
  { simpl. rewrite app_nil_r. apply Hwin. }
  cbn [readings flat_map] in Hsorted. simpl in Hsorted.
  apply StronglySorted_inv in Hsorted as [Hsorted HT].
  apply Forall_cons in HT as [HT1 HT].
  apply StronglySorted_inv in Hsorted as [Hsorted H1].
  apply Forall_cons in H1 as [H12 H1].
  apply StronglySorted_inv in Hsorted as [Hsorted H2].
  apply Forall_cons in H2 as [H23 H2].
  cbn [run_gate]. unfold tryAcquire, canMakeRequest, recordRequest, cleanup.
  cbn [requests maxRequests windowMs].
  case_bool_decide as Hok.
  - cbn [requests maxRequests windowMs].
    set (rl' := mkLimiter _ _ _).
    specialize (IH rl' (before ++ [t3]) t3).
    destruct (run_gate calls rl') as [[oks admitted] rl''] eqn:E. cbn [fst snd] in *.
    rewrite (assoc_L (++)). apply IH; clear IH; subst rl'; cbn [requests maxRequests windowMs].
    + split.
      * apply Forall_app. split; [|by apply Forall_singleton].
        eapply Forall_impl; [exact Hle|]. simpl. lia.
      * intros t' Ht'. cbn [requests maxRequests windowMs]. rewrite !filter_app. f_equal.
        rewrite !filter_filter_impl by (intros; lia).
        apply Hlog. lia.
    + exact Hsorted.
    + intros t'. unfold in_window. rewrite filter_app, length_app.
      rewrite filter_cons, filter_nil.
      destruct (decide (t3 ≤ t' ∧ t' - t3 < windowMs rl)) as [[Hin1 Hin2]|Hout].
      * simpl.
        assert (filter (λ a, a ≤ t' ∧ t' - a < windowMs rl) before
                = filter (λ a, t' - a < windowMs rl) before) as ->.
        { apply filter_agree.
          eapply Forall_impl; [exact Hle|]. simpl. lia. }
        rewrite <- Hlog by lia.
        pose proof (length_filter_impl (λ a, t' - a < windowMs rl)
                      (λ a, t1 - a < windowMs rl) (requests rl)) as Hl.
        specialize (Hl ltac:(simpl; intros; lia)). lia.
      * simpl. specialize (Hwin t'). unfold in_window in Hwin. lia.
  - set (rl' := mkLimiter _ _ _).
    specialize (IH rl' before t1).
    destruct (run_gate calls rl') as [[oks admitted] rl''] eqn:E. cbn [fst snd] in *.
    simpl. apply IH; clear IH; subst rl'; cbn [requests maxRequests windowMs].
    + split.
      * eapply Forall_impl; [exact Hle|]. simpl. lia.
      * intros t' Ht'. cbn [requests maxRequests windowMs].
        rewrite filter_filter_impl by (intros; lia). apply Hlog. lia.
    + apply StronglySorted_inv in Hsorted as [Hs _].
      apply Forall_cons in H1 as [_ H1].
      by apply SSorted_cons.
    + exact Hwin.
Qed.
End Gate.

(** C5.  A limiter of capacity [C] and window [W], driven through the gate
    of [executeWithFallback] from its creation.  While the clock readings
    stay within a span shorter than [W], the first [C] passes are admitted
    and every later one is refused, the (C+1)th in particular; whatever the
    readings, a pass that finds [C] logged admissions inside the window is
    refused and the log never holds more than [C] entries; and when the
    clock does not run backwards, no window of length [W] contains more
    than [C] of the timestamps ever admitted. *)
Theorem admission_within_capacity (C : nat) (W : Z) (calls : list (Z * Z * Z)) :
  let fresh := AIEngine.newRateLimiter (Z.of_nat C) W in
  let run := AIEngine.run_gate calls fresh in
  (∀ lo hi, hi - lo < W → Forall (λ t, lo ≤ t ≤ hi) (AIEngine.readings calls) →
     run.1.1 = replicate (C `min` length calls) true ++ replicate (length calls - C) false)
  ∧ (∀ rl now t2 t3,
       AIEngine.maxRequests rl
       ≤ Z.of_nat (length (filter (λ time, now - time < AIEngine.windowMs rl)
                             (AIEngine.requests rl))) →
       AIEngine.tryAcquire now t2 t3 rl = (false, AIEngine.cleanup now rl))
  ∧ (length (AIEngine.requests run.2) ≤ C)%nat
  ∧ (StronglySorted Z.le (AIEngine.readings calls) →
     ∀ t, (length (AIEngine.in_window W t run.1.2) ≤ C)%nat).
Proof.
  intros fresh run. split; [|split; [|split]].
  - intros lo hi Hspan Hcalls.
    pose proof (run_gate_within lo hi calls fresh Hspan Hcalls) as H.
    simpl in H. rewrite Z.sub_0_r, Nat2Z.id in H. apply H. constructor.
  - intros rl now t2 t3 Hfull. unfold AIEngine.tryAcquire, AIEngine.canMakeRequest.
    simpl. rewrite bool_decide_eq_false_2; [done|lia].
  - pose proof (run_gate_bounded calls fresh) as H. simpl in H.
    fold fresh in H. fold run in H. lia.
  - intros Hsorted t.
    destruct calls as [|[[t1 t2] t3] calls']; [simpl; lia|].
    pose proof (run_gate_sliding ((t1, t2, t3) :: calls') fresh [] t1) as H.
    simpl in H. fold fresh in H.
    assert (Z.of_nat (length (AIEngine.in_window W t run.1.2)) ≤ Z.of_nat C); [|lia].
    apply H.
    + split; [constructor|done].
    + apply SSorted_cons; [exact Hsorted|].
      apply StronglySorted_inv in Hsorted as [_ Hall].
      constructor; [lia|exact Hall].
    + intros t'. unfold AIEngine.in_window. simpl. lia.
Qed.

(** Capacity 2, window 1000: two passes at 10 and 20 are admitted, the
    third at 30 is refused, and a pass at 1015, when the first admission
    has left the window, is admitted again. *)
Lemma admission_within_capacity_witness :
  (AIEngine.run_gate [(10, 10, 10); (20, 20, 21); (30, 30, 30)]
     (AIEngine.newRateLimiter 2 1000)).1.1 = [true; true; false]
  ∧ Nat.le
      (length (AIEngine.in_window 1000 1015
         (AIEngine.run_gate [(10, 10, 10); (20, 20, 21); (30, 30, 30); (1015, 1015, 1015)]
            (AIEngine.newRateLimiter 2 1000)).1.2)) 2.
Proof.
  split.
  - destruct (admission_within_capacity 2 1000 [(10, 10, 10); (20, 20, 21); (30, 30, 30)])
      as (H & _).
    apply (H 10 30); [lia|]. simpl. repeat constructor; lia.
  - destruct (admission_within_capacity 2 1000
                [(10, 10, 10); (20, 20, 21); (30, 30, 30); (1015, 1015, 1015)])
      as (_ & _ & _ & H).
    apply H. simpl. repeat (constructor; [|repeat constructor; lia]). constructor.
Defined.

(** ** C6: the response cache *)
Section Cache.
Import AIEngine.
Context {V : Type}.
Implicit Types (m : list (string * V)) (key k : string).

Lemma map_get_set key (v : V) m : map_get key (map_set key v m) = Some v.
Proof.
  induction m as [|[k v'] m IH]; simpl.
  - by rewrite String.eqb_refl.
  - destruct (String.eqb k key) eqn:E; simpl; rewrite E; done.
Qed.

Lemma map_get_delete_ne key k m : k ≠ key → map_get key (map_delete k m) = map_get key m.
Proof.
  intros Hne. unfold map_delete.
  induction m as [|[k' v] m IH]; [done|].
  rewrite filter_cons. simpl.
  destruct (decide (k' ≠ k)) as [Hk|Hk]; simpl.
  - by rewrite IH.
  - apply dec_stable in Hk. subst k'.
    destruct (String.eqb_spec k key); [done|]. exact IH.
Qed.

Lemma map_get_delete key m : map_get key (map_delete key m) = None.
Proof.
  unfold map_delete.
  induction m as [|[k v] m IH]; [done|].
  rewrite filter_cons. simpl.
  destruct (decide (k ≠ key)) as [Hk|Hk]; [|done]. simpl.
  destruct (String.eqb_spec k key); [done|]. exact IH.
Qed.

Lemma map_set_length key (v : V) m :
  (length (map_set key v m) ≤ S (length m))%nat.
Proof.
  induction m as [|[k v'] m IH]; simpl; [lia|].
  destruct (String.eqb k key); simpl; lia.
Qed.

(** [set] and the eviction that may follow it keep the entry just
    written, provided the map was within its bound. *)
Lemma map_get_set_evict key (v : V) m :
  (length m ≤ 100)%nat →
  let m' := map_set key v m in
  map_get key (if bool_decide (100 < Z.of_nat (length m'))
               then match map_first_key m' with
                    | Some firstKey => map_delete firstKey m'
                    | None => m'
                    end
               else m') = Some v.
Proof.
  intros Hlen m'. case_bool_decide as Hfull; [|apply map_get_set].
  destruct m as [|[k0 v0] m0]; [simpl in Hfull; lia|].
  subst m'. simpl in *.
  destruct (String.eqb_spec k0 key) as [->|Hne]; simpl in *; [lia|].
  rewrite map_get_delete_ne by done. simpl.
  destruct (String.eqb_spec k0 key); [done|]. apply map_get_set.
Qed.

Lemma map_delete_first_length k (v : V) m :
  (length (map_delete k ((k, v) :: m)) ≤ length m)%nat.
Proof.
  unfold map_delete. rewrite filter_cons. simpl.
  destruct (decide (k ≠ k)); [done|]. apply length_filter.
Qed.
End Cache.

Section CacheRoundTrip.
Import AIEngine.
Context {W A : Type}.
Variable clock : W → Z * W.

Lemma setCache_run key (v : A) (s : state W A) :
  let t := (clock (world s)).1 in
  let m' := map_set key (mkEntry v t) (cache s) in
  setCache clock key v s
  = (Normal tt,
     set_cache (if bool_decide (100 < Z.of_nat (length m'))
                then match map_first_key m' with
                     | Some firstKey => map_delete firstKey m'
                     | None => m'
                     end
                else m')
       (set_world (clock (world s)).2 s)).
Proof.
  unfold setCache, now, external.
  unfold mbind, eff_bind, bind, modify, get_state, mret, eff_ret, ret. simpl.
  destruct (clock (world s)) as [t w]. simpl.
  case_bool_decide; [|done].
  destruct (map_first_key _); done.
Qed.

Lemma getFromCache_fresh key (s : state W A) entry :
  map_get key (cache s) = Some entry →
  (clock (world s)).1 - timestamp entry < cacheExpiry (config s) →
  getFromCache clock key s = (Normal (Some (data entry)), set_world (clock (world s)).2 s).
Proof.
  intros Hget Hfresh. unfold getFromCache, now, external.
  unfold mbind, eff_bind, bind, modify, get_state, mret, eff_ret, ret. simpl.
  rewrite Hget. destruct (clock (world s)) as [t w]. simpl in *.
  by rewrite bool_decide_eq_true_2.
Qed.

Lemma getFromCache_expired key (s : state W A) entry :
  map_get key (cache s) = Some entry →
  cacheExpiry (config s) ≤ (clock (world s)).1 - timestamp entry →
  getFromCache clock key s
  = (Normal None, set_cache (map_delete key (cache s)) (set_world (clock (world s)).2 s)).
Proof.
  intros Hget Hold. unfold getFromCache, now, external.
  unfold mbind, eff_bind, bind, modify, get_state, mret, eff_ret, ret. simpl.
  rewrite Hget. destruct (clock (world s)) as [t w]. simpl in *.
  rewrite bool_decide_eq_false_2 by lia. done.
Qed.
End CacheRoundTrip.

(** C6.  [setCache(k, v)] on a cache within its bound of 100 entries
    leaves [v] under [k], stamped with the time of the call, and keeps the
    bound.  With a positive [cacheExpiry] a [getFromCache(k)] that reads
    the same time returns [v]; so does any later one that reads a time
    less than [cacheExpiry] after the stamp.  Once [cacheExpiry] has
    elapsed, [getFromCache(k)] returns [null] and has deleted the entry. *)
Theorem cache_round_trip {W A : Type} (clock : W → Z * W)
    (s : AIEngine.state W A) (k : string) (v : A) :
  (length (AIEngine.cache s) ≤ 100)%nat →
  let put := (AIEngine.setCache clock k v s).2 in
  let stamp := (clock (AIEngine.world s)).1 in
  AIEngine.map_get k (AIEngine.cache put) = Some (AIEngine.mkEntry v stamp)
  ∧ (length (AIEngine.cache put) ≤ 100)%nat
  ∧ (0 < AIEngine.cacheExpiry (AIEngine.config s) →
     (clock (AIEngine.world put)).1 = stamp →
     (AIEngine.getFromCache clock k put).1 = Normal (Some v))
  ∧ (∀ later : AIEngine.state W A,
       AIEngine.map_get k (AIEngine.cache later) = Some (AIEngine.mkEntry v stamp) →
       let t := (clock (AIEngine.world later)).1 in
       (t - stamp < AIEngine.cacheExpiry (AIEngine.config later) →
        AIEngine.getFromCache clock k later
        = (Normal (Some v), AIEngine.set_world (clock (AIEngine.world later)).2 later))
       ∧ (AIEngine.cacheExpiry (AIEngine.config later) ≤ t - stamp →
          (AIEngine.getFromCache clock k later).1 = Normal None
          ∧ AIEngine.map_get k (AIEngine.cache (AIEngine.getFromCache clock k later).2)
            = None)).
Proof.
  intros Hbound put stamp.
  assert (Hput : AIEngine.map_get k (AIEngine.cache put) = Some (AIEngine.mkEntry v stamp)).
  { subst put. rewrite setCache_run. simpl. by apply map_get_set_evict. }
  split; [exact Hput|]. split; [|split].
  - subst put. rewrite setCache_run. simpl.
    pose proof (map_set_length k (AIEngine.mkEntry v stamp) (AIEngine.cache s)) as Hlen.
    fold stamp. case_bool_decide as Hfull; [|lia].
    destruct (AIEngine.map_set k _ (AIEngine.cache s)) as [|[k0 v0] m0] eqn:E; simpl in *.
    + lia.
    + pose proof (map_delete_first_length k0 v0 m0). lia.
  - intros Httl Hsame.
    rewrite (getFromCache_fresh clock k put _ Hput); [done|].
    simpl. rewrite Hsame.
    replace (AIEngine.config put) with (AIEngine.config s); [lia|].
    subst put. by rewrite setCache_run.
  - intros later Hlater t. split.
    + intros Hfresh. by rewrite (getFromCache_fresh clock k later _ Hlater).
    + intros Hold. rewrite (getFromCache_expired clock k later _ Hlater) by done.
      simpl. split; [done|]. apply map_get_delete.
Qed.

(** The world is the clock: every reading advances it by the given step. *)
Lemma cache_round_trip_witness :
  (AIEngine.getFromCache (λ w, (w, w)) "workflow:abc"
     (AIEngine.setCache (λ w, (w, w)) "workflow:abc" "wf" sample_cache_state).2).1
  = Normal (Some "wf")
  ∧ (AIEngine.getFromCache (λ w, (w + 3600000, w + 3600000)) "workflow:abc"
       (AIEngine.setCache (λ w, (w + 3600000, w + 3600000)) "workflow:abc" "wf"
          sample_cache_state).2).1
    = Normal None.
Proof.
  split.
  - destruct (cache_round_trip (λ w, (w, w)) sample_cache_state "workflow:abc" "wf")
      as (_ & _ & H & _); [simpl; lia|].
    apply H; [simpl; lia|reflexivity].
  - destruct (cache_round_trip (λ w, (w + 3600000, w + 3600000)) sample_cache_state
                "workflow:abc" "wf") as (Hput & _ & _ & H); [simpl; lia|].
    apply (H _ Hput). simpl. lia.
Defined.

(** ** Conditions *)
Section ConditionFacts.
Import Js ServiceWorker.
Variable RegExp : string → option (string → bool).

(** Comparisons with [undefined]. *)
Lemma lessThan_undefined_l v : lessThan VUndefined v = None.
Proof. unfold lessThan. simpl. by destruct (toPrimitive v). Qed.

Lemma lessThan_undefined_r v : lessThan v VUndefined = None.
Proof.
  unfold lessThan.
  destruct v as [| |[]|[]|s|a items|a props]; simpl; try done;
    by destruct (string_to_number _).
Qed.

Lemma looseEq_undefined_l v : looseEq VUndefined v = true ↔ nullish v.
Proof.
  unfold nullish.
  destruct v; simpl; split; intros H;
    first [done | by left | by right | by destruct H].
Qed.

Lemma looseEq_undefined_r v : looseEq v VUndefined = true ↔ nullish v.
Proof.
  unfold nullish.
  destruct v; simpl; split; intros H;
    first [done | by left | by right | by destruct H].
Qed.

(** The loop of [resolveValue] continues below a value that is there. *)
Lemma walk_app pre post context v :
  walk pre context = Normal v → v ≠ VUndefined ∨ pre = [] →
  walk (pre ++ post) context = walk post v.
Proof.
  revert context. induction pre as [|k pre IH]; intros context Hpre Hv; simpl in *.
  - by inversion Hpre.
  - destruct (get context k) as [r|t]; simpl in *; [|done].
    destruct Hv as [Hv|?]; [|done].
    destruct r; try (apply IH; [done|by left]).
    inversion Hpre. congruence.
Qed.

Lemma walk_missing pre k post context a props :
  walk pre context = Normal (VObj a props) → props !! k = None →
  walk (pre ++ k :: post) context = Normal VUndefined.
Proof.
  intros Hpre Hk. rewrite (walk_app pre _ context (VObj a props)) by (done || by left).
  simpl. by rewrite Hk.
Qed.
End ConditionFacts.

Section ConditionEvaluation.
Import Js ServiceWorker.
Variable RegExp : string → option (string → bool).

Lemma walk_found pre k context a props v :
  walk pre context = Normal (VObj a props) → props !! k = Some v →
  walk (pre ++ [k]) context = Normal v.
Proof.
  intros Hpre Hk. rewrite (walk_app pre _ context (VObj a props)) by (done || by left).
  simpl. rewrite Hk. simpl. by destruct v.
Qed.

(** The [switch] of [evaluateCondition], once the condition has been
    taken apart and both operands resolved. *)
Lemma condition_body_resolved condition context l o r lv rv :
  get condition "left" = Normal l →
  get condition "operator" = Normal o →
  get condition "right" = Normal r →
  resolveValue l context = Normal lv →
  resolveValue r context = Normal rv →
  condition_body RegExp condition context
  = match o with
    | VStr op =>
        if String.eqb op "==" then Normal (looseEq lv rv)
        else if String.eqb op "!=" then Normal (negb (looseEq lv rv))
        else if String.eqb op ">" then Normal (gt lv rv)
        else if String.eqb op "<" then Normal (lt lv rv)
        else if String.eqb op ">=" then Normal (ge lv rv)
        else if String.eqb op "<=" then Normal (le lv rv)
        else if String.eqb op "contains" then Normal (includes (toString lv) (toString rv))
        else if String.eqb op "matches"
        then match RegExp (match rv with
                           | VUndefined => ""
                           | _ => toString rv
                           end) with
             | Some test => Normal (test (toString lv))
             | None => Throw (Thrown (mkError "SyntaxError" "Invalid regular expression"))
             end
        else Normal true
    | _ => Normal true
    end.
Proof.
  intros Hl Ho Hr Hlv Hrv. unfold condition_body.
  rewrite Hl, Ho, Hr. simpl. rewrite Hlv, Hrv. done.
Qed.

Lemma ordering_undefined lv rv :
  lv = VUndefined ∨ rv = VUndefined →
  gt lv rv = false ∧ lt lv rv = false ∧ ge lv rv = false ∧ le lv rv = false.
Proof.
  unfold gt, lt, ge, le.
  intros [->| ->]; rewrite ?lessThan_undefined_l, ?lessThan_undefined_r; done.
Qed.
End ConditionEvaluation.

(** C8, as the code has it.  [evaluateCondition] returns the boolean of
    its [switch], and [false] when anything inside throws.  An operand
    that is a string starting with [$] is looked up in the context along
    the dot-separated path that follows, one property after the other;
    every other operand is taken as it is.  A path that leaves an object
    through a property that it does not have, and that objects do not
    inherit either, resolves to [undefined].  An
    [undefined] operand makes [>], [<], [>=] and [<=] false whatever the
    other operand is; it makes [==] true exactly when the other operand is
    [null] or [undefined], and [!=] false exactly then. *)
Theorem condition_evaluation (RegExp : string → option (string → bool))
    (condition context : Js.value) :
  (∀ t, ServiceWorker.condition_body RegExp condition context = Throw t →
        ServiceWorker.evaluateCondition RegExp condition context = false)
  ∧ (∀ b, ServiceWorker.condition_body RegExp condition context = Normal b →
          ServiceWorker.evaluateCondition RegExp condition context = b)
  ∧ (∀ rest, ServiceWorker.resolveValue (Js.VStr (String "$" rest)) context
             = ServiceWorker.walk (Js.split "." rest) context)
  ∧ (∀ pre k a props v,
       ServiceWorker.walk pre context = Normal (Js.VObj a props) → props !! k = Some v →
       ServiceWorker.walk (pre ++ [k]) context = Normal v)
  ∧ (∀ v, (∀ rest, v ≠ Js.VStr (String "$" rest)) →
          ServiceWorker.resolveValue v context = Normal v)
  ∧ (∀ pre k post a props,
       ServiceWorker.walk pre context = Normal (Js.VObj a props) → props !! k = None →
       k ∉ Js.Object_prototype →
       ServiceWorker.walk (pre ++ k :: post) context = Normal Js.VUndefined)
  ∧ (∀ l op r lv rv,
       Js.get condition "left" = Normal l →
       Js.get condition "operator" = Normal (Js.VStr op) →
       Js.get condition "right" = Normal r →
       ServiceWorker.resolveValue l context = Normal lv →
       ServiceWorker.resolveValue r context = Normal rv →
       lv = Js.VUndefined ∨ rv = Js.VUndefined →
       (op ∈ [">"; "<"; ">="; "<="] →
        ServiceWorker.evaluateCondition RegExp condition context = false)
       ∧ (op = "==" →
          (ServiceWorker.evaluateCondition RegExp condition context = true
           ↔ nullish lv ∧ nullish rv))
       ∧ (op = "!=" →
          (ServiceWorker.evaluateCondition RegExp condition context = false
           ↔ nullish lv ∧ nullish rv))).
Proof.
  assert (Heq : ∀ lv rv, lv = Js.VUndefined ∨ rv = Js.VUndefined →
            Js.looseEq lv rv = true ↔ nullish lv ∧ nullish rv).
  { intros lv rv [->| ->].
    - rewrite looseEq_undefined_l. split; [intros H; split; [by right|done]|by intros [_ H]].
    - rewrite looseEq_undefined_r. split; [intros H; split; [done|by right]|by intros [H _]]. }
  split; [|split; [|split; [|split; [|split; [|split]]]]].
  - intros t Ht. unfold ServiceWorker.evaluateCondition. by rewrite Ht.
  - intros b Hb. unfold ServiceWorker.evaluateCondition. by rewrite Hb.
  - done.
  - intros pre k a props v. apply walk_found.
  - intros v Hv. destruct v as [| | | |s| |]; try done.
    destruct s as [|c rest]; [done|]. simpl.
    destruct (Ascii.eqb_spec c "$") as [->|Hc]; [|done].
    by destruct (Hv rest).
  - intros pre k post a props Hpre Hk _.
    by apply (walk_missing pre k post context a props).
  - intros l op r lv rv Hl Ho Hr Hlv Hrv Hundef.
    unfold ServiceWorker.evaluateCondition.
    rewrite (condition_body_resolved RegExp condition context l (Js.VStr op) r lv rv) by done.
    split; [|split].
    + intros Hop.
      destruct (ordering_undefined lv rv) as (Hgt & Hlt & Hge & Hle); [done|].
      repeat (apply elem_of_cons in Hop as [->|Hop]; [simpl; congruence|]).
      by apply elem_of_nil in Hop.
    + intros ->. simpl. by apply Heq.
    + intros ->. simpl. rewrite negb_false_iff. by apply Heq.
Qed.

Lemma condition_evaluation_witness :
  ServiceWorker.resolveValue (Js.VStr "$parameters.limit") (a_context ∅)
  = Normal Js.VUndefined
  ∧ ServiceWorker.evaluateCondition no_RegExp
      (a_condition (Js.VStr "$parameters.limit") "<" (Js.VNum (Js.Int 10))) (a_context ∅)
    = false.
Proof.
  destruct (condition_evaluation no_RegExp
              (a_condition (Js.VStr "$parameters.limit") "<" (Js.VNum (Js.Int 10)))
              (a_context ∅)) as (_ & _ & Hpath & _ & _ & Hmissing & Hundef).
  assert (Hres : ServiceWorker.resolveValue (Js.VStr "$parameters.limit") (a_context ∅)
                 = Normal Js.VUndefined).
  { rewrite Hpath.
    apply (Hmissing ["parameters"] "limit" [] 2%nat ∅); [reflexivity|reflexivity|].
    unfold Js.Object_prototype. compute_done. }
  split; [exact Hres|].
  destruct (Hundef (Js.VStr "$parameters.limit") "<" (Js.VNum (Js.Int 10))
              Js.VUndefined (Js.VNum (Js.Int 10))) as (Hord & _).
  - reflexivity.
  - reflexivity.
  - reflexivity.
  - exact Hres.
  - reflexivity.
  - by left.
  - apply Hord. repeat constructor.
Defined.

(** C8 as the specification words it fails: the missing path resolves to
    [undefined], and [!=] against the number 10 is true. *)
Lemma undefined_operand_compares_true :
  ServiceWorker.resolveValue (Js.VStr "$parameters.limit") (a_context ∅)
  = Normal Js.VUndefined
  ∧ ServiceWorker.evaluateCondition no_RegExp
      (a_condition (Js.VStr "$parameters.limit") "!=" (Js.VNum (Js.Int 10))) (a_context ∅)
    = true.
Proof. split; reflexivity. Qed.

#[global] Instance inside_step_preorder {W} : PreOrder (@inside_step W).
Proof.
  split.
  - intros s. split; [reflexivity|done].
  - intros s1 s2 s3 [H1 H1'] [H2 H2']. split; [by etrans|congruence].
Qed.

#[global] Instance trace_grows_preorder {W} : PreOrder (@trace_grows W).
Proof.
  split; [intros s; unfold trace_grows; reflexivity|].
  intros s1 s2 s3 H1 H2. unfold trace_grows in *. by etrans.
Qed.

#[global] Hint Resolve inside_step_preorder trace_grows_preorder : respects.

(** ** What a step may do to the state *)
Section StepEffects.
Import Js ServiceWorker.
Context {W : Type}.
Variable RegExp : string → option (string → bool).
Variable sleep : value → W → W.
Variable runner : Step → gmap string value → W → (JsError + value) * W.

Local Abbreviation St := (state W).

Lemma inside_step_grows (s s' : St) : inside_step s s' → trace_grows s s'.
Proof. by intros [H _]. Qed.

(** A nested induction on steps: the inner steps of a loop first. *)
Lemma Step_nested_ind (P : Step → Prop) :
  (∀ step, Forall P (inner step) → P step) → ∀ step, P step.
Proof.
  intros H. fix IH 1. intros step. apply H.
  destruct step as [id type act conds eh sa inn]. simpl.
  induction inn as [|st inn IHinn]; constructor; [apply IH|exact IHinn].
Qed.

Lemma respects_emit e : respects inside_step (emit e : Eff St unit).
Proof. intros s. split; [by apply prefix_app_r|done]. Qed.

Lemma respects_external {B} (f : W → B * W) : respects inside_step (external f : Eff St B).
Proof. intros s. unfold external. destruct (f (world s)). split; [reflexivity|done]. Qed.

Lemma respects_alloc : respects inside_step (alloc : Eff St nat).
Proof. intros s. split; [reflexivity|done]. Qed.

Lemma respects_assign name v : respects inside_step (assign name v : Eff St unit).
Proof. intros s. split; [reflexivity|done]. Qed.

Lemma respects_await f : respects inside_step (await f : Eff St value).
Proof. unfold await. pose proof (respects_external f). respects. Qed.

Lemma respects_delay ms : respects inside_step (delay sleep ms : Eff St unit).
Proof.
  unfold delay. pose proof (respects_emit (EvDelay ms)).
  pose proof (respects_external (λ w, (tt, sleep ms w))). respects.
Qed.

#[local] Hint Resolve respects_emit respects_external respects_alloc respects_assign
  respects_await respects_delay : respects.

Lemma respects_executeLoop (exec : Step → Eff St value) act inn :
  Forall (λ st, respects inside_step (exec st)) inn →
  respects inside_step (executeLoop exec act inn).
Proof.
  intros IH. unfold executeLoop.
  rbind; [respects|]. intros items.
  rbind; [respects|]. intros variable.
  rbind; [respects|]. intros a.
  rbind; [respects|]. intros items'.
  rbind; [|respects].
  assert (Hsteps : ∀ results, respects inside_step (loop_steps exec inn results)).
  { induction IH as [|st inn' Hst _ IHinn]; intros results; simpl; [respects|].
    rbind; [exact Hst|]. intros r. apply IHinn. }
  generalize (@nil value) as results.
  induction items' as [|item items' IHitems]; intros results; simpl; [respects|].
  rbind; [respects|]. intros _.
  rbind; [apply Hsteps|]. intros results'. apply IHitems.
Qed.

Lemma respects_executeStep step :
  respects inside_step (executeStep RegExp sleep runner step).
Proof.
  induction step as [step IH] using Step_nested_ind.
  destruct step as [id type act conds eh sa inn]. cbn [executeStep]. simpl in *.
  rbind; [respects|]. intros _.
  destruct (served_by_runner type); [respects|].
  destruct (String.eqb type "wait"); [respects|].
  destruct (String.eqb type "condition"); [respects|].
  destruct (String.eqb type "loop"); [|respects].
  by apply respects_executeLoop.
Qed.

(** The first thing [executeStep] does is to leave its mark. *)
Lemma executeStep_entered step (s : St) :
  (trace s ++ [EvExecuteStep step])
    `prefix_of` trace (executeStep RegExp sleep runner step s).2.
Proof.
  destruct step as [id type act conds eh sa inn]. cbn [executeStep]. simpl.
  unfold mbind at 1, eff_bind at 1, bind at 1. simpl.
  match goal with
  | |- _ `prefix_of` trace (?k ?s').2 =>
      assert (Hk : respects inside_step k); [|exact (proj1 (Hk s'))]
  end.
  destruct (served_by_runner type); [respects|].
  destruct (String.eqb type "wait"); [respects|].
  destruct (String.eqb type "condition"); [respects|].
  destruct (String.eqb type "loop"); [|respects].
  apply respects_executeLoop, Forall_forall. intros st _. apply respects_executeStep.
Qed.

Lemma throws_errors_external {B} (f : W → B * W) : throws_errors (external f : Eff St B).
Proof. intros s. unfold external. by destruct (f (world s)). Qed.

Lemma throws_errors_emit e : throws_errors (emit e : Eff St unit).
Proof. intros s. done. Qed.

Lemma throws_errors_alloc : throws_errors (alloc : Eff St nat).
Proof. intros s. done. Qed.

Lemma throws_errors_delay ms : throws_errors (delay sleep ms : Eff St unit).
Proof. intros s. done. Qed.

Lemma throws_errors_await f : throws_errors (await f : Eff St value).
Proof. unfold await. pose proof (throws_errors_external f). throws. Qed.

Lemma get_throws_errors v key : get v key ≠ Throw ThrownUndefined.
Proof.
  destruct v; simpl; try done.
  - by destruct (String.eqb key "length").
  - by destruct (String.eqb key "length").
Qed.

Lemma destructure_throws_errors name v key :
  destructure name v key ≠ Throw ThrownUndefined.
Proof. destruct v; try done; apply get_throws_errors. Qed.

Lemma iterate_throws_errors v : iterate v ≠ Throw ThrownUndefined.
Proof. by destruct v. Qed.

#[local] Hint Resolve throws_errors_external throws_errors_emit throws_errors_alloc
  throws_errors_delay throws_errors_await : throws.

Lemma throws_errors_executeStep step :
  throws_errors (executeStep RegExp sleep runner step).
Proof.
  induction step as [step IH] using Step_nested_ind.
  destruct step as [id type act conds eh sa inn]. cbn [executeStep]. simpl in *.
  apply throws_errors_bind; [throws|]. intros _.
  destruct (served_by_runner type); [throws|].
  destruct (String.eqb type "wait").
  { apply throws_errors_bind; [apply throws_errors_lift, get_throws_errors|].
    intros timeout. throws. }
  destruct (String.eqb type "condition"); [throws|].
  destruct (String.eqb type "loop"); [|throws].
  unfold executeLoop.
  apply throws_errors_bind; [apply throws_errors_lift, destructure_throws_errors|].
  intros items.
  apply throws_errors_bind; [apply throws_errors_lift, get_throws_errors|]. intros variable.
  apply throws_errors_bind; [throws|]. intros a.
  apply throws_errors_bind; [apply throws_errors_lift, iterate_throws_errors|]. intros items'.
  apply throws_errors_bind; [|throws].
  assert (Hsteps : ∀ results,
            throws_errors (loop_steps (executeStep RegExp sleep runner) inn results)).
  { induction IH as [|st inn' Hst _ IHinn]; intros results; simpl; [throws|].
    apply throws_errors_bind; [exact Hst|]. intros r. apply IHinn. }
  generalize (@nil value) as results.
  induction items' as [|item items' IHitems]; intros results; simpl; [throws|].
  apply throws_errors_bind; [unfold assign; throws|]. intros _.
  apply throws_errors_bind; [apply Hsteps|]. intros results'. apply IHitems.
Qed.
End StepEffects.

#[global] Hint Resolve respects_emit respects_external respects_alloc respects_assign
  respects_await respects_delay respects_executeStep : respects.
#[global] Hint Resolve throws_errors_external throws_errors_emit throws_errors_alloc
  throws_errors_delay throws_errors_await throws_errors_executeStep : throws.

(** ** The loop body of executeWorkflow *)
Section LoopBody.
Import Js ServiceWorker.
Context {W : Type}.
Variable RegExp : string → option (string → bool).
Variable sleep : value → W → W.
Variable runner : Step → gmap string value → W → (JsError + value) * W.

Local Abbreviation St := (state W).
Local Abbreviation executeStep := (executeStep RegExp sleep runner).
Local Abbreviation retryStep := (retryStep RegExp sleep runner).
Local Abbreviation run_step := (run_step RegExp sleep runner).
Local Abbreviation handle_step_error := (handle_step_error RegExp sleep runner).
Local Abbreviation try_step := (try_step RegExp sleep runner).
Local Abbreviation iteration := (iteration RegExp sleep runner).
Local Abbreviation steps_loop := (steps_loop RegExp sleep runner).

Lemma respects_retry_loop step remaining i lastError :
  respects inside_step (retry_loop RegExp sleep runner step remaining i lastError).
Proof.
  revert i lastError. induction remaining as [|r IH]; intros i lastError; simpl.
  - respects.
  - rtry; [|intros t; apply IH].
    rbind; [apply respects_delay|]. intros _. apply respects_executeStep.
Qed.

(** The try block. *)
Lemma run_step_skipped step (s : St) :
  conditions_fail RegExp step s = true →
  run_step step s = (Normal true, recorded (Skipped (step_id step)) s).
Proof.
  intros Hfail. unfold run_step.
  rewrite (bind_run_normal get_state _ s s s) by done. by rewrite Hfail.
Qed.

Lemma run_step_throws step (s : St) t s1 :
  conditions_fail RegExp step s = false →
  executeStep step s = (Throw t, s1) →
  run_step step s = (Throw t, s1).
Proof.
  intros Hpass Hthrow. unfold run_step.
  rewrite (bind_run_normal get_state _ s s s) by done. rewrite Hpass.
  by apply bind_run_throw.
Qed.

(** The catch block, mode by mode. *)
Lemma handle_fail step error (s : St) :
  errorHandling step = Some "fail" →
  handle_step_error step error s = (Throw error, s).
Proof. intros H. unfold handle_step_error. by rewrite bool_decide_eq_true_2. Qed.

Lemma handle_retry step error (s : St) :
  errorHandling step = Some "retry" →
  handle_step_error step error s
  = match retryStep step 3 s with
    | (Normal v, s2) => (Normal false, recorded (Retried (step_id step) v) s2)
    | (Throw t, s2) => (Throw t, s2)
    end.
Proof.
  intros H. unfold handle_step_error.
  rewrite bool_decide_eq_false_2 by (rewrite H; discriminate).
  rewrite bool_decide_eq_true_2 by done.
  unfold mbind, eff_bind, bind.
  by destruct (ServiceWorker.retryStep _ _ _ step 3 s) as [[v|t] s2].
Qed.

Lemma handle_default step e (s : St) a items :
  errorHandling step ≠ Some "fail" →
  errorHandling step ≠ Some "retry" →
  execution s !! "errors" = Some (VArr a items) →
  handle_step_error step (Thrown e) s
  = (Normal false,
     error_logged (step_id step) (err_message e) a items
       (recorded (Failed (step_id step) (err_message e)) s)).
Proof.
  intros Hf Hr Herr. unfold handle_step_error.
  rewrite !bool_decide_eq_false_2 by done.
  unfold message_of, push_result, array_push, alloc.
  unfold mbind, eff_bind, bind, modify, get_state, mret, eff_ret, ret. simpl.
  rewrite Herr. done.
Qed.

(** One iteration, by the way its [try ... catch] ends. *)
Lemma iteration_cases workflow i step (s : St) :
  iteration workflow i step s
  = match try_step step (at_step i s) with
    | (Normal true, s1) => (Normal tt, s1)
    | (Normal false, s1) => (Normal tt, after_step sleep workflow s1)
    | (Throw t, s1) => (Throw t, s1)
    end.
Proof.
  unfold ServiceWorker.iteration, assign.
  unfold mbind at 1, eff_bind at 1, bind at 1. simpl.
  fold (at_step i s).
  unfold mbind, eff_bind, bind.
  destruct (ServiceWorker.try_step _ _ _ step (at_step i s)) as [[[|]|t] s1]; try done.
  unfold after_step. by destruct (truthy (stepDelay workflow)).
Qed.

Lemma steps_loop_cons workflow i step rest (s : St) :
  steps_loop workflow i (step :: rest) s
  = match iteration workflow i step s with
    | (Normal _, s1) => steps_loop workflow (S i) rest s1
    | (Throw t, s1) => (Throw t, s1)
    end.
Proof.
  cbn [ServiceWorker.steps_loop]. unfold mbind, eff_bind, bind.
  by destruct (ServiceWorker.iteration _ _ _ workflow i step s) as [[[]|t] s1].
Qed.
End LoopBody.

Section SkippedStep.
Import Js ServiceWorker.
Context {W : Type}.
Variable RegExp : string → option (string → bool).
Variable sleep : value → W → W.
Variable runner : Step → gmap string value → W → (JsError + value) * W.

Lemma evaluateConditions_and conditions context :
  evaluateConditions RegExp conditions context = true
  ↔ ∀ c, c ∈ conditions → evaluateCondition RegExp c context = true.
Proof.
  unfold evaluateConditions. rewrite forallb_forall.
  split; intros H c Hc; apply H; by apply list_elem_of_In.
Qed.

Lemma conditions_fail_some step conditions c (s : state W) :
  ServiceWorker.conditions step = Some conditions →
  c ∈ conditions →
  evaluateCondition RegExp c (context_of s) = false →
  conditions_fail RegExp step s = true.
Proof.
  intros Hcs Hc Hfalse. unfold conditions_fail. rewrite Hcs.
  apply negb_true_iff, not_true_iff_false. rewrite evaluateConditions_and.
  intros Hall. specialize (Hall c Hc). congruence.
Qed.

Lemma try_step_skipped step (s : state W) :
  conditions_fail RegExp step s = true →
  try_step RegExp sleep runner step s
  = (Normal true, recorded (Skipped (step_id step)) s).
Proof.
  intros Hfail. unfold try_step, try_catch.
  by rewrite (run_step_skipped RegExp sleep runner step s Hfail).
Qed.

Lemma iteration_skipped workflow i step (s : state W) :
  conditions_fail RegExp step (at_step i s) = true →
  iteration RegExp sleep runner workflow i step s
  = (Normal tt, recorded (Skipped (step_id step)) (at_step i s)).
Proof.
  intros Hfail. rewrite iteration_cases. by rewrite (try_step_skipped _ _ Hfail).
Qed.
End SkippedStep.

(** C3.  The conditions of a step are evaluated with [every]: they pass
    when each of them evaluates to [true].  When one of the conditions of
    step number [i] evaluates to [false] in the execution as it is when
    the step is reached, the iteration pushes [{ stepId, skipped: true }]
    and nothing else happens: [executeStep] is not entered, the trace is
    unchanged, and the loop goes on with the next step.  A condition with
    an operand that resolves to [undefined], as a path to a missing
    property does, evaluates to [false] under [>], [<], [>=] and [<=], and
    under [==] unless the other operand is [null] or [undefined]. *)
Theorem failed_condition_skips {W : Type} (RegExp : string → option (string → bool))
    (sleep : Js.value → W → W)
    (runner : ServiceWorker.Step → gmap string Js.value → W → (JsError + Js.value) * W)
    (workflow : ServiceWorker.Workflow) (i : nat) (step : ServiceWorker.Step)
    (rest : list ServiceWorker.Step) (s : ServiceWorker.state W)
    (conditions : list Js.value) (c : Js.value) :
  ServiceWorker.conditions step = Some conditions →
  c ∈ conditions →
  let reached := ServiceWorker.context_of (at_step i s) in
  let skipped := recorded (ServiceWorker.Skipped (ServiceWorker.step_id step)) (at_step i s) in
  (∀ context,
     ServiceWorker.evaluateConditions RegExp conditions context = true
     ↔ ∀ c', c' ∈ conditions → ServiceWorker.evaluateCondition RegExp c' context = true)
  ∧ (ServiceWorker.evaluateCondition RegExp c reached = false →
     ServiceWorker.iteration RegExp sleep runner workflow i step s = (Normal tt, skipped)
     ∧ ServiceWorker.trace skipped = ServiceWorker.trace s
     ∧ ServiceWorker.results skipped
       = ServiceWorker.results s ++ [ServiceWorker.Skipped (ServiceWorker.step_id step)]
     ∧ ServiceWorker.steps_loop RegExp sleep runner workflow i (step :: rest) s
       = ServiceWorker.steps_loop RegExp sleep runner workflow (S i) rest skipped)
  ∧ (∀ l op r lv rv,
       Js.get c "left" = Normal l →
       Js.get c "operator" = Normal (Js.VStr op) →
       Js.get c "right" = Normal r →
       ServiceWorker.resolveValue l reached = Normal lv →
       ServiceWorker.resolveValue r reached = Normal rv →
       lv = Js.VUndefined ∨ rv = Js.VUndefined →
       op ∈ [">"; "<"; ">="; "<="] ∨ (op = "==" ∧ ¬ (nullish lv ∧ nullish rv)) →
       ServiceWorker.evaluateCondition RegExp c reached = false).
Proof.
  intros Hcs Hc reached skipped.
  split; [intros context; apply evaluateConditions_and|]. split.
  - intros Hfalse.
    assert (Hfail : ServiceWorker.conditions_fail RegExp step (at_step i s) = true)
      by (by eapply conditions_fail_some).
    split; [by apply iteration_skipped|].
    split; [done|]. split; [done|].
    rewrite steps_loop_cons.
    by rewrite (iteration_skipped RegExp sleep runner workflow i step s Hfail).
  - intros l op r lv rv Hl Ho Hr Hlv Hrv Hundef Hop.
    unfold ServiceWorker.evaluateCondition.
    rewrite (condition_body_resolved RegExp c reached l (Js.VStr op) r lv rv) by done.
    destruct Hop as [Hop|[-> Hnull]].
    + destruct (ordering_undefined lv rv) as (Hgt & Hlt & Hge & Hle); [done|].
      repeat (apply elem_of_cons in Hop as [->|Hop]; [simpl; congruence|]).
      by apply elem_of_nil in Hop.
    + simpl. apply not_true_iff_false. intros Heq. apply Hnull.
      destruct Hundef as [->| ->].
      * rewrite looseEq_undefined_l in Heq. split; [by right|done].
      * rewrite looseEq_undefined_r in Heq. split; [done|by right].
Qed.

(** The second step of a workflow is guarded by a condition on a
    parameter that is missing: it is skipped, and nothing is dispatched. *)
Lemma failed_condition_skips_witness :
  ServiceWorker.iteration no_RegExp sample_sleep sample_runner
    (ServiceWorker.mkWorkflow [] Js.VUndefined) 1 guarded_step sample_execution
  = (Normal tt, recorded (ServiceWorker.Skipped "s2") (at_step 1 sample_execution)).
Proof.
  destruct (failed_condition_skips no_RegExp sample_sleep sample_runner
              (ServiceWorker.mkWorkflow [] Js.VUndefined) 1 guarded_step [] sample_execution
              [a_condition (Js.VStr "$parameters.limit") "==" (Js.VNum (Js.Int 5))]
              (a_condition (Js.VStr "$parameters.limit") "==" (Js.VNum (Js.Int 5))))
    as (_ & Hskip & Hundefined).
  - reflexivity.
  - constructor.
  - destruct Hskip as (Hiter & _); [|exact Hiter].
    apply (Hundefined (Js.VStr "$parameters.limit") "==" (Js.VNum (Js.Int 5))
             Js.VUndefined (Js.VNum (Js.Int 5)));
      [reflexivity|reflexivity|reflexivity|reflexivity|reflexivity|by left|].
    right. split; [reflexivity|]. intros [_ [Hnull|Hnull]]; discriminate Hnull.
Defined.

(** C3 as the specification words it fails: the condition of this step
    refers to a parameter that is missing, its left operand resolves to
    [undefined], and [undefined != 10] is true; the step is dispatched
    and its result recorded. *)
Lemma undefined_path_condition_runs_the_step :
  let c := a_condition (Js.VStr "$parameters.limit") "!=" (Js.VNum (Js.Int 10)) in
  let step := a_step "s2" "click" (Some [c]) None in
  let reached := ServiceWorker.context_of (at_step 1 sample_execution) in
  let run := ServiceWorker.iteration no_RegExp sample_sleep sample_runner
               (ServiceWorker.mkWorkflow [] Js.VUndefined) 1 step sample_execution in
  ServiceWorker.resolveValue (Js.VStr "$parameters.limit") reached = Normal Js.VUndefined
  ∧ ServiceWorker.evaluateCondition no_RegExp c reached = true
  ∧ run.1 = Normal tt
  ∧ ServiceWorker.results run.2 = [ServiceWorker.Result "s2" (Js.VStr "done s2")]
  ∧ ServiceWorker.trace run.2 = [ServiceWorker.EvExecuteStep step].
Proof. repeat split; reflexivity. Qed.

(** ** C7: the wait between steps *)
Section StepDelay.
Import Js ServiceWorker.
Context {W : Type}.
Variable RegExp : string → option (string → bool).
Variable sleep : value → W → W.
Variable runner : Step → gmap string value → W → (JsError + value) * W.

(** What the catch block records when it completes. *)
Lemma handle_step_error_ran step error (s s1 : state W) b :
  handle_step_error RegExp sleep runner step error s = (Normal b, s1) →
  b = false ∧ ∃ before r, results s1 = before ++ [r] ∧ ran (step_id step) r.
Proof.
  unfold handle_step_error.
  case_bool_decide as Hf; [done|].
  case_bool_decide as Hr.
  - unfold mbind, eff_bind, bind.
    destruct (retryStep _ _ _ step 3 s) as [[v|t] s2]; [|done].
    simpl. intros [= <- <-]. split; [done|].
    by exists (results s2), (Retried (step_id step) v).
  - destruct error as [e|]; [|done].
    unfold message_of, push_result, array_push, alloc.
    unfold mbind, eff_bind, bind, modify, get_state, mret, eff_ret, ret. simpl.
    destruct (execution s !! "errors") as [[]|]; try done.
    simpl. intros [= <- <-]. split; [done|].
    by exists (results s), (Failed (step_id step) (err_message e)).
Qed.

(** What the try block records when it completes. *)
Lemma run_step_ran step (s s1 : state W) b :
  run_step RegExp sleep runner step s = (Normal b, s1) →
  if b then conditions_fail RegExp step s = true
            ∧ s1 = recorded (Skipped (step_id step)) s
  else conditions_fail RegExp step s = false
       ∧ ∃ before r, results s1 = before ++ [r] ∧ ran (step_id step) r.
Proof.
  unfold run_step. rewrite (bind_run_normal get_state _ s s s) by done.
  destruct (conditions_fail RegExp step s) eqn:Hc.
  - intros [= <- <-]. done.
  - unfold mbind at 1, eff_bind at 1, bind at 1.
    destruct (executeStep _ _ _ step s) as [[v|t] s2]; [|done].
    unfold push_result, array_push, assign.
    unfold mbind, eff_bind, bind, modify, get_state, mret, eff_ret, ret. simpl.
    destruct (execution s2 !! "results") as [[]|]; try done. simpl.
    destruct (storeAs step) as [name|]; [destruct (truthy_string name)|];
      simpl; intros [= <- <-]; (split; [done|]);
      by exists (results s2), (Result (step_id step) v).
Qed.

Lemma run_step_throws_inv step (s s1 : state W) t :
  run_step RegExp sleep runner step s = (Throw t, s1) →
  conditions_fail RegExp step s = false.
Proof.
  unfold run_step. rewrite (bind_run_normal get_state _ s s s) by done.
  by destruct (conditions_fail RegExp step s).
Qed.

Lemma try_step_ran step (s s1 : state W) b :
  try_step RegExp sleep runner step s = (Normal b, s1) →
  if b then conditions_fail RegExp step s = true
            ∧ s1 = recorded (Skipped (step_id step)) s
  else conditions_fail RegExp step s = false
       ∧ ∃ before r, results s1 = before ++ [r] ∧ ran (step_id step) r.
Proof.
  unfold try_step, try_catch.
  destruct (run_step _ _ _ step s) as [[b'|t] s2] eqn:Hrun.
  - intros [= <- <-]. by apply run_step_ran.
  - intros Hh. apply handle_step_error_ran in Hh as [-> Hran].
    split; [|done]. by eapply run_step_throws_inv.
Qed.
End StepDelay.

(** C7, as the code has it.  In a workflow with a truthy
    [settings.stepDelay], an iteration of the loop ends in one of three
    ways.  It records a result, a retried result or an error for the step
    and then waits [stepDelay]; or the conditions of the step fail, the
    step is recorded as skipped and the iteration leaves through
    [continue] without waiting; or it throws, and nothing is waited for. *)
Theorem step_delay_follows_a_step_that_ran {W : Type}
    (RegExp : string → option (string → bool)) (sleep : Js.value → W → W)
    (runner : ServiceWorker.Step → gmap string Js.value → W → (JsError + Js.value) * W)
    (workflow : ServiceWorker.Workflow) (i : nat) (step : ServiceWorker.Step)
    (s : ServiceWorker.state W) :
  Js.truthy (ServiceWorker.stepDelay workflow) = true →
  let run := ServiceWorker.iteration RegExp sleep runner workflow i step s in
  (∃ s1 before r,
     ServiceWorker.conditions_fail RegExp step (at_step i s) = false
     ∧ ServiceWorker.results s1 = before ++ [r]
     ∧ ran (ServiceWorker.step_id step) r
     ∧ run = (Normal tt, waited sleep (ServiceWorker.stepDelay workflow) s1))
  ∨ (ServiceWorker.conditions_fail RegExp step (at_step i s) = true
     ∧ run = (Normal tt, recorded (ServiceWorker.Skipped (ServiceWorker.step_id step))
                           (at_step i s))
     ∧ ServiceWorker.trace run.2 = ServiceWorker.trace s)
  ∨ (∃ t s1,
       ServiceWorker.try_step RegExp sleep runner step (at_step i s) = (Throw t, s1)
       ∧ run = (Throw t, s1)).
Proof.
  intros Hdelay run. subst run. rewrite iteration_cases.
  destruct (ServiceWorker.try_step RegExp sleep runner step (at_step i s))
    as [[b|t] s1] eqn:Htry.
  - apply try_step_ran in Htry. destruct b.
    + destruct Htry as [Hfail ->]. right. left. done.
    + destruct Htry as (Hpass & before & r & Hres & Hran). left.
      exists s1, before, r. unfold after_step. by rewrite Hdelay.
  - right. right. by exists t, s1.
Qed.

(** A step that runs is followed by the wait of 500 ms. *)
Lemma step_delay_follows_a_step_that_ran_witness :
  ∃ s1,
    ServiceWorker.iteration no_RegExp sample_sleep sample_runner (delayed_workflow []) 0
      (a_step "s1" "click" None None) sample_execution
    = (Normal tt, waited sample_sleep (Js.VNum (Js.Int 500)) s1).
Proof.
  destruct (step_delay_follows_a_step_that_ran no_RegExp sample_sleep sample_runner
              (delayed_workflow []) 0 (a_step "s1" "click" None None) sample_execution)
    as [(s1 & before & r & _ & _ & _ & Hrun)|[(Hfail & _)|(t & s1 & Htry & _)]].
  - reflexivity.
  - exists s1. exact Hrun.
  - discriminate Hfail.
  - discriminate Htry.
Defined.

(** C7 as the specification words it fails: in a workflow that declares a
    wait of 500 ms, a step whose condition fails is recorded as skipped and
    the whole execution performs no wait at all. *)
Lemma skipped_step_is_not_followed_by_a_wait :
  let run := ServiceWorker.executeWorkflow no_RegExp sample_clock sample_sleep sample_runner
               (delayed_workflow [guarded_step]) sample_execution in
  Js.truthy (ServiceWorker.stepDelay (delayed_workflow [guarded_step])) = true
  ∧ (∃ summary, run.1 = Normal summary
                ∧ ServiceWorker.summary_results summary = [ServiceWorker.Skipped "s2"])
  ∧ ServiceWorker.trace run.2 = [].
Proof. split; [reflexivity|]. split; [|reflexivity]. eexists. split; reflexivity. Qed.

(** ** C4: what a step error does to the execution *)
Section StepErrors.
Import Js ServiceWorker.
Context {W : Type}.
Variable RegExp : string → option (string → bool).
Variable sleep : value → W → W.
Variable runner : Step → gmap string value → W → (JsError + value) * W.

Local Abbreviation executeStep := (executeStep RegExp sleep runner).

Lemma try_step_throws step (s s1 : state W) error :
  conditions_fail RegExp step s = false →
  executeStep step s = (Throw error, s1) →
  try_step RegExp sleep runner step s
  = handle_step_error RegExp sleep runner step error s1.
Proof.
  intros Hpass Hthrow. unfold try_step, try_catch.
  by rewrite (run_step_throws RegExp sleep runner step s error s1 Hpass Hthrow).
Qed.

Lemma attempt_after_wait ms step (s : state W) :
  (delay sleep ms ≫= λ _, executeStep step) s = executeStep step (waited sleep ms s).
Proof. reflexivity. Qed.

(** The three attempts of [retryStep], each after its wait. *)
Lemma retryStep_attempts step (s : state W) :
  retryStep RegExp sleep runner step 3 s
  = let r1 := executeStep step (waited sleep (VNum (Int 1000)) s) in
    match r1.1 with
    | Normal _ => r1
    | Throw _ =>
        let r2 := executeStep step (waited sleep (VNum (Int 2000)) r1.2) in
        match r2.1 with
        | Normal _ => r2
        | Throw _ => executeStep step (waited sleep (VNum (Int 4000)) r2.2)
        end
    end.
Proof.
  unfold retryStep. cbn [retry_loop].
  change (backoff 0) with 1000. change (backoff 1) with 2000.
  change (backoff 2) with 4000.
  unfold try_catch at 1. rewrite attempt_after_wait.
  destruct (executeStep step (waited sleep (VNum (Int 1000)) s)) as [[v1|t1] s1];
    cbn [fst snd]; [done|].
  unfold try_catch at 1. rewrite attempt_after_wait.
  destruct (executeStep step (waited sleep (VNum (Int 2000)) s1)) as [[v2|t2] s2];
    cbn [fst snd]; [done|].
  unfold try_catch at 1. rewrite attempt_after_wait.
  by destruct (executeStep step (waited sleep (VNum (Int 4000)) s2)) as [[v3|t3] s3].
Qed.
End StepErrors.

(** C4, as the code has it.  Step number [i] passes its conditions and
    [executeStep] throws [error].  In mode "fail" the loop throws [error]
    and the remaining steps are not run.  In mode "retry" the step is run
    again by [retryStep], up to three times, after waits of 1000, 2000 and
    4000 ms: the first attempt that returns is recorded as retried and the
    loop goes on with the next step; when all three throw, the loop throws
    the last error and the remaining steps are not run.  In every other
    mode the error is an [Error] object whose message is recorded in
    [results], and, [execution.errors] being an array, pushed there; the
    loop goes on with the next step. *)
Theorem step_error_handling {W : Type}
    (RegExp : string → option (string → bool)) (sleep : Js.value → W → W)
    (runner : ServiceWorker.Step → gmap string Js.value → W → (JsError + Js.value) * W)
    (workflow : ServiceWorker.Workflow) (i : nat) (step : ServiceWorker.Step)
    (rest : list ServiceWorker.Step) (s s1 : ServiceWorker.state W) (error : thrown) :
  ServiceWorker.conditions_fail RegExp step (at_step i s) = false →
  ServiceWorker.executeStep RegExp sleep runner step (at_step i s) = (Throw error, s1) →
  let loop := ServiceWorker.steps_loop RegExp sleep runner workflow in
  let id := ServiceWorker.step_id step in
  (ServiceWorker.errorHandling step = Some "fail" →
   loop i (step :: rest) s = (Throw error, s1))
  ∧ (ServiceWorker.errorHandling step = Some "retry" →
     loop i (step :: rest) s
     = match ServiceWorker.retryStep RegExp sleep runner step 3 s1 with
       | (Normal v, s2) =>
           loop (S i) rest
             (after_step sleep workflow (recorded (ServiceWorker.Retried id v) s2))
       | (Throw t, s2) => (Throw t, s2)
       end)
  ∧ (ServiceWorker.retryStep RegExp sleep runner step 3 s1
     = let r1 := ServiceWorker.executeStep RegExp sleep runner step
                   (waited sleep (Js.VNum (Js.Int 1000)) s1) in
       match r1.1 with
       | Normal _ => r1
       | Throw _ =>
           let r2 := ServiceWorker.executeStep RegExp sleep runner step
                       (waited sleep (Js.VNum (Js.Int 2000)) r1.2) in
           match r2.1 with
           | Normal _ => r2
           | Throw _ =>
               ServiceWorker.executeStep RegExp sleep runner step
                 (waited sleep (Js.VNum (Js.Int 4000)) r2.2)
           end
       end)
  ∧ (ServiceWorker.errorHandling step ≠ Some "fail" →
     ServiceWorker.errorHandling step ≠ Some "retry" →
     ∃ e, error = Thrown e
          ∧ ∀ a items,
              ServiceWorker.execution s1 !! "errors" = Some (Js.VArr a items) →
              loop i (step :: rest) s
              = loop (S i) rest
                  (after_step sleep workflow
                     (error_logged id (err_message e) a items
                        (recorded (ServiceWorker.Failed id (err_message e)) s1)))).
Proof.
  intros Hpass Hthrow loop id.
  pose proof (try_step_throws RegExp sleep runner step (at_step i s) s1 error Hpass Hthrow)
    as Htry.
  split; [|split; [|split]].
  - intros Hmode. subst loop. rewrite steps_loop_cons, iteration_cases, Htry.
    by rewrite handle_fail.
  - intros Hmode. subst loop. rewrite steps_loop_cons, iteration_cases, Htry.
    rewrite handle_retry by done.
    by destruct (ServiceWorker.retryStep RegExp sleep runner step 3 s1) as [[v|t] s2].
  - apply retryStep_attempts.
  - intros Hf Hr.
    pose proof (throws_errors_executeStep RegExp sleep runner step (at_step i s)) as Herr.
    rewrite Hthrow in Herr. simpl in Herr.
    destruct error as [e|]; [|done].
    exists e. split; [done|]. intros a items Harr.
    subst loop. rewrite steps_loop_cons, iteration_cases, Htry.
    by rewrite (handle_default RegExp sleep runner step e s1 a items Hf Hr Harr).
Qed.

(** The step "bad" fails in the collaborator.  In mode "fail" the loop
    throws and "s2" is not run; in the default mode the error is logged and
    the loop goes on with "s2". *)
Lemma step_error_handling_witness :
  let failed := ServiceWorker.executeStep no_RegExp sample_sleep sample_runner
                  (a_step "bad" "click" None None) (at_step 0 sample_execution) in
  ServiceWorker.steps_loop no_RegExp sample_sleep sample_runner (delayed_workflow []) 0
    [a_step "bad" "click" None (Some "fail"); a_step "s2" "click" None None] sample_execution
  = (Throw (Thrown (Error_ "element not found")),
     (ServiceWorker.executeStep no_RegExp sample_sleep sample_runner
        (a_step "bad" "click" None (Some "fail")) (at_step 0 sample_execution)).2)
  ∧ ServiceWorker.steps_loop no_RegExp sample_sleep sample_runner (delayed_workflow []) 0
      [a_step "bad" "click" None None; a_step "s2" "click" None None] sample_execution
    = ServiceWorker.steps_loop no_RegExp sample_sleep sample_runner (delayed_workflow []) 1
        [a_step "s2" "click" None None]
        (after_step sample_sleep (delayed_workflow [])
           (error_logged "bad" "element not found" 4 []
              (recorded (ServiceWorker.Failed "bad" "element not found") failed.2))).
Proof.
  intros failed. split.
  - destruct (step_error_handling no_RegExp sample_sleep sample_runner (delayed_workflow []) 0
                (a_step "bad" "click" None (Some "fail")) [a_step "s2" "click" None None]
                sample_execution
                (ServiceWorker.executeStep no_RegExp sample_sleep sample_runner
                   (a_step "bad" "click" None (Some "fail")) (at_step 0 sample_execution)).2
                (Thrown (Error_ "element not found"))) as (Hfail & _).
    + reflexivity.
    + reflexivity.
    + apply Hfail. reflexivity.
  - destruct (step_error_handling no_RegExp sample_sleep sample_runner (delayed_workflow []) 0
                (a_step "bad" "click" None None) [a_step "s2" "click" None None]
                sample_execution failed.2 (Thrown (Error_ "element not found")))
      as (_ & _ & _ & Hdefault).
    + reflexivity.
    + reflexivity.
    + destruct Hdefault as (e & He & Hloop); [discriminate|discriminate|].
      injection He as <-. apply (Hloop 4%nat []). reflexivity.
Defined.

(** C4 as the specification words it fails: the step "bad" is in mode
    "retry", not "fail"; the collaborator fails at the first call and at
    the three retries; the execution throws, and "s2" is never run. *)
Lemma exhausted_retry_aborts :
  let bad := a_step "bad" "click" None (Some "retry") in
  let run := ServiceWorker.executeWorkflow no_RegExp sample_clock sample_sleep sample_runner
               (ServiceWorker.mkWorkflow [bad; a_step "s2" "click" None None] Js.VUndefined)
               sample_execution in
  ServiceWorker.errorHandling bad ≠ Some "fail"
  ∧ run.1 = Throw (Thrown (Error_ "element not found"))
  ∧ ServiceWorker.trace run.2
    = [ServiceWorker.EvExecuteStep bad;
       ServiceWorker.EvDelay (Js.VNum (Js.Int 1000)); ServiceWorker.EvExecuteStep bad;
       ServiceWorker.EvDelay (Js.VNum (Js.Int 2000)); ServiceWorker.EvExecuteStep bad;
       ServiceWorker.EvDelay (Js.VNum (Js.Int 4000)); ServiceWorker.EvExecuteStep bad].
Proof. split; [discriminate|]. split; reflexivity. Qed.

(** ** C10: operators outside the switch *)
Section UnknownOperator.
Import Js ServiceWorker.
Context {W : Type}.
Variable RegExp : string → option (string → bool).
Variable sleep : value → W → W.
Variable runner : Step → gmap string value → W → (JsError + value) * W.

Local Abbreviation St := (state W).

Lemma respects_weaken (R R' : relation St) {B} (m : Eff St B) :
  (∀ s s', R s s' → R' s s') → respects R m → respects R' m.
Proof. intros HR Hm s. apply HR, Hm. Qed.

Lemma grows_inside {B} (m : Eff St B) : respects inside_step m → respects trace_grows m.
Proof. apply respects_weaken. by intros s s' [H _]. Qed.

Lemma grows_push_result r : respects trace_grows (push_result r : Eff St unit).
Proof. intros s. unfold trace_grows. simpl. reflexivity. Qed.

Lemma grows_array_push name (arg : Eff St value) :
  respects trace_grows arg → respects trace_grows (array_push name arg).
Proof.
  intros Harg. unfold array_push.
  rbind; [respects|]. intros s.
  destruct (execution s !! name) as [[| | | | |a items|]|];
    try (apply respects_throw; apply _).
  rbind; [exact Harg|]. intros v. intros s'. unfold trace_grows. simpl. reflexivity.
Qed.

Lemma grows_retryStep step n : respects trace_grows (retryStep RegExp sleep runner step n).
Proof. apply grows_inside, respects_retry_loop. Qed.

Lemma grows_handle_step_error step error :
  respects trace_grows (handle_step_error RegExp sleep runner step error).
Proof.
  unfold handle_step_error.
  case_bool_decide; [respects|].
  case_bool_decide.
  - rbind; [apply grows_retryStep|]. intros v.
    rbind; [apply grows_push_result|]. respects.
  - rbind; [respects|]. intros message.
    rbind; [apply grows_push_result|]. intros _.
    rbind; [|respects].
    apply grows_array_push. rbind; [apply grows_inside, respects_alloc|]. respects.
Qed.

(** A step whose conditions pass is dispatched. *)
Lemma try_step_dispatches step (s : St) :
  conditions_fail RegExp step s = false →
  (trace s ++ [EvExecuteStep step])
    `prefix_of` trace (try_step RegExp sleep runner step s).2
  ∧ (try_step RegExp sleep runner step s).1 ≠ Normal true.
Proof.
  intros Hpass. split.
  - unfold try_step, try_catch, run_step.
    rewrite (bind_run_normal get_state _ s s s) by done. rewrite Hpass.
    unfold mbind at 1, eff_bind at 1, bind at 1.
    pose proof (executeStep_entered RegExp sleep runner step s) as Hin.
    destruct (executeStep RegExp sleep runner step s) as [[v|t] s1]; simpl in Hin.
    + match goal with
      | |- _ `prefix_of` trace (let (_, _) := ?k ?s1 in _).2 =>
          assert (Hk : respects trace_grows k)
      end.
      { rbind; [apply grows_push_result|]. intros _.
        rbind; [apply grows_array_push; respects|]. intros _.
        rbind; [|respects].
        destruct (storeAs step) as [name|]; [destruct (truthy_string name)|];
          try respects.
        apply grows_inside, respects_assign. }
      specialize (Hk s1). unfold trace_grows in Hk.
      match type of Hk with
      | _ `prefix_of` trace (?m).2 => destruct m as [[b|t] s2]
      end; simpl in *.
      * by etrans.
      * etrans; [exact Hin|]. etrans; [exact Hk|]. apply grows_handle_step_error.
    + etrans; [exact Hin|]. apply grows_handle_step_error.
  - destruct (try_step RegExp sleep runner step s) as [[[]|t] s1] eqn:Htry; try done.
    apply try_step_ran in Htry as [Hfail _]. congruence.
Qed.
End UnknownOperator.

(** C10, as the code has it.  When the condition can be taken apart and
    both operands resolve without an error, and its operator is none of
    [==], [!=], [>], [<], [>=], [<=], [contains] and [matches], then
    [evaluateCondition] returns [true]; a step guarded by this condition
    alone passes its conditions, is dispatched to [executeStep] and is not
    recorded as skipped. *)
Theorem unknown_operator_is_true {W : Type}
    (RegExp : string → option (string → bool)) (sleep : Js.value → W → W)
    (runner : ServiceWorker.Step → gmap string Js.value → W → (JsError + Js.value) * W)
    (step : ServiceWorker.Step) (s : ServiceWorker.state W)
    (condition l o r lv rv : Js.value) :
  Js.get condition "left" = Normal l →
  Js.get condition "operator" = Normal o →
  Js.get condition "right" = Normal r →
  ServiceWorker.resolveValue l (ServiceWorker.context_of s) = Normal lv →
  ServiceWorker.resolveValue r (ServiceWorker.context_of s) = Normal rv →
  (∀ op, op ∈ known_operators → o ≠ Js.VStr op) →
  ServiceWorker.evaluateCondition RegExp condition (ServiceWorker.context_of s) = true
  ∧ (ServiceWorker.conditions step = Some [condition] →
     ServiceWorker.conditions_fail RegExp step s = false
     ∧ (ServiceWorker.trace s ++ [ServiceWorker.EvExecuteStep step])
         `prefix_of` ServiceWorker.trace (ServiceWorker.try_step RegExp sleep runner step s).2
     ∧ (ServiceWorker.try_step RegExp sleep runner step s).1 ≠ Normal true).
Proof.
  intros Hl Ho Hr Hlv Hrv Hop.
  assert (Htrue : ServiceWorker.evaluateCondition RegExp condition
                    (ServiceWorker.context_of s) = true).
  { unfold ServiceWorker.evaluateCondition.
    rewrite (condition_body_resolved RegExp condition _ l o r lv rv) by done.
    destruct o as [| | | |op| |]; try done.
    assert (Hne : ∀ known, known ∈ known_operators → String.eqb op known = false).
    { intros known Hin. apply String.eqb_neq. intros ->. by apply (Hop known). }
    rewrite !Hne by (unfold known_operators; set_solver). done. }
  split; [exact Htrue|]. intros Hcs.
  assert (Hpass : ServiceWorker.conditions_fail RegExp step s = false).
  { unfold ServiceWorker.conditions_fail. rewrite Hcs. simpl. by rewrite Htrue. }
  split; [exact Hpass|]. by apply try_step_dispatches.
Qed.

(** The operator "startsWith" is not one of the switch: the condition is
    true and the step it guards is not skipped. *)
Lemma unknown_operator_is_true_witness :
  let condition := a_condition (Js.VStr "$parameters.name") "startsWith" (Js.VStr "A") in
  let step := a_step "s3" "click" (Some [condition]) None in
  ServiceWorker.evaluateCondition no_RegExp condition
    (ServiceWorker.context_of sample_execution) = true
  ∧ (ServiceWorker.try_step no_RegExp sample_sleep sample_runner step sample_execution).1
    ≠ Normal true.
Proof.
  intros condition step.
  destruct (unknown_operator_is_true no_RegExp sample_sleep sample_runner step
              sample_execution condition (Js.VStr "$parameters.name")
              (Js.VStr "startsWith") (Js.VStr "A") Js.VUndefined (Js.VStr "A"))
    as (Htrue & Hstep).
  - reflexivity.
  - reflexivity.
  - reflexivity.
  - reflexivity.
  - reflexivity.
  - intros op Hin [= <-]. unfold known_operators in Hin.
    repeat (apply elem_of_cons in Hin as [Hin|Hin]; [discriminate Hin|]).
    by apply elem_of_nil in Hin.
  - split; [exact Htrue|]. by destruct Hstep as (_ & _ & Hran).
Defined.

(** C10 as it is worded fails: the operator is not one of the switch, but
    the left operand dereferences [null], the [TypeError] is caught and the
    condition is false. *)
Lemma unknown_operator_with_failing_operand_is_false :
  let condition := a_condition (Js.VStr "$parameters.user.name") "startsWith" (Js.VStr "A") in
  let context := a_context (<["user" := Js.VNull]> ∅) in
  Js.get condition "operator" = Normal (Js.VStr "startsWith")
  ∧ ("startsWith" ∉ known_operators)
  ∧ ServiceWorker.evaluateCondition no_RegExp condition context = false.
Proof.
  split; [reflexivity|]. split; [|reflexivity].
  unfold known_operators. intros Hin.
  repeat (apply elem_of_cons in Hin as [Hin|Hin]; [discriminate Hin|]).
  by apply elem_of_nil in Hin.
Qed.

(** ** C9: the placeholder workflow *)
Section Placeholder.
Import Js ServiceWorker.
Context {W : Type}.
Variable clock : W → Z * W.

Lemma createFallbackWorkflow_placeholder description (s : state W) :
  ∃ workflow s', createFallbackWorkflow clock description s = (Normal workflow, s')
                 ∧ is_placeholder workflow.
Proof.
  unfold createFallbackWorkflow, alloc, now, external.
  unfold mbind, eff_bind, bind, mret, eff_ret, ret. simpl.
  destruct (clock (world s)) as [t w]. simpl.
  eexists _, _. split; [reflexivity|].
  unfold is_placeholder. eexists _, _. split; [|split].
  - simpl. rewrite !lookup_insert_ne by done. rewrite lookup_insert_eq. reflexivity.
  - simpl. rewrite lookup_insert_ne by done. rewrite lookup_insert_eq. reflexivity.
  - simpl. rewrite !lookup_insert_ne by done. rewrite lookup_insert_eq. simpl.
    rewrite lookup_insert_eq. reflexivity.
Qed.
End Placeholder.

(** C9.  When the generation path of [handleGenerateWorkflow], which is
    its [try] block, throws, whether in the pattern matcher, in the
    generator or while the pattern is learnt, the handler returns what
    [createFallbackWorkflow] builds: a workflow whose [steps] hold one
    step, of type alert, with the message that generation failed.  From
    the [try] on the handler never throws; what it throws comes from the
    statements before it, which read the payload and the sender and
    write to the context, and which pass whenever payload and sender are
    objects and the context is not [null]. *)
Theorem generation_failure_yields_placeholder {W : Type} (clock : W → Z * W)
    (patternMatcher_match :
       Js.value → Js.value → W → (JsError + ServiceWorker.PatternMatch) * W)
    (generateFromDescription : Js.value → Js.value → W → (JsError + Js.value) * W)
    (learnPattern : Js.value → Js.value → Js.value → W → option JsError * W)
    (storeWorkflow : Js.value → W → W)
    (payload sender description context : Js.value)
    (s s0 s1 : ServiceWorker.state W) (error : thrown) :
  ServiceWorker.request_context payload sender s = (Normal (description, context), s0) →
  ServiceWorker.generation_path patternMatcher_match generateFromDescription learnPattern
    storeWorkflow description context s0 = (Throw error, s1) →
  let handler :=
    ServiceWorker.handleGenerateWorkflow clock patternMatcher_match generateFromDescription
      learnPattern storeWorkflow in
  handler payload sender s = ServiceWorker.createFallbackWorkflow clock description s1
  ∧ (∃ workflow s2, handler payload sender s = (Normal workflow, s2)
                    ∧ is_placeholder workflow)
  ∧ (∀ payload' sender' (s' : ServiceWorker.state W),
       match ServiceWorker.request_context payload' sender' s' with
       | (Normal _, _) => ∃ workflow s2, handler payload' sender' s' = (Normal workflow, s2)
       | (Throw t, s'') => handler payload' sender' s' = (Throw t, s'')
       end)
  ∧ (∀ a props a' props' (s' : ServiceWorker.state W),
       props !! "context" ≠ Some Js.VNull →
       ∃ context' s'',
         ServiceWorker.request_context (Js.VObj a props) (Js.VObj a' props') s'
         = (Normal (default Js.VUndefined (props !! "description"), context'), s'')).
Proof.
  intros Hrequest Hpath handler.
  assert (Hh : handler payload sender s
               = ServiceWorker.createFallbackWorkflow clock description s1).
  { subst handler. unfold ServiceWorker.handleGenerateWorkflow.
    rewrite (bind_run_normal _ _ _ _ _ Hrequest). unfold try_catch. cbn [fst snd].
    by rewrite Hpath. }
  split; [exact Hh|]. split; [|split].
  - rewrite Hh. apply createFallbackWorkflow_placeholder.
  - intros payload' sender' s'. subst handler.
    unfold ServiceWorker.handleGenerateWorkflow.
    destruct (ServiceWorker.request_context payload' sender' s') as [[request|t] s2]
      eqn:Hrequest'.
    + rewrite (bind_run_normal _ _ _ _ _ Hrequest'). unfold try_catch.
      destruct (ServiceWorker.generation_path _ _ _ _ request.1 request.2 s2)
        as [[v|t] s3].
      * by exists v, s3.
      * destruct (createFallbackWorkflow_placeholder clock request.1 s3)
          as (workflow & s4 & Hw & _).
        by exists workflow, s4.
    + by rewrite (bind_run_throw _ _ _ _ _ Hrequest').
  - intros a props a' props' s' Hnull.
    unfold ServiceWorker.request_context, ServiceWorker.alloc, lift.
    unfold mbind, eff_bind, bind, mret, eff_ret, ret. cbn.
    destruct (props !! "context") as [[]|]; cbn; try done;
      destruct (props' !! "tab") as [[]|]; cbn; by eexists _, _.
Qed.

(** The pattern matcher is not confident and the generator rejects: the
    handler answers with the placeholder. *)
Lemma generation_failure_yields_placeholder_witness :
  ∃ workflow s2,
    ServiceWorker.handleGenerateWorkflow sample_clock
      (λ _ _ w, (inr (ServiceWorker.mkPatternMatch false (Normal Js.VUndefined)), w))
      (λ _ _ w, (inl (Error_ "Failed to generate workflow"), S w))
      (λ _ _ _ w, (None, w)) (λ _ w, w)
      (a_request (Js.VObj 7 ∅)) a_sender sample_execution
    = (Normal workflow, s2)
    ∧ is_placeholder workflow.
Proof.
  destruct (generation_failure_yields_placeholder sample_clock
              (λ _ _ w, (inr (ServiceWorker.mkPatternMatch false (Normal Js.VUndefined)), w))
              (λ _ _ w, (inl (Error_ "Failed to generate workflow"), S w))
              (λ _ _ _ w, (None, w)) (λ _ w, w)
              (a_request (Js.VObj 7 ∅)) a_sender
              (Js.VStr "export my invoices every Monday")
              (Js.VObj 7 (<["frameId" := Js.VNum (Js.Int 0)]>
                            (<["url" := Js.VStr "https://example.org/invoices"]>
                               (<["tabId" := Js.VNum (Js.Int 3)]> ∅))))
              sample_execution sample_execution
              (ServiceWorker.set_world 1%nat sample_execution)
              (Thrown (Error_ "Failed to generate workflow")))
    as (_ & Hplaceholder & _).
  - reflexivity.
  - reflexivity.
  - exact Hplaceholder.
Defined.

(** A request whose context is [null] does not reach the [try]: the
    first assignment to the context throws, and so does the handler. *)
Example null_context_is_rejected_before_the_try :
  (ServiceWorker.handleGenerateWorkflow sample_clock
     (λ _ _ w, (inr (ServiceWorker.mkPatternMatch false (Normal Js.VUndefined)), w))
     (λ _ _ w, (inl (Error_ "Failed to generate workflow"), S w))
     (λ _ _ _ w, (None, w)) (λ _ w, w)
     (a_request Js.VNull) a_sender sample_execution).1
  = Throw (Thrown (TypeError_ "Cannot set properties of null (setting 'tabId')")).
Proof. reflexivity. Qed.

(** ** The engine as it is wired *)
Section Wiring.
Import AIEngine.
Context {W A : Type}.
Variable clock : W → Z * W.

(** The check and the record of [executeWithFallback], one after the
    other, are [tryAcquire] on the limiter of the provider, at the three
    clock readings they take. *)
Lemma gate_of_executeWithFallback p (s : state W A) rl :
  rateLimiters s !! p = Some rl →
  let r1 := clock (world s) in
  let r2 := clock r1.2 in
  let r3 := clock r2.2 in
  let pass := tryAcquire r1.1 r2.1 r3.1 rl in
  (ok ← limiter_canMakeRequest clock p;
   if (ok : bool) then limiter_recordRequest clock p;; mret true else mret false) s
  = (Normal pass.1,
     set_limiter p pass.2 (set_world (if pass.1 then r3.2 else r1.2) s)).
Proof.
  intros Hrl r1 r2 r3 pass.
  rewrite (bind_run_normal _ _ _ _ _ (limiter_canMakeRequest_run clock p s rl Hrl)).
  subst pass r3 r2 r1. unfold tryAcquire.
  destruct (clock (world s)) as [t1 w1]. cbn [fst snd].
  destruct (canMakeRequest t1 rl) as [ok rl1] eqn:Hcheck. cbn [fst snd].
  destruct ok; [|done].
  unfold limiter_recordRequest, limiter_of, now, external.
  unfold mbind, eff_bind, bind, get_state, modify, mret, eff_ret, ret. simpl.
  rewrite lookup_insert_eq. simpl.
  destruct (clock w1) as [t2 w2]. simpl. destruct (clock w2) as [t3 w3]. simpl.
  unfold set_limiter, set_world. simpl. by rewrite insert_insert_eq.
Qed.

(** [recordGeneration] is only ever called with the type "workflow", so no
    key of a provider is written: every provider keeps the rate 1/2 and
    the order without a preference is the declaration order. *)
Lemma recorded_generations_lookup history k :
  k ≠ "workflow:success" → k ≠ "workflow:failure" →
  recorded_generations history !! k = None.
Proof.
  intros Hs Hf. induction history as [|b history IH]; [done|].
  simpl. unfold recordGeneration. rewrite lookup_insert_ne; [exact IH|].
  by destruct b.
Qed.

Lemma ranking_is_declaration_order history :
  getProviderOrder (recorded_generations history) provider_names None = provider_names.
Proof.
  assert (Hrate : ∀ p, p ∈ provider_names →
            getSuccessRate (recorded_generations history) p = 1 # 2).
  { intros p Hp. unfold getSuccessRate.
    unfold provider_names in Hp.
    repeat (apply elem_of_cons in Hp as [->|Hp];
            [by rewrite !recorded_generations_lookup by done|]).
    by apply elem_of_nil in Hp. }
  assert (Hstay : ∀ a b, a ∈ provider_names → b ∈ provider_names →
            goes_after (by_rate (recorded_generations history)) a b = false).
  { intros a b Ha Hb. unfold goes_after, by_rate. by rewrite (Hrate a Ha), (Hrate b Hb). }
  unfold getProviderOrder, provider_names in *. cbn [js_sort sort_insert].
  rewrite (Hstay "huggingface" "openrouter") by (repeat constructor).
  cbn [sort_insert].
  rewrite (Hstay "groq" "huggingface") by (repeat constructor). done.
Qed.
End Wiring.

(** ** The scenarios of the specification, run on the model *)

(** Scenario A: only openrouter has a key; it is the only provider
    called, and its result is returned. *)
Example scenario_only_configured_provider :
  let run := AIEngine.executeWithFallback (λ w, (Z.of_nat w, w)) (λ _ w, w) groq_times_out
               ∅ AIEngine.provider_names None
               (engine_with_keys (<["openrouter" := "sk-or"]> ∅)) in
  run.1 = Normal "workflow by openrouter"
  ∧ AIEngine.trace run.2 = [AIEngine.EvOperation "openrouter"].
Proof. split; vm_compute; reflexivity. Qed.

(** Scenario B: groq times out on its three attempts, huggingface answers
    at the first call; its result is returned and the failure of groq is
    not surfaced. *)
Example scenario_fallback_after_timeouts :
  let run := AIEngine.executeWithFallback (λ w, (Z.of_nat w, w)) (λ _ w, w) groq_times_out
               ∅ AIEngine.provider_names None
               (engine_with_keys (<["groq" := "gsk"]> (<["huggingface" := "hf"]> ∅))) in
  run.1 = Normal "workflow by huggingface"
  ∧ AIEngine.trace run.2
    = [AIEngine.EvOperation "groq"; AIEngine.EvDelay 1000;
       AIEngine.EvOperation "groq"; AIEngine.EvDelay 2000;
       AIEngine.EvOperation "groq"; AIEngine.EvOperation "huggingface"].
Proof. split; vm_compute; reflexivity. Qed.

(** Scenario C: the condition of the second of three steps refers to a
    path that is not in the context; the step is skipped, the first and
    the third run. *)
Example scenario_undefined_path_skips :
  let s1 := a_step "s1" "click" None None in
  let s3 := a_step "s3" "click" None None in
  let run := ServiceWorker.executeWorkflow no_RegExp sample_clock sample_sleep sample_runner
               (ServiceWorker.mkWorkflow [s1; guarded_step; s3] Js.VUndefined)
               sample_execution in
  (∃ summary, run.1 = Normal summary
              ∧ ServiceWorker.summary_results summary
                = [ServiceWorker.Result "s1" (Js.VStr "done s1");
                   ServiceWorker.Skipped "s2";
                   ServiceWorker.Result "s3" (Js.VStr "done s3")])
  ∧ ServiceWorker.trace run.2
    = [ServiceWorker.EvExecuteStep s1; ServiceWorker.EvExecuteStep s3].
Proof. split; [eexists; split; vm_compute; reflexivity|vm_compute; reflexivity]. Qed.

(** Scenario D: a loop over the items 1, 2, 3 with one inner transform
    step yields the three sub-results in the order of the items. *)
Example scenario_loop_in_item_order :
  let inner := a_step "double" "transform" None None in
  let items := Js.VArr 8 [Js.VNum (Js.Int 1); Js.VNum (Js.Int 2); Js.VNum (Js.Int 3)] in
  let loop := ServiceWorker.mkStep "each" "loop" (Js.VObj 9 (<["items" := items]> ∅))
                None None None [inner] in
  let run := ServiceWorker.executeStep no_RegExp sample_sleep item_runner loop
               sample_execution in
  run.1 = Normal (Js.VArr 10 [Js.VNum (Js.Int 1); Js.VNum (Js.Int 2); Js.VNum (Js.Int 3)])
  ∧ ServiceWorker.trace run.2
    = [ServiceWorker.EvExecuteStep loop; ServiceWorker.EvExecuteStep inner;
       ServiceWorker.EvExecuteStep inner; ServiceWorker.EvExecuteStep inner].
Proof. split; vm_compute; reflexivity. Qed.

(** * Further properties of the engine and of the service worker *)

(** ** The schedule of [executeWithRetry] *)
Section RetrySchedule.
Import AIEngine.
Context {W A : Type}.
Variable sleep : Z → W → W.
Variable call : string → W → option (JsError + A) * W.

(** One attempt, whatever the provider does. *)
Lemma attempt_run p (s : state W A) :
  race_timeout (invoke call p) s
  = (match (call p (world s)).1 with
     | Some (inr a) => Normal a
     | r => Throw (Thrown (failure_of r))
     end,
     mkState (config s) (rateLimiters s) (apiKeys s) (cache s)
       (call p (world s)).2 (trace s ++ [EvOperation p])).
Proof.
  unfold race_timeout, invoke, emit, external.
  unfold mbind, eff_bind, bind, modify, mret, eff_ret, ret, throw. simpl.
  by destruct (call p (world s)) as [[[e|a]|] w].
Qed.

Lemma engine_kept_refl (s : state W A) : engine_kept s s.
Proof. by repeat split. Qed.

Lemma retry_loop_schedule p n : ∀ r i lastError (s : state W A),
  (i + r = n)%nat →
  let run := retry_loop sleep (invoke call p) n r i lastError s in
  ∃ k, (k ≤ r)%nat ∧ (r ≠ 0%nat → k ≠ 0%nat)
       ∧ trace run.2 = trace s ++ attempts p i k
       ∧ engine_kept s run.2
       ∧ (∀ t, run.1 = Throw t → k = r).
Proof.
  induction r as [|r IH]; intros i lastError s Hn run.
  - exists 0%nat. subst run. simpl. rewrite app_nil_r.
    repeat split; done.
  - subst run. cbn [retry_loop]. unfold try_catch. rewrite attempt_run.
    destruct (call p (world s)) as [res w] eqn:Hcall. cbn [fst snd].
    set (s1 := mkState _ _ _ _ w _).
    assert (Hok : ∀ a, ∃ k, (k ≤ S r)%nat ∧ (S r ≠ 0%nat → k ≠ 0%nat)
              ∧ trace s1 = trace s ++ attempts p i k
              ∧ engine_kept s s1
              ∧ (∀ t, @Normal A a = Throw t → k = S r)).
    { intros a. exists 1%nat. repeat split; try done; lia. }
    assert (Hfail : ∀ error,
              let run := ((if bool_decide (Z.of_nat i < Z.of_nat n - 1)
                           then delay sleep (backoff i) else mret tt) ≫= λ _,
                          retry_loop sleep (invoke call p) n r (S i) error) s1 in
              ∃ k, (k ≤ S r)%nat ∧ (S r ≠ 0%nat → k ≠ 0%nat)
                   ∧ trace run.2 = trace s ++ attempts p i k
                   ∧ engine_kept s run.2
                   ∧ (∀ t, run.1 = Throw t → k = S r)).
    { intros error run0. subst run0. destruct r as [|r'].
      - rewrite bool_decide_eq_false_2 by lia.
        exists 1%nat. simpl. repeat split; try done; lia.
      - rewrite bool_decide_eq_true_2 by lia.
        unfold mbind at 1, eff_bind at 1, bind at 1. rewrite delay_run.
        set (s2 := mkState _ _ _ _ _ _).
        destruct (IH (S i) error s2 ltac:(lia)) as (k & Hk & Hk0 & Htr & Hkept & Hthrow).
        exists (S k). split; [lia|]. split; [done|].
        split; [|split].
        + rewrite Htr. subst s2 s1. cbn [trace attempts].
          destruct k as [|k']; [by destruct Hk0|].
          by rewrite <- !(assoc_L (++)).
        + destruct Hkept as (H1 & H2 & H3 & H4). by repeat split.
        + intros t Ht. f_equal. by eapply Hthrow. }
    destruct res as [[e|a]|]; [apply Hfail|apply Hok|apply Hfail].
Qed.
End RetrySchedule.

(** X1.  Whatever the provider does, [executeWithRetry] with [maxRetries = n]
    makes [k] calls with [k ≤ n] (and at least one when [n] is not 0),
    waits 1000 * 2^i between call number [i] and the next one, and does
    nothing after its last call; it throws only after [n] calls, and right
    away with [undefined] when [n] is 0.  It changes neither the
    configuration, nor the limiters, the keys or the cache. *)
Theorem retry_schedule {W A : Type} (sleep : Z → W → W)
    (call : string → W → option (JsError + A) * W) (p : string) (n : nat)
    (s : AIEngine.state W A) :
  let run := AIEngine.executeWithRetry sleep (AIEngine.invoke call p) n s in
  ∃ k, (k ≤ n)%nat ∧ (n ≠ 0%nat → k ≠ 0%nat)
       ∧ AIEngine.trace run.2 = AIEngine.trace s ++ attempts p 0 k
       ∧ engine_kept s run.2
       ∧ (∀ t, run.1 = Throw t → k = n)
       ∧ (n = 0%nat → run.1 = Throw ThrownUndefined).
Proof.
  intros run.
  destruct (retry_loop_schedule sleep call p n n 0%nat ThrownUndefined s eq_refl)
    as (k & Hk & Hk0 & Htr & Hkept & Hthrow).
  exists k. repeat split; try done.
  - by destruct Hkept.
  - by destruct Hkept as (_ & ? & _).
  - by destruct Hkept as (_ & _ & ? & _).
  - by destruct Hkept as (_ & _ & _ & ?).
  - intros ->. done.
Qed.

(** ** One provider of [executeWithFallback] *)
Section FallbackIteration.
Import AIEngine.
Context {W A : Type}.
Variable clock : W → Z * W.
Variable sleep : Z → W → W.
Variable call : string → W → option (JsError + A) * W.

Local Abbreviation St := (state W A).
Local Abbreviation fallback_loop := (fallback_loop clock sleep call).

(** A provider that is refused by its limiter, or has no key, is passed
    over: the loop goes on with the next one, the log of the limiter
    cleaned up. *)
Lemma fallback_iteration_skipped p rest lastError (s : St) rl :
  rateLimiters s !! p = Some rl →
  (canMakeRequest (clock (world s)).1 rl).1 = false ∨ isConfigured p s = false →
  fallback_loop (p :: rest) lastError s
  = fallback_loop rest lastError
      (set_limiter p (cleanup (clock (world s)).1 rl) (set_world (clock (world s)).2 s)).
Proof.
  intros Hrl Hskip. cbn [AIEngine.fallback_loop].
  rewrite (bind_run_normal _ _ _ _ _ (limiter_canMakeRequest_run clock p s rl Hrl)).
  destruct (canMakeRequest (clock (world s)).1 rl) as [ok rl1] eqn:Hcheck.
  assert (rl1 = cleanup (clock (world s)).1 rl) as ->.
  { unfold canMakeRequest in Hcheck. by injection Hcheck as _ <-. }
  cbn [fst snd] in *. destruct ok; cbn [negb]; [|done].
  destruct Hskip as [?|Hkey]; [done|].
  unfold try_catch, mbind, eff_bind, bind, get_state. cbn.
  replace (isConfigured p (set_limiter _ _ _)) with (isConfigured p s) by done.
  by rewrite Hkey.
Qed.

(** A provider that is admitted and has a key is recorded in its limiter
    and attempted; what follows depends on how [executeWithRetry] ends. *)
Lemma fallback_iteration_attempted p rest lastError (s : St) rl :
  rateLimiters s !! p = Some rl →
  let r1 := clock (world s) in
  let r2 := clock r1.2 in
  let r3 := clock r2.2 in
  (canMakeRequest r1.1 rl).1 = true →
  isConfigured p s = true →
  fallback_loop (p :: rest) lastError s
  = match executeWithRetry sleep (invoke call p) (maxRetries (config s))
            (set_limiter p (tryAcquire r1.1 r2.1 r3.1 rl).2 (set_world r3.2 s)) with
    | (Normal a, s') => (Normal a, s')
    | (Throw (Thrown e), s') => fallback_loop rest (Some e) s'
    | (Throw ThrownUndefined, s') =>
        (Throw (Thrown (TypeError_
           "Cannot read properties of undefined (reading 'message')")), s')
    end.
Proof.
  intros Hrl r1 r2 r3 Hok Hkey. cbn [AIEngine.fallback_loop].
  rewrite (bind_run_normal _ _ _ _ _ (limiter_canMakeRequest_run clock p s rl Hrl)).
  subst r3 r2 r1. unfold tryAcquire.
  destruct (clock (world s)) as [t1 w1]. cbn [fst snd] in *.
  destruct (canMakeRequest t1 rl) as [ok rl1] eqn:Hcheck. cbn [fst snd] in *.
  subst ok. cbn [negb].
  unfold limiter_recordRequest, limiter_of, now, external.
  unfold try_catch, mbind, eff_bind, bind, get_state, modify, mret, eff_ret, ret.
  cbn.
  replace (isConfigured p (set_limiter _ _ _)) with (isConfigured p s) by done.
  rewrite Hkey. cbn.
  rewrite lookup_insert_eq. cbn.
  destruct (clock w1) as [t2 w2]. cbn. destruct (clock w2) as [t3 w3]. cbn.
  unfold set_limiter, set_world. cbn. rewrite insert_insert_eq.
  destruct (executeWithRetry _ _ _ _) as [[a|[e|]] s']; done.
Qed.

Lemma nothing_attempted_refl (s : St) : nothing_attempted s s.
Proof.
  repeat split; try done. intros p rl' Hrl. by exists rl'.
Qed.

Lemma nothing_attempted_trans (s1 s2 s3 : St) :
  nothing_attempted s1 s2 → nothing_attempted s2 s3 → nothing_attempted s1 s3.
Proof.
  intros (Ht1 & Hk1 & Hd1 & Hl1) (Ht2 & Hk2 & Hd2 & Hl2).
  split; [congruence|]. split; [congruence|]. split; [congruence|].
  intros p rl3 H3. destruct (Hl2 p rl3 H3) as (rl2 & H2 & Hsub2).
  destruct (Hl1 p rl2 H2) as (rl1 & H1 & Hsub1).
  exists rl1. split; [done|]. by etrans.
Qed.

Lemma nothing_attempted_cleanup p (s : St) rl t w :
  rateLimiters s !! p = Some rl →
  nothing_attempted s (set_limiter p (cleanup t rl) (set_world w s)).
Proof.
  intros Hrl. split; [done|]. split; [done|]. split.
  - cbn. by apply dom_insert_lookup_L.
  - intros q rl' Hq. cbn in Hq.
    destruct (decide (q = p)) as [->|Hne].
    + rewrite lookup_insert_eq in Hq. injection Hq as <-.
      exists rl. split; [done|]. cbn. apply sublist_filter.
    + rewrite lookup_insert_ne in Hq by done. by exists rl'.
Qed.

(** Providers without a key are never called and never recorded. *)
Lemma fallback_loop_unconfigured providers : ∀ lastError (s : St),
  (∀ p, p ∈ providers → is_Some (rateLimiters s !! p) ∧ isConfigured p s = false) →
  let run := fallback_loop providers lastError s in
  run.1 = Throw (Thrown (default (Error_ "All AI providers failed") lastError))
  ∧ nothing_attempted s run.2.
Proof.
  induction providers as [|p rest IH]; intros lastError s Hall run.
  - subst run. split; [done|]. apply nothing_attempted_refl.
  - destruct (Hall p) as [[rl Hrl] Hkey]; [by left|].
    subst run. rewrite (fallback_iteration_skipped p rest lastError s rl Hrl) by by right.
    pose proof (nothing_attempted_cleanup p s rl (clock (world s)).1 (clock (world s)).2 Hrl)
      as Hstep.
    set (s1 := set_limiter _ _ _) in *.
    destruct (IH lastError s1) as [Hres Hrel].
    { intros q Hq. destruct (Hall q) as [Hsome Hk]; [by right|].
      split; [|done].
      destruct Hstep as (_ & _ & Hdom & _).
      apply elem_of_dom. rewrite Hdom. by apply elem_of_dom. }
    split; [done|]. by eapply nothing_attempted_trans.
Qed.

Lemma getProviderOrder_elem requests order preferred p :
  p ∈ getProviderOrder requests order preferred → p ∈ order.
Proof.
  unfold getProviderOrder.
  assert (Hsort : p ∈ js_sort (by_rate requests) order → p ∈ order).
  { intros Hp. by rewrite js_sort_perm in Hp. }
  destruct preferred as [q|]; [|done].
  destruct (truthy_string q && bool_decide (q ∈ order)) eqn:E; [|done].
  apply andb_true_iff in E as [_ Hq%bool_decide_eq_true].
  intros [->|Hp%list_elem_of_filter]%elem_of_cons; [done|]. by destruct Hp.
Qed.
End FallbackIteration.

(** X2.  When no provider has an API key, [executeWithFallback] throws the
    error "All AI providers failed" without calling any provider and
    without recording a request in any limiter: the check for the key
    comes before [recordRequest]. *)
Theorem unconfigured_providers_are_not_called {W A : Type} (clock : W → Z * W)
    (sleep : Z → W → W) (call : string → W → option (JsError + A) * W)
    (requests : gmap string N) (order : list string) (preferred : option string)
    (s : AIEngine.state W A) :
  (∀ p, p ∈ order →
     is_Some (AIEngine.rateLimiters s !! p) ∧ AIEngine.isConfigured p s = false) →
  let run := AIEngine.executeWithFallback clock sleep call requests order preferred s in
  run.1 = Throw (Thrown (Error_ "All AI providers failed"))
  ∧ nothing_attempted s run.2.
Proof.
  intros Hall run. subst run. unfold AIEngine.executeWithFallback.
  apply (fallback_loop_unconfigured clock sleep call _ None).
  intros p Hp. apply Hall. by eapply getProviderOrder_elem.
Qed.

Lemma unconfigured_providers_are_not_called_witness :
  let run := AIEngine.executeWithFallback (λ w, (Z.of_nat w, S w)) (λ _ w, w)
               groq_times_out ∅ AIEngine.provider_names (Some "groq")
               (engine_with_keys ∅) in
  run.1 = Throw (Thrown (Error_ "All AI providers failed"))
  ∧ nothing_attempted (engine_with_keys ∅) run.2.
Proof.
  apply (unconfigured_providers_are_not_called (λ w, (Z.of_nat w, S w)) (λ _ w, w)
           groq_times_out ∅ AIEngine.provider_names (Some "groq") (engine_with_keys ∅)).
  intros p Hp. unfold AIEngine.provider_names in Hp.
  repeat (apply elem_of_cons in Hp as [->|Hp]; [split; [by eexists|reflexivity]|]).
  by apply elem_of_nil in Hp.
Defined.

(** ** How [executeWithFallback] ends *)
Section FallbackOutcome.
Import AIEngine.
Context {W A : Type}.
Variable clock : W → Z * W.
Variable sleep : Z → W → W.
Variable call : string → W → option (JsError + A) * W.

Local Abbreviation St := (state W A).
Local Abbreviation fallback_loop := (fallback_loop clock sleep call).

Lemma retry_first_success p n (s : St) a :
  n ≠ 0%nat →
  (call p (world s)).1 = Some (inr a) →
  executeWithRetry sleep (invoke call p) n s
  = (Normal a,
     mkState (config s) (rateLimiters s) (apiKeys s) (cache s)
       (call p (world s)).2 (trace s ++ [EvOperation p])).
Proof.
  intros Hn Hcall. destruct n as [|n]; [done|].
  unfold executeWithRetry. cbn [retry_loop]. unfold try_catch.
  rewrite attempt_run. by rewrite Hcall.
Qed.

(** A provider whose every call is rejected with [e] makes the retry loop
    throw [e], unless the loop has no iteration left. *)
Lemma retry_loop_rejected p e n :
  (∀ w, (call p w).1 = Some (inl e)) →
  ∀ r i lastError (s : St),
    (retry_loop sleep (invoke call p) n r i lastError s).1
    = Throw (match r with O => lastError | S _ => Thrown e end).
Proof.
  intros Hcall. induction r as [|r IH]; intros i lastError s; [done|].
  cbn [retry_loop]. unfold try_catch. rewrite attempt_run, Hcall.
  cbn [failure_of]. unfold mbind, eff_bind, bind.
  destruct (bool_decide _).
  - rewrite delay_run. rewrite IH. by destruct r.
  - cbn. rewrite IH. by destruct r.
Qed.

Lemma admitted_below_capacity t rl :
  Z.of_nat (length (requests rl)) < maxRequests rl →
  (canMakeRequest t rl).1 = true.
Proof.
  intros Hlen. unfold canMakeRequest. cbn.
  apply bool_decide_eq_true_2.
  pose proof (length_filter (λ time, t - time < windowMs rl) (requests rl)). lia.
Qed.

(** Every provider has a key, room in its limiter, and rejects every call
    with its own error: they are attempted in order, [maxRetries] times
    each, and the error left is that of the last one. *)
Lemma fallback_loop_exhausted (err : string → JsError) n
    (Hcall : ∀ p w, (call p w).1 = Some (inl (err p))) (Hn : n ≠ 0%nat) :
  ∀ providers lastError (s : St),
    NoDup providers →
    maxRetries (config s) = n →
    (∀ p, p ∈ providers →
       isConfigured p s = true
       ∧ ∃ rl, rateLimiters s !! p = Some rl
               ∧ Z.of_nat (length (requests rl)) < maxRequests rl) →
    let run := fallback_loop providers lastError s in
    run.1 = Throw (Thrown (default (default (Error_ "All AI providers failed") lastError)
                             (err <$> last providers)))
    ∧ trace run.2 = trace s ++ flat_map (λ p, attempts p 0 n) providers.
Proof.
  induction providers as [|p rest IH]; intros lastError s Hnodup Hmax Hall run.
  - subst run. cbn. by rewrite app_nil_r.
  - apply NoDup_cons in Hnodup as [Hp Hrest].
    destruct (Hall p) as (Hkey & rl & Hrl & Hroom); [by left|].
    subst run.
    rewrite (fallback_iteration_attempted clock sleep call p rest lastError s rl Hrl)
      by (done || by apply admitted_below_capacity).
    rewrite Hmax.
    set (s3 := set_limiter p _ _).
    pose proof (retry_loop_rejected p (err p) n (Hcall p) n 0%nat ThrownUndefined s3)
      as Hthrow.
    destruct (retry_loop_schedule sleep call p n n 0%nat ThrownUndefined s3 eq_refl)
      as (k & _ & _ & Htr & Hkept & Hk).
    fold (executeWithRetry sleep (invoke call p) n) in Hthrow, Htr, Hkept, Hk |- *.
    destruct (executeWithRetry sleep (invoke call p) n s3) as [res s4].
    cbn [fst snd] in *. subst res.
    destruct n as [|n']; [done|].
    rewrite (Hk _ eq_refl) in Htr.
    destruct Hkept as (Hcfg & Hlim & Hkeys & _).
    destruct (IH (Some (err p)) s4 Hrest) as [Hres Htrace].
    { by rewrite Hcfg. }
    { intros q Hq. destruct (Hall q) as (Hkq & rlq & Hrlq & Hroomq); [by right|].
      split.
      - unfold isConfigured in *. by rewrite Hkeys.
      - exists rlq. split; [|done]. rewrite Hlim. subst s3. cbn.
        rewrite lookup_insert_ne; [done|]. intros ->. done. }
    split.
    + rewrite Hres. destruct rest as [|q rest']; [done|].
      rewrite !last_cons. by destruct (last rest').
    + rewrite Htrace, Htr. subst s3. cbn [trace set_limiter set_world flat_map].
      by rewrite <- (assoc_L (++)).
Qed.

Lemma getProviderOrder_NoDup requests order preferred :
  NoDup order → NoDup (getProviderOrder requests order preferred).
Proof.
  intros Hnodup. unfold getProviderOrder.
  assert (Hsort : NoDup (js_sort (by_rate requests) order))
    by by rewrite js_sort_perm.
  destruct preferred as [q|]; [|done].
  destruct (truthy_string q && bool_decide (q ∈ order)); [|done].
  apply NoDup_cons. split; [|by apply NoDup_filter].
  intros Hq%list_elem_of_filter. by destruct Hq.
Qed.

Lemma getProviderOrder_nonempty requests order preferred :
  order ≠ [] → getProviderOrder requests order preferred ≠ [].
Proof.
  intros Hne. unfold getProviderOrder.
  assert (Hsort : js_sort (by_rate requests) order ≠ []).
  { intros E. pose proof (js_sort_perm requests order) as Hperm.
    rewrite E in Hperm. by apply Permutation_nil_l in Hperm. }
  destruct preferred as [q|]; [|done].
  by destruct (truthy_string q && bool_decide (q ∈ order)).
Qed.
End FallbackOutcome.

(** X3.  The first success ends [executeWithFallback].  When the preferred
    provider is admitted by its limiter, has a key, and resolves at its
    first call, the result is what it resolved with; the trace holds that
    one call and no other provider is called; one request is recorded, in
    the limiter of that provider. *)
Theorem first_success_short_circuits {W A : Type} (clock : W → Z * W)
    (sleep : Z → W → W) (call : string → W → option (JsError + A) * W)
    (requests : gmap string N) (order : list string) (p : string)
    (s : AIEngine.state W A) (rl : AIEngine.RateLimiter)
    (t1 t2 t3 : Z) (w1 w2 w3 : W) (a : A) :
  p ≠ "" → p ∈ order →
  AIEngine.rateLimiters s !! p = Some rl →
  clock (AIEngine.world s) = (t1, w1) → clock w1 = (t2, w2) → clock w2 = (t3, w3) →
  (AIEngine.canMakeRequest t1 rl).1 = true →
  AIEngine.isConfigured p s = true →
  AIEngine.maxRetries (AIEngine.config s) ≠ 0%nat →
  (call p w3).1 = Some (inr a) →
  AIEngine.executeWithFallback clock sleep call requests order (Some p) s
  = (Normal a,
     AIEngine.mkState (AIEngine.config s)
       (<[p := AIEngine.recordRequest t2 t3 (AIEngine.cleanup t1 rl)]>
          (AIEngine.rateLimiters s))
       (AIEngine.apiKeys s) (AIEngine.cache s) (call p w3).2
       (AIEngine.trace s ++ [AIEngine.EvOperation p])).
Proof.
  intros Hp Hin Hrl H1 H2 H3 Hok Hkey Hmax Hcall.
  unfold AIEngine.executeWithFallback, AIEngine.getProviderOrder, truthy_string.
  rewrite (bool_decide_eq_true_2 _ Hin).
  destruct (String.eqb_spec p ""); [done|]. cbn [negb andb].
  rewrite (fallback_iteration_attempted clock sleep call p _ None s rl Hrl);
    rewrite ?H1; cbn [fst snd]; rewrite ?H2; cbn [fst snd]; rewrite ?H3;
    cbn [fst snd]; try done.
  rewrite (retry_first_success sleep call p _ _ a Hmax) by done.
  unfold AIEngine.tryAcquire. unfold AIEngine.canMakeRequest in *. cbn in Hok.
  cbn. by rewrite Hok.
Qed.

Lemma first_success_short_circuits_witness :
  AIEngine.executeWithFallback ticking_clock (λ _ w, w) groq_times_out ∅
    AIEngine.provider_names (Some "openrouter") configured_engine
  = (Normal "workflow by openrouter",
     AIEngine.mkState AIEngine.default_config
       (<["openrouter" := AIEngine.mkLimiter 200 60000 [2]]>
          (AIEngine.rateLimiters configured_engine))
       (AIEngine.apiKeys configured_engine) [] 4%nat
       [AIEngine.EvOperation "openrouter"]).
Proof.
  apply (first_success_short_circuits ticking_clock (λ _ w, w) groq_times_out ∅
           AIEngine.provider_names "openrouter" configured_engine
           (AIEngine.newRateLimiter 200 60000) 0 1 2 1%nat 2%nat 3%nat
           "workflow by openrouter"); try reflexivity; try discriminate.
  unfold AIEngine.provider_names. repeat constructor.
Defined.

(** X4.  When every provider has a key and room in its limiter, and every
    call is rejected, [executeWithFallback] attempts the providers in
    their order, [maxRetries] times each on the schedule of
    [executeWithRetry], and throws the error of the last provider: the
    errors of the providers before it are dropped. *)
Theorem exhausted_providers_throw_the_last_error {W A : Type} (clock : W → Z * W)
    (sleep : Z → W → W) (call : string → W → option (JsError + A) * W)
    (err : string → JsError)
    (requests : gmap string N) (order : list string) (preferred : option string)
    (s : AIEngine.state W A) :
  order ≠ [] → NoDup order →
  AIEngine.maxRetries (AIEngine.config s) ≠ 0%nat →
  (∀ p w, (call p w).1 = Some (inl (err p))) →
  (∀ p, p ∈ order →
     AIEngine.isConfigured p s = true
     ∧ ∃ rl, AIEngine.rateLimiters s !! p = Some rl
             ∧ Z.of_nat (length (AIEngine.requests rl)) < AIEngine.maxRequests rl) →
  let providers := AIEngine.getProviderOrder requests order preferred in
  let run := AIEngine.executeWithFallback clock sleep call requests order preferred s in
  ∃ p, last providers = Some p
       ∧ run.1 = Throw (Thrown (err p))
       ∧ AIEngine.trace run.2
         = AIEngine.trace s
           ++ flat_map (λ p, attempts p 0 (AIEngine.maxRetries (AIEngine.config s)))
                providers.
Proof.
  intros Hne Hnodup Hmax Hcall Hall providers run.
  pose proof (getProviderOrder_nonempty requests order preferred Hne) as Hne'.
  fold providers in Hne'.
  destruct (last providers) as [p|] eqn:Hlast;
    [|by apply last_None in Hlast].
  exists p. split; [done|].
  destruct (fallback_loop_exhausted clock sleep call err _ Hcall Hmax providers None s)
    as [Hres Htr].
  - by apply getProviderOrder_NoDup.
  - done.
  - intros q Hq. apply Hall. by eapply getProviderOrder_elem.
  - rewrite Hlast in Hres. split; [exact Hres | exact Htr].
Qed.

Lemma exhausted_providers_throw_the_last_error_witness :
  let run := AIEngine.executeWithFallback ticking_clock (λ _ w, w) rejecting_call ∅
               AIEngine.provider_names (Some "openrouter") configured_engine in
  ∃ p, last ["openrouter"; "groq"; "huggingface"] = Some p
       ∧ run.1 = Throw (Thrown (provider_error p))
       ∧ AIEngine.trace run.2
         = [] ++ flat_map (λ p, attempts p 0 3) ["openrouter"; "groq"; "huggingface"].
Proof.
  apply (exhausted_providers_throw_the_last_error ticking_clock (λ _ w, w) rejecting_call
           provider_error ∅ AIEngine.provider_names (Some "openrouter") configured_engine).
  - discriminate.
  - unfold AIEngine.provider_names. compute_done.
  - discriminate.
  - reflexivity.
  - intros p Hp. unfold AIEngine.provider_names in Hp.
    repeat (apply elem_of_cons in Hp as [->|Hp];
            [split; [reflexivity|eexists; split; [reflexivity|simpl; lia]]|]).
    by apply elem_of_nil in Hp.
Defined.

(** ** The fallback without retries *)
Section WithoutRetries.
Import AIEngine.
Context {W A : Type}.
Variable clock : W → Z * W.
Variable sleep : Z → W → W.
Variable call : string → W → option (JsError + A) * W.

Local Abbreviation St := (state W A).
Local Abbreviation fallback_loop := (fallback_loop clock sleep call).

Lemma getProviderOrder_elem_of requests order preferred p :
  p ∈ getProviderOrder requests order preferred ↔ p ∈ order.
Proof.
  split; [apply getProviderOrder_elem|]. intros Hp.
  unfold getProviderOrder.
  assert (Hsort : p ∈ js_sort (by_rate requests) order) by by rewrite js_sort_perm.
  destruct preferred as [q|]; [|done].
  destruct (truthy_string q && bool_decide (q ∈ order)); [|done].
  destruct (decide (p = q)) as [->|Hne]; [by left|].
  right. by apply list_elem_of_filter.
Qed.

(** With [maxRetries = 0] the loop ends at the first provider that is
    admitted and has a key, with the error of reading the message of
    [undefined]; the providers before it are passed over. *)
Lemma fallback_loop_without_retries providers : ∀ lastError (s : St),
  maxRetries (config s) = 0%nat →
  (∀ p, p ∈ providers → is_Some (rateLimiters s !! p)) →
  let run := fallback_loop providers lastError s in
  trace run.2 = trace s
  ∧ ((run.1 = Throw (Thrown (default (Error_ "All AI providers failed") lastError))
      ∧ nothing_attempted s run.2)
     ∨ (run.1 = Throw (Thrown message_of_undefined)
        ∧ ∃ p, p ∈ providers ∧ isConfigured p s = true ∧ others_untried p s run.2))
  ∧ ((∃ p, p ∈ providers ∧ ready p s) → run.1 = Throw (Thrown message_of_undefined)).
Proof.
  induction providers as [|p rest IH]; intros lastError s Hmax Hall run.
  - subst run. split; [done|]. split.
    + left. split; [done|]. apply nothing_attempted_refl.
    + intros (p & Hp & _). by apply elem_of_nil in Hp.
  - destruct (Hall p) as [rl Hrl]; [by left|].
    destruct (decide ((canMakeRequest (clock (world s)).1 rl).1 = true
                      ∧ isConfigured p s = true)) as [[Hok Hkey]|Hskip].
    + subst run.
      rewrite (fallback_iteration_attempted clock sleep call p rest lastError s rl Hrl)
        by done.
      rewrite Hmax. cbn. split; [done|]. split; [|done].
      right. split; [done|]. exists p. split; [by left|]. split; [done|].
      intros q rl' Hq Hrl'. cbn in Hrl'. rewrite lookup_insert_ne in Hrl' by done.
      by exists rl'.
    + assert (Hor : (canMakeRequest (clock (world s)).1 rl).1 = false
                    ∨ isConfigured p s = false).
      { destruct (canMakeRequest _ rl).1; [|by left].
        destruct (isConfigured p s); [|by right]. by destruct Hskip. }
      subst run.
      rewrite (fallback_iteration_skipped clock sleep call p rest lastError s rl Hrl Hor).
      pose proof (nothing_attempted_cleanup p s rl (clock (world s)).1
                    (clock (world s)).2 Hrl) as Hstep.
      set (s1 := set_limiter _ _ _) in *.
      destruct Hstep as (Htr1 & Hkeys1 & Hdom1 & Hlim1).
      assert (Hcfg : ∀ q, isConfigured q s1 = isConfigured q s).
      { intros q. unfold isConfigured. by rewrite Hkeys1. }
      destruct (IH lastError s1) as (Htr & Hcases & Hready); [done| |].
      { intros q Hq. apply elem_of_dom. rewrite Hdom1. apply elem_of_dom, Hall.
        by right. }
      split; [congruence|]. split.
      * destruct Hcases as [[Hres Hnone]|(Hres & q & Hq & Hkq & Hothers)].
        -- left. split; [done|].
           by apply (nothing_attempted_trans s s1); [repeat split|].
        -- right. split; [done|]. exists q. split; [by right|].
           split; [by rewrite <- Hcfg|].
           intros q' rl' Hne Hrl'.
           destruct (Hothers q' rl' Hne Hrl') as (rl1 & Hrl1 & Hsub).
           destruct (Hlim1 q' rl1 Hrl1) as (rl0 & Hrl0 & Hsub0).
           exists rl0. split; [done|]. by etrans.
      * intros (q & Hq & Hkq & rlq & Hrlq & Hroom). apply Hready.
        assert (Hne : q ≠ p).
        { intros ->. rewrite Hrl in Hrlq. injection Hrlq as <-.
          destruct Hor as [Hno|Hno]; [|congruence].
          rewrite (admitted_below_capacity (clock (world s)).1 rl Hroom) in Hno.
          discriminate Hno. }
        exists q. split.
        { apply elem_of_cons in Hq as [?|?]; done. }
        split; [by rewrite Hcfg|].
        exists rlq. split; [|done]. subst s1. cbn. by rewrite lookup_insert_ne.
Qed.
End WithoutRetries.

(** X5.  With [maxRetries = 0] no provider is ever called, whatever the
    preference: the trace is unchanged.  The retry loop throws
    [undefined], the catch block of [executeWithFallback] reads
    [error.message] of it, and the [TypeError] of that read leaves the
    function at the first provider that is admitted by its limiter and
    has a key, no request being recorded for any other provider.  This is
    how the run ends as soon as some provider has a key and room in its
    limiter, and when the preferred provider is admitted and has a key;
    when every provider is passed over, the error is "All AI providers
    failed" and no request is recorded at all. *)
Theorem zero_retries_abort_the_fallback {W A : Type} (clock : W → Z * W)
    (sleep : Z → W → W) (call : string → W → option (JsError + A) * W)
    (requests : gmap string N) (order : list string) (preferred : option string)
    (s : AIEngine.state W A) :
  AIEngine.maxRetries (AIEngine.config s) = 0%nat →
  (∀ p, p ∈ order → is_Some (AIEngine.rateLimiters s !! p)) →
  let run := AIEngine.executeWithFallback clock sleep call requests order preferred s in
  AIEngine.trace run.2 = AIEngine.trace s
  ∧ ((run.1 = Throw (Thrown (Error_ "All AI providers failed"))
      ∧ nothing_attempted s run.2)
     ∨ (run.1 = Throw (Thrown message_of_undefined)
        ∧ ∃ p, p ∈ order ∧ AIEngine.isConfigured p s = true ∧ others_untried p s run.2))
  ∧ ((∃ p, p ∈ order ∧ ready p s) → run.1 = Throw (Thrown message_of_undefined))
  ∧ (∀ p rl,
       preferred = Some p → p ≠ "" → p ∈ order →
       AIEngine.rateLimiters s !! p = Some rl →
       (AIEngine.canMakeRequest (clock (AIEngine.world s)).1 rl).1 = true →
       AIEngine.isConfigured p s = true →
       run.1 = Throw (Thrown message_of_undefined)).
Proof.
  intros Hmax Hall run. subst run. unfold AIEngine.executeWithFallback.
  destruct (fallback_loop_without_retries clock sleep call
              (AIEngine.getProviderOrder requests order preferred) None s Hmax)
    as (Htr & Hcases & Hready).
  { intros p Hp. apply Hall. by eapply getProviderOrder_elem. }
  split; [exact Htr|]. split; [|split].
  - destruct Hcases as [Hnone|(Hres & p & Hp & Hkey & Hothers)]; [by left|].
    right. split; [done|]. exists p. split; [|done]. by eapply getProviderOrder_elem.
  - intros (p & Hp & Hr). apply Hready. exists p. split; [|done].
    by apply getProviderOrder_elem_of.
  - intros p rl -> Hp Hin Hrl Hok Hkey.
    unfold AIEngine.getProviderOrder, truthy_string.
    rewrite (bool_decide_eq_true_2 _ Hin).
    destruct (String.eqb_spec p ""); [done|]. cbn [negb andb].
    rewrite (fallback_iteration_attempted clock sleep call p _ None s rl Hrl) by done.
    rewrite Hmax. done.
Qed.

(** With no preference, which is how [extractPatterns] and
    [optimizeWorkflow] call it, and a key for every provider, the run ends
    with the [TypeError] and nothing is called. *)
Lemma zero_retries_abort_the_fallback_witness :
  let run := AIEngine.executeWithFallback ticking_clock (λ _ w, w) groq_times_out ∅
               AIEngine.provider_names None engine_without_retries in
  run.1 = Throw (Thrown message_of_undefined)
  ∧ AIEngine.trace run.2 = AIEngine.trace engine_without_retries.
Proof.
  destruct (zero_retries_abort_the_fallback ticking_clock (λ _ w, w) groq_times_out ∅
              AIEngine.provider_names None engine_without_retries)
    as (Htrace & _ & Hready & _).
  - reflexivity.
  - intros p Hp. unfold AIEngine.provider_names in Hp.
    repeat (apply elem_of_cons in Hp as [->|Hp]; [by eexists|]).
    by apply elem_of_nil in Hp.
  - split; [|exact Htrace]. apply Hready. exists "groq". split.
    + unfold AIEngine.provider_names. by left.
    + split; [reflexivity|]. eexists. split; [reflexivity|]. cbn. lia.
Defined.

(** ** The order of the cache *)
Section CacheOrder.
Import AIEngine.
Context {V : Type}.
Implicit Types (m : list (string * V)) (key k : string).

Lemma map_get_None key m : map_get key m = None ↔ key ∉ m.*1.
Proof.
  induction m as [|[k v] m IH]; simpl.
  - split; [intros _; apply not_elem_of_nil|done].
  - rewrite not_elem_of_cons, <- IH.
    destruct (String.eqb_spec k key) as [->|Hne]; split; try done.
    + by intros [? _].
    + intros [_ ?]. done.
Qed.

Lemma map_set_new key (v : V) m :
  map_get key m = None → map_set key v m = m ++ [(key, v)].
Proof.
  induction m as [|[k v'] m IH]; simpl; [done|].
  destruct (String.eqb k key); [done|]. intros H. by rewrite IH.
Qed.

Lemma map_set_keys key (v : V) m :
  map_get key m ≠ None → (map_set key v m).*1 = m.*1.
Proof.
  induction m as [|[k v'] m IH]; simpl; [done|].
  destruct (String.eqb k key); [done|]. intros H. cbn. by rewrite IH.
Qed.

Lemma map_set_present_length key (v : V) m :
  map_get key m ≠ None → length (map_set key v m) = length m.
Proof.
  intros H. rewrite <- (length_fmap fst), map_set_keys by done. apply length_fmap.
Qed.

Lemma map_delete_absent key m : key ∉ m.*1 → map_delete key m = m.
Proof.
  intros Hk. unfold map_delete. apply filter_all, Forall_forall.
  intros [k v] Hin Hkey. cbn in Hkey. subst k.
  apply Hk. apply list_elem_of_fmap. by exists (key, v).
Qed.

Lemma map_delete_head key (v : V) m :
  key ∉ m.*1 → map_delete key ((key, v) :: m) = m.
Proof.
  intros Hk. unfold map_delete. rewrite filter_cons. simpl.
  destruct (decide (key ≠ key)); [done|]. by apply map_delete_absent.
Qed.
End CacheOrder.

(** X6.  The cache is first in, first out.  [setCache] under a new key
    appends the entry; at a hundred entries it then drops the oldest one
    and keeps all the others in their order.  [setCache] under a key that
    is present replaces the entry where it stands: the key keeps its age
    in the eviction order, and nothing is evicted. *)
Theorem cache_is_first_in_first_out {W A : Type} (clock : W → Z * W)
    (s : AIEngine.state W A) (k : string) (v : A) :
  NoDup (AIEngine.cache s).*1 →
  let entry := AIEngine.mkEntry v (clock (AIEngine.world s)).1 in
  let after := AIEngine.cache (AIEngine.setCache clock k v s).2 in
  (AIEngine.map_get k (AIEngine.cache s) = None →
   after = (if bool_decide (length (AIEngine.cache s) < 100)%nat
            then AIEngine.cache s else tail (AIEngine.cache s)) ++ [(k, entry)])
  ∧ (AIEngine.map_get k (AIEngine.cache s) ≠ None →
     (length (AIEngine.cache s) ≤ 100)%nat →
     after.*1 = (AIEngine.cache s).*1 ∧ AIEngine.map_get k after = Some entry).
Proof.
  intros Hnodup entry after. subst after. rewrite setCache_run. cbn [AIEngine.cache
    AIEngine.set_cache]. fold entry. split.
  - intros Hnew. rewrite (map_set_new k entry _ Hnew), length_app. cbn [length].
    case_bool_decide as Hfull; case_bool_decide as Hroom; try lia; [|done].
    destruct (AIEngine.cache s) as [|[k0 e0] m0]; [simpl in *; lia|].
    cbn [app AIEngine.map_first_key tail].
    apply map_delete_head.
    apply NoDup_cons in Hnodup as [Hk0 _]. cbn in Hk0.
    rewrite fmap_app, elem_of_app. intros [?|Hk%list_elem_of_singleton]; [done|].
    cbn in Hk. subst k0. cbn in Hnew. by rewrite String.eqb_refl in Hnew.
  - intros Hold Hlen.
    rewrite bool_decide_eq_false_2
      by (rewrite (map_set_present_length k entry _ Hold); lia).
    split; [by apply map_set_keys | apply map_get_set].
Qed.

Lemma cache_is_first_in_first_out_witness :
  AIEngine.cache (AIEngine.setCache (λ w, (w, w)) "workflow:new" "fresh workflow"
                    full_cache_state).2
  = tail full_cache ++ [("workflow:new", AIEngine.mkEntry "fresh workflow" 5000)].
Proof.
  destruct (cache_is_first_in_first_out (λ w, (w, w)) full_cache_state
              "workflow:new" "fresh workflow") as [Hnew _].
  - compute_done.
  - apply Hnew. vm_compute. reflexivity.
Defined.

(** ** What a limiter reports *)
Section LimiterReports.
Import AIEngine.

Lemma cleanup_cleanup t rl : cleanup t (cleanup t rl) = cleanup t rl.
Proof.
  unfold cleanup. cbn. f_equal.
  apply filter_all, Forall_forall. intros a Ha%list_elem_of_filter. by destruct Ha.
Qed.

Lemma cleanup_recorded t rl :
  0 < windowMs rl →
  requests (cleanup t (recordRequest t t rl)) = requests (cleanup t rl) ++ [t].
Proof.
  intros Hw. unfold recordRequest, cleanup. cbn.
  rewrite filter_app, filter_cons, filter_nil, decide_True by lia.
  f_equal. apply filter_all, Forall_forall. intros a Ha%list_elem_of_filter.
  by destruct Ha.
Qed.

Lemma run_gate_remaining t (m : nat) : ∀ rl,
  0 < windowMs rl →
  (run_gate (replicate m (t, t, t)) rl).1.1
  = replicate (m `min` Z.to_nat (getRemaining t rl).1) true
    ++ replicate (m - Z.to_nat (getRemaining t rl).1) false.
Proof.
  induction m as [|m IH]; intros rl Hw; [done|].
  cbn [replicate run_gate]. unfold tryAcquire, canMakeRequest.
  cbn [fst snd].
  set (c := Z.of_nat (length (requests (cleanup t rl)))).
  assert (Hrem : (getRemaining t rl).1 = Z.max 0 (maxRequests rl - c)) by done.
  rewrite Hrem. cbn [maxRequests cleanup].
  case_bool_decide as Hroom.
  - specialize (IH (recordRequest t t (cleanup t rl)) Hw).
    destruct (run_gate _ _) as [[oks admitted] rl2]. cbn [fst snd] in *.
    rewrite IH. unfold getRemaining. cbn [fst].
    rewrite cleanup_recorded by done. rewrite cleanup_cleanup.
    rewrite length_app. cbn [length maxRequests cleanup recordRequest].
    fold c.
    replace (Z.to_nat (Z.max 0 (maxRequests rl - c)))
      with (S (Z.to_nat (Z.max 0 (maxRequests rl - Z.of_nat (length (requests (cleanup t rl)) + 1)))))
      by (fold c; lia).
    done.
  - specialize (IH (cleanup t rl) Hw).
    destruct (run_gate _ _) as [[oks admitted] rl2]. cbn [fst snd] in *.
    rewrite IH. unfold getRemaining. cbn [fst]. rewrite cleanup_cleanup.
    cbn [maxRequests cleanup]. fold c.
    replace (Z.to_nat (Z.max 0 (maxRequests rl - c))) with 0%nat by lia.
    rewrite Nat.min_0_r, !Nat.sub_0_r. done.
Qed.
End LimiterReports.

(** X7.  [getRemaining] is the number of requests the gate still admits:
    of [m] passes through [canMakeRequest] and [recordRequest] made at
    the clock reading at which [getRemaining] returned [n], the first [n]
    are admitted and all the others refused. *)
Theorem remaining_is_what_the_gate_admits (rl : AIEngine.RateLimiter) (t : Z) (m : nat) :
  0 < AIEngine.windowMs rl →
  let n := Z.to_nat (AIEngine.getRemaining t rl).1 in
  (AIEngine.run_gate (replicate m (t, t, t)) rl).1.1
  = replicate (m `min` n) true ++ replicate (m - n) false.
Proof. intros Hw n. by apply run_gate_remaining. Qed.

Lemma remaining_is_what_the_gate_admits_witness :
  (AIEngine.getRemaining 2500 busy_limiter).1 = 1
  ∧ (AIEngine.run_gate (replicate 3 (2500, 2500, 2500)) busy_limiter).1.1
    = [true; false; false].
Proof.
  split; [reflexivity|].
  apply (remaining_is_what_the_gate_admits busy_limiter 2500 3). reflexivity.
Defined.

(** X8.  [getResetTime] is the instant at which a full limiter admits
    again.  With a log in the order of the clock that holds [maxRequests]
    entries, [canMakeRequest] is false at every reading before the oldest
    entry plus [windowMs], and true from that reading on. *)
Theorem full_limiter_reopens_at_reset_time (rl : AIEngine.RateLimiter)
    (first : Z) (rest : list Z) :
  AIEngine.requests rl = first :: rest →
  StronglySorted Z.le (AIEngine.requests rl) →
  Z.of_nat (length (AIEngine.requests rl)) = AIEngine.maxRequests rl →
  AIEngine.getResetTime rl = Some (first + AIEngine.windowMs rl)
  ∧ ∀ t, (AIEngine.canMakeRequest t rl).1
         = bool_decide (first + AIEngine.windowMs rl ≤ t).
Proof.
  intros Hlog Hsorted Hfull. split; [unfold AIEngine.getResetTime; by rewrite Hlog|].
  intros t. unfold AIEngine.canMakeRequest, AIEngine.cleanup. cbn.
  rewrite Hlog in *. apply StronglySorted_inv in Hsorted as [_ Hfirst].
  destruct (decide (first + AIEngine.windowMs rl ≤ t)) as [Hopen|Hshut].
  - rewrite (bool_decide_eq_true_2 (first + _ ≤ t)) by done.
    apply bool_decide_eq_true_2.
    rewrite filter_cons, decide_False by lia.
    pose proof (length_filter (λ time, t - time < AIEngine.windowMs rl) rest).
    cbn [length] in Hfull. lia.
  - rewrite (bool_decide_eq_false_2 (first + _ ≤ t)) by done.
    apply bool_decide_eq_false_2.
    rewrite filter_all; [lia|].
    constructor; [lia|]. eapply Forall_impl; [exact Hfirst|]. intros a Ha. cbn in *. lia.
Qed.

Lemma full_limiter_reopens_at_reset_time_witness :
  AIEngine.getResetTime full_limiter = Some 61000
  ∧ (AIEngine.canMakeRequest 60999 full_limiter).1 = false
  ∧ (AIEngine.canMakeRequest 61000 full_limiter).1 = true.
Proof.
  destruct (full_limiter_reopens_at_reset_time full_limiter 1000 [2000])
    as [Hreset Hgate].
  - reflexivity.
  - repeat constructor; lia.
  - reflexivity.
  - split; [exact Hreset|]. split; rewrite Hgate; reflexivity.
Defined.

(** ** Loops *)
Section Loops.
Import Js ServiceWorker.
Context {W : Type}.
Variable RegExp : string → option (string → bool).
Variable sleep : value → W → W.
Variable runner : Step → gmap string value → W → (JsError + value) * W.

Local Abbreviation St := (state W).
Local Abbreviation executeStep := (executeStep RegExp sleep runner).

Lemma loop_steps_length (exec : Step → Eff St value) steps :
  ∀ acc (s s' : St) r,
    loop_steps exec steps acc s = (Normal r, s') →
    length r = (length acc + length steps)%nat.
Proof.
  induction steps as [|st steps IH]; intros acc s s' r; cbn [loop_steps].
  - intros [= <- <-]. cbn. lia.
  - unfold mbind, eff_bind, bind. destruct (exec st s) as [[v|t] s1]; [|done].
    intros Hrun. apply IH in Hrun. rewrite length_app in Hrun. cbn in *. lia.
Qed.

Lemma loop_items_length (exec : Step → Eff St value) variable steps items :
  ∀ acc (s s' : St) r,
    loop_items exec variable steps items acc s = (Normal r, s') →
    length r = (length acc + length items * length steps)%nat.
Proof.
  induction items as [|item items IH]; intros acc s s' r; cbn [loop_items].
  - intros [= <- <-]. cbn. lia.
  - unfold mbind at 1, eff_bind at 1, bind at 1. cbn.
    unfold mbind, eff_bind, bind.
    destruct (loop_steps exec steps acc _) as [[r1|t] s1] eqn:Hsteps; [|done].
    apply loop_steps_length in Hsteps.
    intros Hrun. apply IH in Hrun. cbn. lia.
Qed.

Lemma executeStep_loop step (s : St) :
  step_type step = "loop" →
  executeStep step s
  = executeLoop executeStep (action step) (inner step)
      (ServiceWorker.emit (EvExecuteStep step) s).2.
Proof.
  intros Htype. destruct step as [id type act conds eh store inn]. cbn in Htype.
  subst type. reflexivity.
Qed.

Lemma get_defined v key key' r :
  get v key = Normal r → ∃ r', get v key' = Normal r'.
Proof.
  destruct v; cbn; try done; intros _; eauto.
  - destruct (String.eqb key' "length"); eauto.
  - destruct (String.eqb key' "length"); eauto.
Qed.

Lemma destructure_Normal name v key r :
  destructure name v key = Normal r ↔ get v key = Normal r.
Proof. by destruct v. Qed.

Lemma executeLoop_throws (exec : Step → Eff St value) act st rest collection
    item items t (s : St) :
  get act "items" = Normal collection →
  iterate collection = Normal (item :: items) →
  (∀ s0, (exec st s0).1 = Throw t) →
  (executeLoop exec act (st :: rest) s).1 = Throw t.
Proof.
  intros Hitems Hiter Hthrow. unfold executeLoop.
  destruct (get_defined act "items" "variable" _ Hitems) as [var Hvar].
  apply (destructure_Normal "action") in Hitems.
  unfold lift, alloc, mbind, eff_bind, bind. rewrite Hitems, Hvar, Hiter.
  cbn [loop_items loop_steps]. unfold mbind, eff_bind, bind. cbn.
  match goal with |- context [exec st ?s0] =>
    specialize (Hthrow s0); destruct (exec st s0) as [[v|t'] s1] end;
    cbn in Hthrow; [done|]. by injection Hthrow as ->.
Qed.
End Loops.

(** X9.  A loop step that returns has collected one result for every item
    and inner step: its value is an array of as many results as there are
    items times inner steps. *)
Theorem loop_collects_a_result_per_item_and_step {W : Type}
    (RegExp : string → option (string → bool)) (sleep : Js.value → W → W)
    (runner : ServiceWorker.Step → gmap string Js.value → W → (JsError + Js.value) * W)
    (step : ServiceWorker.Step) (s s' : ServiceWorker.state W) (v : Js.value) :
  ServiceWorker.step_type step = "loop" →
  ServiceWorker.executeStep RegExp sleep runner step s = (Normal v, s') →
  ∃ collection items a results,
    Js.get (ServiceWorker.action step) "items" = Normal collection
    ∧ ServiceWorker.iterate collection = Normal items
    ∧ v = Js.VArr a results
    ∧ length results = (length items * length (ServiceWorker.inner step))%nat.
Proof.
  intros Htype. rewrite executeStep_loop by done.
  unfold ServiceWorker.executeLoop.
  unfold lift, ServiceWorker.alloc, mbind, eff_bind, bind.
  destruct (Js.destructure "action" (ServiceWorker.action step) "items")
    as [collection|t] eqn:Hitems; [|done].
  apply destructure_Normal in Hitems.
  destruct (Js.get (ServiceWorker.action step) "variable") as [variable|t]; [|done].
  destruct (ServiceWorker.iterate collection) as [items|t] eqn:Hiter; [|done].
  destruct (ServiceWorker.loop_items _ _ _ _ _ _) as [[results|t] s1] eqn:Hloop; [|done].
  apply loop_items_length in Hloop.
  unfold mret, eff_ret, ret. intros [= <- <-].
  exists collection, items. by eexists _, _.
Qed.

Lemma loop_collects_a_result_per_item_and_step_witness :
  ∃ collection items a results,
    Js.get (ServiceWorker.action
              (loop_over [Js.VNum (Js.Int 1); Js.VNum (Js.Int 2); Js.VNum (Js.Int 3)]
                 [a_step "double" "transform" None None; a_step "save" "api" None None]))
      "items" = Normal collection
    ∧ ServiceWorker.iterate collection = Normal items
    ∧ Js.VArr 10 [Js.VNum (Js.Int 1); Js.VNum (Js.Int 1);
                   Js.VNum (Js.Int 2); Js.VNum (Js.Int 2);
                   Js.VNum (Js.Int 3); Js.VNum (Js.Int 3)] = Js.VArr a results
    ∧ length results = (length items * 2)%nat.
Proof.
  apply (loop_collects_a_result_per_item_and_step no_RegExp sample_sleep item_runner
           (loop_over [Js.VNum (Js.Int 1); Js.VNum (Js.Int 2); Js.VNum (Js.Int 3)]
              [a_step "double" "transform" None None; a_step "save" "api" None None])
           sample_execution
           (ServiceWorker.executeStep no_RegExp sample_sleep item_runner
              (loop_over [Js.VNum (Js.Int 1); Js.VNum (Js.Int 2); Js.VNum (Js.Int 3)]
                 [a_step "double" "transform" None None; a_step "save" "api" None None])
              sample_execution).2).
  - reflexivity.
  - vm_compute. reflexivity.
Defined.

(** X10.  [executeLoop] applies neither the conditions nor the error
    handling of an inner step: when the first inner step throws, the loop
    step throws the same error at its first item, whatever that inner step
    declares. *)
Theorem loop_applies_no_error_handling {W : Type}
    (RegExp : string → option (string → bool)) (sleep : Js.value → W → W)
    (runner : ServiceWorker.Step → gmap string Js.value → W → (JsError + Js.value) * W)
    (step st : ServiceWorker.Step) (rest : list ServiceWorker.Step)
    (collection item : Js.value) (items : list Js.value) (t : thrown)
    (s : ServiceWorker.state W) :
  ServiceWorker.step_type step = "loop" →
  ServiceWorker.inner step = st :: rest →
  Js.get (ServiceWorker.action step) "items" = Normal collection →
  ServiceWorker.iterate collection = Normal (item :: items) →
  (∀ s0, (ServiceWorker.executeStep RegExp sleep runner st s0).1 = Throw t) →
  (ServiceWorker.executeStep RegExp sleep runner step s).1 = Throw t.
Proof.
  intros Htype Hinner Hitems Hiter Hthrow.
  rewrite executeStep_loop by done. rewrite Hinner.
  by eapply executeLoop_throws.
Qed.

Lemma loop_applies_no_error_handling_witness :
  (ServiceWorker.executeStep no_RegExp sample_sleep sample_runner
     (loop_over [Js.VNum (Js.Int 1)] [lenient_alert]) sample_execution).1
  = Throw (Thrown (Error_ "Unknown step type: alert")).
Proof.
  apply (loop_applies_no_error_handling no_RegExp sample_sleep sample_runner
           (loop_over [Js.VNum (Js.Int 1)] [lenient_alert]) lenient_alert []
           (Js.VArr 8 [Js.VNum (Js.Int 1)]) (Js.VNum (Js.Int 1)) []);
    try reflexivity.
Defined.

(** ** Step types without a case *)
Section UnhandledTypes.
Import Js ServiceWorker.
Context {W : Type}.
Variable RegExp : string → option (string → bool).
Variable sleep : value → W → W.
Variable runner : Step → gmap string value → W → (JsError + value) * W.

Lemma executeStep_unhandled step (s : state W) :
  step_type step ∉ handled_step_types →
  executeStep RegExp sleep runner step s
  = (Throw (Thrown (Error_ ("Unknown step type: " +:+ step_type step))),
     (ServiceWorker.emit (EvExecuteStep step) s).2).
Proof.
  intros Hnot. destruct step as [id type act conds eh store inn]. cbn in *.
  unfold handled_step_types in Hnot.
  repeat (apply not_elem_of_cons in Hnot as [? Hnot]).
  unfold mbind, eff_bind, bind. cbn.
  unfold served_by_runner. rewrite bool_decide_eq_false_2.
  - by rewrite !(proj2 (String.eqb_neq _ _)) by done.
  - intros Hin. repeat (apply elem_of_cons in Hin as [?|Hin]; [done|]).
    by apply elem_of_nil in Hin.
Qed.
End UnhandledTypes.

(** X11.  A step whose type is none of the nine that [executeStep] has a
    case for, "alert" among them, is not executed: [executeStep] throws
    "Unknown step type: <type>" without consulting any collaborator.  Under
    the default error handling the loop of [executeWorkflow] records that
    message for the step and pushes it on [execution.errors].  The step of
    the placeholder workflow of [createFallbackWorkflow] is such a
    step. *)
Theorem unhandled_step_type_is_recorded_as_an_error {W : Type}
    (RegExp : string → option (string → bool)) (sleep : Js.value → W → W)
    (runner : ServiceWorker.Step → gmap string Js.value → W → (JsError + Js.value) * W)
    (step : ServiceWorker.Step) (s : ServiceWorker.state W)
    (a : nat) (items : list Js.value) :
  ServiceWorker.step_type step ∉ handled_step_types →
  ServiceWorker.conditions_fail RegExp step s = false →
  ServiceWorker.errorHandling step ≠ Some "fail" →
  ServiceWorker.errorHandling step ≠ Some "retry" →
  ServiceWorker.execution s !! "errors" = Some (Js.VArr a items) →
  let message := "Unknown step type: " +:+ ServiceWorker.step_type step in
  let entered := (ServiceWorker.emit (ServiceWorker.EvExecuteStep step) s).2 in
  ServiceWorker.executeStep RegExp sleep runner step s
  = (Throw (Thrown (Error_ message)), entered)
  ∧ ServiceWorker.try_step RegExp sleep runner step s
    = (Normal false,
       error_logged (ServiceWorker.step_id step) message a items
         (recorded (ServiceWorker.Failed (ServiceWorker.step_id step) message) entered)).
Proof.
  intros Hnot Hpass Hf Hr Herr message entered.
  pose proof (executeStep_unhandled RegExp sleep runner step s Hnot) as Hexec.
  split; [exact Hexec|].
  rewrite (try_step_throws RegExp sleep runner step s _ _ Hpass Hexec).
  by apply handle_default.
Qed.

Lemma unhandled_step_type_is_recorded_as_an_error_witness :
  let message := "Unknown step type: alert" in
  let entered := (ServiceWorker.emit (ServiceWorker.EvExecuteStep alert_step)
                    sample_execution).2 in
  ServiceWorker.executeStep no_RegExp sample_sleep sample_runner alert_step sample_execution
  = (Throw (Thrown (Error_ message)), entered)
  ∧ ServiceWorker.try_step no_RegExp sample_sleep sample_runner alert_step sample_execution
    = (Normal false,
       error_logged "step_1" message 4 []
         (recorded (ServiceWorker.Failed "step_1" message) entered)).
Proof.
  apply (unhandled_step_type_is_recorded_as_an_error no_RegExp sample_sleep sample_runner
           alert_step sample_execution 4 []); try reflexivity; try discriminate.
  unfold handled_step_types. compute_done.
Defined.

(** ** One record for every step *)
#[global] Instance results_kept_preorder {W} : PreOrder (@results_kept W).
Proof.
  split; [by intros s|].
  intros s1 s2 s3 [H1 H1'] [H2 H2']. split; congruence.
Qed.

#[global] Hint Resolve results_kept_preorder : respects.

Section Records.
Import Js ServiceWorker.
Context {W : Type}.
Variable RegExp : string → option (string → bool).
Variable sleep : value → W → W.
Variable runner : Step → gmap string value → W → (JsError + value) * W.

Local Abbreviation St := (state W).
Local Abbreviation executeStep := (executeStep RegExp sleep runner).

Lemma kept_emit e : respects results_kept (ServiceWorker.emit e : Eff St unit).
Proof. by intros s. Qed.

Lemma kept_external {B} (f : W → B * W) :
  respects results_kept (ServiceWorker.external f : Eff St B).
Proof. intros s. unfold ServiceWorker.external. by destruct (f (world s)). Qed.

Lemma kept_alloc : respects results_kept (alloc : Eff St nat).
Proof. by intros s. Qed.

Lemma kept_assign name v :
  name ≠ "results" → respects results_kept (assign name v : Eff St unit).
Proof. intros Hne s. split; [|done]. cbn. by rewrite lookup_insert_ne. Qed.

Lemma kept_await f : respects results_kept (await f : Eff St value).
Proof.
  unfold await. rbind; [apply kept_external|]. intros [e|v]; respects.
Qed.

Lemma kept_delay ms : respects results_kept (ServiceWorker.delay sleep ms : Eff St unit).
Proof.
  unfold ServiceWorker.delay. rbind; [apply kept_emit|]. intros _. apply kept_external.
Qed.

Lemma kept_executeLoop (exec : Step → Eff St value) act inn :
  loop_variable act ≠ "results" →
  Forall (λ st, respects results_kept (exec st)) inn →
  respects results_kept (executeLoop exec act inn).
Proof.
  intros Hvar IH.
  assert (Hsteps : ∀ results, respects results_kept (loop_steps exec inn results)).
  { induction IH as [|st inn' Hst _ IHinn]; intros results; simpl; [respects|].
    rbind; [exact Hst|]. intros r. apply IHinn. }
  assert (Hitems : ∀ items results,
            respects results_kept
              (loop_items exec (loop_variable act) inn items results)).
  { induction items as [|item items IHitems]; intros results; simpl; [respects|].
    rbind; [by apply kept_assign|]. intros _.
    rbind; [apply Hsteps|]. intros results'. apply IHitems. }
  unfold executeLoop, loop_variable in *.
  rbind; [respects|]. intros items.
  intros s. unfold lift, mbind, eff_bind, bind.
  destruct (get act "variable") as [variable|t]; [|reflexivity].
  cbn.
  destruct (iterate items) as [items'|t]; [|done].
  match goal with |- context [loop_items exec ?name inn items' [] ?s1] =>
    pose proof (Hitems items' [] s1) as Hm;
    destruct (loop_items exec name inn items' [] s1) as [[r|t] s2]
  end; cbn in *; (etrans; [|exact Hm]); done.
Qed.

Lemma kept_executeStep step :
  "results" ∉ loop_variables step → respects results_kept (executeStep step).
Proof.
  induction step as [step IH] using Step_nested_ind.
  destruct step as [id type act conds eh sa inn]. cbn [ServiceWorker.executeStep]. simpl in *.
  intros Hvars.
  rbind; [apply kept_emit|]. intros _.
  destruct (served_by_runner type).
  { rbind; [respects|]. intros s. apply kept_await. }
  destruct (String.eqb type "wait").
  { rbind; [respects|]. intros timeout. rbind; [apply kept_delay|]. respects. }
  destruct (String.eqb type "condition"); [respects|].
  destruct (String.eqb type "loop"); [|respects].
  apply not_elem_of_cons in Hvars as [Hvar Hinner].
  apply kept_executeLoop; [done|].
  apply Forall_forall. intros st Hst.
  rewrite Forall_forall in IH. apply IH; [done|].
  intros Hin. apply Hinner. apply list_elem_of_In, in_flat_map.
  exists st. split; by apply list_elem_of_In.
Qed.

Lemma kept_retry_loop step remaining i lastError :
  "results" ∉ loop_variables step →
  respects results_kept (retry_loop RegExp sleep runner step remaining i lastError).
Proof.
  intros Hvars. revert i lastError.
  induction remaining as [|r IH]; intros i lastError; simpl; [respects|].
  rtry; [|intros t; apply IH].
  rbind; [apply kept_delay|]. intros _. by apply kept_executeStep.
Qed.

(** An iteration that completes has added one record, that of its step,
    and [execution.results] is still an array. *)
Lemma try_step_one_record step (s s1 : St) b :
  keeps_results step → results_is_array s →
  try_step RegExp sleep runner step s = (Normal b, s1) →
  results_is_array s1
  ∧ ∃ r, results s1 = results s ++ [r] ∧ record_step r = step_id step.
Proof.
  intros [Hvars Hstore] (a & items & Harr).
  unfold try_step, try_catch, run_step.
  rewrite (bind_run_normal get_state _ s s s) by done.
  destruct (conditions_fail RegExp step s).
  { intros [= <- <-]. split; [by exists a, items|]. by eexists. }
  unfold mbind at 1, eff_bind at 1, bind at 1.
  pose proof (kept_executeStep step Hvars s) as [Hexec Hres].
  destruct (executeStep step s) as [[v|t] s2]; cbn [fst snd] in *.
  - unfold push_result, array_push, assign.
    unfold mbind, eff_bind, bind, modify, get_state, mret, eff_ret, ret. cbn.
    rewrite Hexec, Harr. cbn.
    assert (Hkeep : ∀ name, truthy_string name = true → name ≠ "results" →
              results_is_array (W:=W)
                (set_execution
                   (<[name := v]> (<["results" := VArr a (items ++ [v])]> (execution s2)))
                   (set_execution (<["results" := VArr a (items ++ [v])]> (execution s2))
                      (set_results (results s2 ++ [Result (step_id step) v]) s2)))).
    { intros name _ Hne. exists a, (items ++ [v]). cbn.
      rewrite lookup_insert_ne by done. apply lookup_insert_eq. }
    destruct (storeAs step) as [name|]; [destruct (truthy_string name) eqn:Hname|];
      cbn; intros [= <- <-]; cbn; rewrite Hres.
    + split; [apply Hkeep; [done|congruence]|]. by eexists.
    + split; [exists a, (items ++ [v]); cbn; apply lookup_insert_eq|]. by eexists.
    + split; [exists a, (items ++ [v]); cbn; apply lookup_insert_eq|]. by eexists.
  - unfold handle_step_error.
    case_bool_decide as Hf; [done|].
    case_bool_decide as Hr.
    + unfold mbind, eff_bind, bind.
      pose proof (kept_retry_loop step 3 0 ThrownUndefined Hvars s2) as [Hexec' Hres'].
      fold (retryStep RegExp sleep runner step 3) in Hexec', Hres'.
      destruct (retryStep RegExp sleep runner step 3 s2) as [[v|t'] s3]; [|done].
      cbn in *. intros [= <- <-]. cbn. split.
      * exists a, items. cbn. by rewrite Hexec', Hexec.
      * rewrite Hres', Hres. by eexists.
    + destruct t as [e|]; [|done].
      unfold message_of, push_result, array_push, alloc.
      unfold mbind, eff_bind, bind, modify, get_state, mret, eff_ret, ret. cbn.
      destruct (execution s2 !! "errors") as [[]|]; try done.
      cbn. intros [= <- <-]. cbn. split.
      * exists a, items. cbn. rewrite lookup_insert_ne by done. by rewrite Hexec.
      * rewrite Hres. by eexists.
Qed.

Lemma iteration_one_record workflow i step (s s1 : St) :
  keeps_results step → results_is_array s →
  iteration RegExp sleep runner workflow i step s = (Normal tt, s1) →
  results_is_array s1
  ∧ ∃ r, results s1 = results s ++ [r] ∧ record_step r = step_id step.
Proof.
  intros Hkeep (a & items & Harr). rewrite iteration_cases.
  destruct (try_step RegExp sleep runner step (at_step i s)) as [[b|t] s2] eqn:Htry;
    [|done].
  apply try_step_one_record in Htry as [Harr2 Hrec]; [|done|].
  - destruct b; intros [= <-]; [done|].
    unfold after_step. destruct (truthy (stepDelay workflow)); done.
  - exists a, items. cbn. by rewrite lookup_insert_ne.
Qed.

Lemma steps_loop_records workflow : ∀ todo i (s s1 : St),
  Forall keeps_results todo → results_is_array s →
  steps_loop RegExp sleep runner workflow i todo s = (Normal tt, s1) →
  ∃ rs, results s1 = results s ++ rs ∧ record_step <$> rs = step_id <$> todo.
Proof.
  induction todo as [|step todo IH]; intros i s s1 Hkeep Harr.
  - intros [= <-]. exists []. by rewrite app_nil_r.
  - apply Forall_cons in Hkeep as [Hstep Hsteps]. rewrite steps_loop_cons.
    destruct (iteration RegExp sleep runner workflow i step s) as [[[]|t] s2] eqn:Hit;
      [|done].
    apply iteration_one_record in Hit as (Harr2 & r & Hres & Hid); [|done..].
    intros Hloop. apply IH in Hloop as (rs & Hres' & Hids); [|done..].
    exists (r :: rs). split.
    + rewrite Hres', Hres. by rewrite <- (assoc_L (++)).
    + cbn. by rewrite Hid, Hids.
Qed.
End Records.

(** X12.  [executeWorkflow], when it returns, has recorded every step once
    and in the order of the workflow: the step ids of [results] are the
    ids of [workflow.steps].  This holds as long as [execution.results] is
    an array that no step takes for itself, by a [storeAs] or a loop
    variable called "results"; otherwise a step whose result cannot be
    pushed there is recorded a second time, by the catch block. *)
Theorem one_record_per_step {W : Type}
    (RegExp : string → option (string → bool)) (clock : W → Z * W)
    (sleep : Js.value → W → W)
    (runner : ServiceWorker.Step → gmap string Js.value → W → (JsError + Js.value) * W)
    (workflow : ServiceWorker.Workflow) (s s' : ServiceWorker.state W)
    (summary : ServiceWorker.Summary) :
  results_is_array s →
  Forall keeps_results (ServiceWorker.steps workflow) →
  ServiceWorker.executeWorkflow RegExp clock sleep runner workflow s
  = (Normal summary, s') →
  record_step <$> ServiceWorker.summary_results summary
  = ServiceWorker.step_id <$> ServiceWorker.steps workflow.
Proof.
  intros Harr Hkeep. unfold ServiceWorker.executeWorkflow.
  unfold mbind at 1, eff_bind at 1, bind at 1. cbn [modify].
  unfold mbind at 1, eff_bind at 1, bind at 1.
  destruct (ServiceWorker.steps_loop _ _ _ _ _ _ _) as [[[]|t] s1] eqn:Hloop; [|done].
  apply steps_loop_records in Hloop as (rs & Hres & Hids); [|done..].
  unfold ServiceWorker.now, ServiceWorker.external.
  unfold mbind, eff_bind, bind, get_state, mret, eff_ret, ret.
  destruct (clock (ServiceWorker.world s1)) as [t w]. cbn.
  intros [= <- <-]. cbn. by rewrite Hres.
Qed.

Lemma one_record_per_step_witness :
  ∃ summary s',
    ServiceWorker.executeWorkflow no_RegExp sample_clock sample_sleep sample_runner
      guarded_workflow sample_execution = (Normal summary, s')
    ∧ record_step <$> ServiceWorker.summary_results summary = ["s1"; "s2"; "s3"].
Proof.
  destruct (ServiceWorker.executeWorkflow no_RegExp sample_clock sample_sleep sample_runner
              guarded_workflow sample_execution) as [[summary|t] s'] eqn:Hrun.
  - exists summary, s'. split; [reflexivity|].
    apply (one_record_per_step no_RegExp sample_clock sample_sleep sample_runner
             guarded_workflow sample_execution s' summary).
    + exists 3%nat, []. reflexivity.
    + unfold guarded_workflow, keeps_results. cbn.
      repeat (constructor; [split; [apply not_elem_of_nil|discriminate]|]). constructor.
    + exact Hrun.
  - vm_compute in Hrun. discriminate Hrun.
Defined.

(** Without that proviso a step can be recorded twice: the first step
    stores its result as "results", the push of the second step on
    [execution.results] then throws after its result has been recorded,
    and the catch block records the step again, with the error. *)
Example step_recorded_twice :
  ∃ summary s',
    ServiceWorker.executeWorkflow no_RegExp sample_clock sample_sleep sample_runner
      overwriting_workflow sample_execution = (Normal summary, s')
    ∧ ServiceWorker.summary_results summary
      = [ServiceWorker.Result "s1" (Js.VStr "done s1");
         ServiceWorker.Result "s2" (Js.VStr "done s2");
         ServiceWorker.Failed "s2" "execution.results.push is not a function"].
Proof. eexists _, _. split; vm_compute; reflexivity. Qed.

(** ** The metrics *)
Section Metrics.
Import AIMetrics.

Lemma slice_last_snoc_short {A} (l : list A) x :
  (length l < 100)%nat → slice_last 100 (l ++ [x]) = slice_last 100 l ++ [x].
Proof.
  intros Hlen. unfold slice_last. rewrite length_app. cbn.
  replace (length l + 1 - 100)%nat with 0%nat by lia.
  replace (length l - 100)%nat with 0%nat by lia. done.
Qed.

Lemma slice_last_snoc_full {A} (l : list A) x :
  (100 ≤ length l)%nat → slice_last 100 (l ++ [x]) = tail (slice_last 100 l ++ [x]).
Proof.
  intros Hlen. unfold slice_last. rewrite length_app. cbn.
  replace (length l + 1 - 100)%nat with (S (length l - 100)) by lia.
  rewrite drop_app_le by lia.
  replace (S (length l - 100)) with (length l - 100 + 1)%nat by lia.
  rewrite <- (drop_drop l 1 (length l - 100)).
  destruct (drop (length l - 100) l) as [|y l'] eqn:E; [|done].
  apply (f_equal length) in E. rewrite length_drop in E. cbn in E. lia.
Qed.

Lemma slice_last_length {A} (n : nat) (l : list A) :
  length (slice_last n l) = (length l `min` n)%nat.
Proof. unfold slice_last. rewrite length_drop. lia. Qed.

Lemma recordGeneration_latencies type latency success m acc :
  latencies m = slice_last 100 acc →
  latencies (recordGeneration type latency success m)
  = slice_last 100 (acc ++ if success then [latency] else []).
Proof.
  intros Hinv. unfold recordGeneration. destruct success; cbn; [|by rewrite app_nil_r].
  rewrite Hinv, length_app, slice_last_length. cbn.
  case_bool_decide as Hfull.
  - rewrite slice_last_snoc_full by lia. done.
  - rewrite slice_last_snoc_short by lia. done.
Qed.

Lemma recordings_latencies history : ∀ m acc,
  latencies m = slice_last 100 acc →
  latencies (foldl (λ m '(type, latency, success),
                      recordGeneration type latency success m) m history)
  = slice_last 100 (acc ++ successes history).
Proof.
  induction history as [|[[type latency] success] history IH]; intros m acc Hinv.
  - cbn. by rewrite app_nil_r.
  - cbn [foldl]. rewrite (IH _ (acc ++ if success then [latency] else [])).
    + unfold successes. cbn [omap]. destruct success; cbn.
      * by rewrite <- (assoc_L (++)).
      * by rewrite app_nil_r.
    + by apply recordGeneration_latencies.
Qed.

(** The sum of the counters. *)
Local Abbreviation total := (map_fold (λ (_ : string) count total, (total + count)%N) 0%N).

Lemma total_insert_new (requests : gmap string N) k x :
  requests !! k = None → total (<[k := x]> requests) = (total requests + x)%N.
Proof.
  intros Hk. rewrite map_fold_insert_L; [done| |done].
  intros. lia.
Qed.

Lemma total_increment (requests : gmap string N) k :
  total (<[k := (default 0 (requests !! k) + 1)%N]> requests) = (total requests + 1)%N.
Proof.
  destruct (requests !! k) as [v|] eqn:Hk; cbn.
  - rewrite <- (insert_delete_eq requests k (v + 1)%N).
    rewrite total_insert_new by apply lookup_delete_eq.
    rewrite <- (insert_delete_id requests k v Hk) at 2.
    rewrite total_insert_new by apply lookup_delete_eq. lia.
  - by rewrite total_insert_new.
Qed.

Lemma recordGeneration_total type latency success m :
  totalRequests (getReport (recordGeneration type latency success m))
  = (totalRequests (getReport m) + 1)%N.
Proof.
  unfold getReport, recordGeneration, AIEngine.recordGeneration.
  destruct success; cbn; apply total_increment.
Qed.
End Metrics.

(** X13.  The metrics keep the latencies of the last hundred successful
    generations, oldest first: after any history of [recordGeneration]
    calls on new metrics, [latencies] is the list of the latencies of the
    successes without all but its last hundred entries; failures leave no
    latency. *)
Theorem latencies_are_the_last_hundred (history : list (string * Z * bool)) :
  AIMetrics.latencies (recordings history)
  = AIMetrics.slice_last 100 (successes history)
  ∧ (length (AIMetrics.latencies (recordings history)) ≤ 100)%nat.
Proof.
  assert (H : AIMetrics.latencies (recordings history)
              = AIMetrics.slice_last 100 (successes history)).
  { unfold recordings. by rewrite (recordings_latencies history AIMetrics.new []). }
  split; [exact H|]. rewrite H, slice_last_length. lia.
Qed.

(** X14.  [getReport().totalRequests] counts the generations recorded:
    after any history of [recordGeneration] calls on new metrics, of
    whatever types and outcomes, it is the length of the history. *)
Theorem total_requests_counts_the_generations (history : list (string * Z * bool)) :
  AIMetrics.totalRequests (AIMetrics.getReport (recordings history))
  = N.of_nat (length history).
Proof.
  unfold recordings.
  assert (H : ∀ m,
    AIMetrics.totalRequests
      (AIMetrics.getReport
         (foldl (λ m '(type, latency, success),
                   AIMetrics.recordGeneration type latency success m) m history))
    = (AIMetrics.totalRequests (AIMetrics.getReport m) + N.of_nat (length history))%N).
  { induction history as [|[[type latency] success] history IH]; intros m.
    - cbn. lia.
    - cbn [foldl length]. rewrite IH, recordGeneration_total. lia. }
  rewrite H. unfold AIMetrics.getReport, AIMetrics.new. cbn.
  rewrite map_fold_empty. lia.
Qed.

(** ** The hash of the cache keys *)
Section Hash.
Import Engine.

Lemma toInt32_range z : - 2 ^ 31 ≤ toInt32 z < 2 ^ 31.
Proof.
  unfold toInt32. pose proof (Z.mod_pos_bound (z + 2 ^ 31) (2 ^ 32)). lia.
Qed.

Lemma toInt32_wraps z k : toInt32 (z + 2 ^ 32 * k) = toInt32 z.
Proof.
  unfold toInt32. f_equal.
  replace (z + 2 ^ 32 * k + 2 ^ 31) with (z + 2 ^ 31 + k * 2 ^ 32) by lia.
  apply Z_mod_plus_full.
Qed.

Lemma toInt32_unwrapped z : ∃ k, toInt32 z = z + 2 ^ 32 * k.
Proof.
  exists (- ((z + 2 ^ 31) / 2 ^ 32)). unfold toInt32.
  pose proof (Z.div_mod (z + 2 ^ 31) (2 ^ 32)). lia.
Qed.

Lemma toInt32_idemp z : toInt32 (toInt32 z) = toInt32 z.
Proof.
  destruct (toInt32_unwrapped z) as [k Hk].
  transitivity (toInt32 (z + 2 ^ 32 * k)); [by rewrite Hk | apply toInt32_wraps].
Qed.

Lemma hash_char_wrapped p c :
  hash_char (toInt32 p) c = toInt32 (31 * p + Z.of_N (N_of_ascii c)).
Proof.
  unfold hash_char, and32, shl32. rewrite Z.land_diag, toInt32_idemp.
  rewrite Z.shiftl_mul_pow2 by lia.
  destruct (toInt32_unwrapped p) as [k1 Hk1]. rewrite Hk1.
  destruct (toInt32_unwrapped ((p + 2 ^ 32 * k1) * 2 ^ 5)) as [k2 ->].
  replace ((p + 2 ^ 32 * k1) * 2 ^ 5 + 2 ^ 32 * k2 - (p + 2 ^ 32 * k1)
           + Z.of_N (N_of_ascii c))
    with (31 * p + Z.of_N (N_of_ascii c) + 2 ^ 32 * (31 * k1 + k2)) by lia.
  apply toInt32_wraps.
Qed.

Lemma fold_hash_wrapped l : ∀ p,
  fold_left hash_char l (toInt32 p)
  = toInt32 (fold_left (λ h c, 31 * h + Z.of_N (N_of_ascii c)) l p).
Proof.
  induction l as [|c l IH]; intros p; [done|].
  cbn [fold_left]. rewrite hash_char_wrapped. apply IH.
Qed.

Lemma hash_code_wrapped str : hash_code str = toInt32 (polynomial_hash str).
Proof. unfold hash_code, polynomial_hash. apply (fold_hash_wrapped _ 0). Qed.

Lemma list_ascii_of_append a b :
  list_ascii_of_string (a +:+ b) = list_ascii_of_string a ++ list_ascii_of_string b.
Proof.
  induction a as [|c a IH]; [done|].
  change (String c a +:+ b) with (String c (a +:+ b)). cbn. by rewrite IH.
Qed.

Lemma append_assoc (a b c : string) : (a +:+ b) +:+ c = a +:+ b +:+ c.
Proof.
  induction a as [|x a IH]; [done|].
  change (String x a +:+ b) with (String x (a +:+ b)).
  change (String x (a +:+ b) +:+ c) with (String x ((a +:+ b) +:+ c)).
  change (String x a +:+ b +:+ c) with (String x (a +:+ b +:+ c)).
  by rewrite IH.
Qed.

Lemma polynomial_hash_collision pre post :
  polynomial_hash (pre +:+ "Aa" +:+ post) = polynomial_hash (pre +:+ "BB" +:+ post).
Proof.
  unfold polynomial_hash. rewrite !list_ascii_of_append, !fold_left_app.
  f_equal. cbn. lia.
Qed.
End Hash.

(** X15.  [hashString] is the polynomial hash with multiplier 31 wrapped
    to 32 bits, printed in base 36: the number it prints lies in the
    signed 32-bit range and is the wrapped sum of char * 31^(n - 1 - i).
    It does not separate all inputs: replacing "Aa" by "BB" anywhere in
    the input leaves the hash, and with it the cache key, unchanged. *)
Theorem hashString_is_a_wrapped_polynomial_hash (str pre post type optionsStr : string) :
  Engine.hash_code str = Engine.toInt32 (polynomial_hash str)
  ∧ - 2 ^ 31 ≤ Engine.hash_code str < 2 ^ 31
  ∧ Engine.hashString (pre +:+ "Aa" +:+ post) = Engine.hashString (pre +:+ "BB" +:+ post)
  ∧ Engine.getCacheKey type (pre +:+ "Aa") optionsStr
    = Engine.getCacheKey type (pre +:+ "BB") optionsStr.
Proof.
  split; [apply hash_code_wrapped|].
  split; [rewrite hash_code_wrapped; apply toInt32_range|].
  split.
  - unfold Engine.hashString. by rewrite !hash_code_wrapped, polynomial_hash_collision.
  - unfold Engine.getCacheKey, Engine.hashString. do 3 f_equal.
    rewrite !hash_code_wrapped. f_equal.
    rewrite !append_assoc. apply polynomial_hash_collision.
Qed.

(** ** generateWorkflow *)
Section GenerateWorkflow.
Import Js Engine.
Context {W : Type}.
Variable clock : W → Z * W.
Variable sleep : Z → W → W.
Variable provider_generateWorkflow :
  string → string → string → W → option (JsError + value) * W.
Variable enhancePrompt : string → string → string.

Local Abbreviation St := (state W).
Local Abbreviation generateWorkflow :=
  (generateWorkflow clock sleep provider_generateWorkflow enhancePrompt).

Lemma getFromCache_returns key (c : AIEngine.state W value) :
  ∃ r c', AIEngine.getFromCache clock key c = (Normal r, c')
          ∧ AIEngine.trace c' = AIEngine.trace c
          ∧ AIEngine.rateLimiters c' = AIEngine.rateLimiters c
          ∧ AIEngine.apiKeys c' = AIEngine.apiKeys c.
Proof.
  unfold AIEngine.getFromCache, AIEngine.now, AIEngine.external.
  unfold mbind, eff_bind, bind, modify, get_state, mret, eff_ret, ret. cbn.
  destruct (AIEngine.map_get key (AIEngine.cache c)) as [entry|]; [|by eexists _, _].
  destruct (clock (AIEngine.world c)) as [t w]. cbn.
  case_bool_decide; by eexists _, _.
Qed.

Lemma on_core_run {B} (m : Eff (AIEngine.state W value) B) (e : St) r c :
  m (core e) = (r, c) → on_core m e = (r, set_core c e).
Proof. unfold on_core. by intros ->. Qed.

Lemma now_run (e : St) :
  now clock e
  = (Normal (clock (AIEngine.world (core e))).1,
     set_core (AIEngine.set_world (clock (AIEngine.world (core e))).2 (core e)) e).
Proof.
  unfold now. apply on_core_run. unfold AIEngine.now, AIEngine.external.
  by destruct (clock (AIEngine.world (core e))).
Qed.

Lemma record_workflow_run startTime success (e : St) :
  record_workflow clock startTime success e
  = (Normal tt,
     mkEngine (AIEngine.set_world (clock (AIEngine.world (core e))).2 (core e))
       (AIMetrics.recordGeneration "workflow"
          ((clock (AIEngine.world (core e))).1 - startTime) success (metrics e))
       (next_addr e)).
Proof.
  unfold record_workflow. by rewrite (bind_run_normal _ _ _ _ _ (now_run e)).
Qed.

Lemma AIEngineError_run message (e : St) :
  AIEngineError clock message e
  = (Normal (mkError "AIEngineError" message),
     set_core (AIEngine.set_world (clock (AIEngine.world (core e))).2 (core e)) e).
Proof.
  unfold AIEngineError. by rewrite (bind_run_normal _ _ _ _ _ (now_run e)).
Qed.

(** The three ways [generateWorkflow] ends. *)
Lemma generateWorkflow_outcome prompt optionsStr preferred (e : St) :
  let run := generateWorkflow prompt optionsStr preferred e in
  (∃ v, run.1 = Normal v
        ∧ metrics run.2 = AIMetrics.recordCacheHit (metrics e)
        ∧ AIEngine.trace (core run.2) = AIEngine.trace (core e)
        ∧ AIEngine.rateLimiters (core run.2) = AIEngine.rateLimiters (core e))
  ∨ (∃ v latency, run.1 = Normal v
        ∧ metrics run.2 = AIMetrics.recordGeneration "workflow" latency true (metrics e))
  ∨ (∃ latency, run.1 = Throw (Thrown generation_failed)
        ∧ metrics run.2 = AIMetrics.recordGeneration "workflow" latency false (metrics e)).
Proof.
  intros run. subst run. unfold Engine.generateWorkflow.
  rewrite (bind_run_normal _ _ _ _ _ (now_run e)).
  set (e0 := set_core _ e).
  destruct (getFromCache_returns (getCacheKey "workflow" prompt optionsStr) (core e0))
    as (cached & c1 & Hcache & Htr & Hlim & _).
  rewrite (bind_run_normal _ _ _ _ _ (on_core_run _ e0 _ _ Hcache)).
  destruct (usable cached) as [v|].
  { left. exists v. unfold mbind, eff_bind, bind, modify, mret, eff_ret, ret. cbn.
    repeat split; [by rewrite Htr|by rewrite Hlim]. }
  right. unfold try_catch.
  rewrite (bind_run_normal get_state _ _ _ _ eq_refl).
  set (e1 := set_core c1 e0).
  destruct (AIEngine.executeWithFallback clock sleep
              (provider_generateWorkflow (enhancePrompt prompt "workflow") optionsStr)
              (AIMetrics.requests (metrics e1)) AIEngine.provider_names preferred
              (core e1)) as [[result|t] c2] eqn:Hrun.
  - left. rewrite (bind_run_normal _ _ _ _ _ (on_core_run _ e1 _ _ Hrun)).
    rewrite (bind_run_normal _ _ _ _ _
               (on_core_run _ _ _ _ (setCache_run clock _ result _))).
    rewrite (bind_run_normal _ _ _ _ _ (record_workflow_run _ _ _)).
    unfold mret, eff_ret, ret. cbn. eexists _, _. split; reflexivity.
  - right. rewrite (bind_run_throw _ _ _ _ _ (on_core_run _ e1 _ _ Hrun)).
    rewrite (bind_run_normal _ _ _ _ _ (record_workflow_run _ _ _)).
    rewrite (bind_run_normal _ _ _ _ _ (AIEngineError_run _ _)).
    unfold throw. cbn. exists 0. split; reflexivity.
Qed.

Lemma generateWorkflow_hit prompt optionsStr preferred (e : St) entry t0 w0 t1 w1 :
  AIEngine.map_get (getCacheKey "workflow" prompt optionsStr) (AIEngine.cache (core e))
  = Some entry →
  truthy (AIEngine.data entry) = true →
  clock (AIEngine.world (core e)) = (t0, w0) →
  clock w0 = (t1, w1) →
  t1 - AIEngine.timestamp entry < AIEngine.cacheExpiry (AIEngine.config (core e)) →
  generateWorkflow prompt optionsStr preferred e
  = (Normal (AIEngine.data entry),
     mkEngine (AIEngine.set_world w1 (core e)) (AIMetrics.recordCacheHit (metrics e))
       (next_addr e)).
Proof.
  intros Hget Htruthy H0 H1 Hfresh. unfold Engine.generateWorkflow.
  rewrite (bind_run_normal _ _ _ _ _ (now_run e)). rewrite H0. cbn [fst snd].
  assert (Hhit : AIEngine.getFromCache clock (getCacheKey "workflow" prompt optionsStr)
                   (AIEngine.set_world w0 (core e))
                 = (Normal (Some (AIEngine.data entry)), AIEngine.set_world w1 (core e))).
  { rewrite (getFromCache_fresh clock _ _ entry); cbn; rewrite ?H1; done. }
  rewrite (bind_run_normal _ _ _ _ _
             (on_core_run _ (set_core (AIEngine.set_world w0 (core e)) e) _ _ Hhit)).
  cbn [usable]. rewrite Htruthy. reflexivity.
Qed.
End GenerateWorkflow.

(** X16.  [generateWorkflow] serves from the cache whatever is stored under
    the key of the request, and the key only holds the hash of the prompt
    and the options.  A prompt whose hash is that of another prompt
    answered before is answered with the workflow generated for that other
    prompt, as long as the entry is fresh and truthy: no provider is
    called, no limiter is touched, and a cache hit is counted. *)
Theorem colliding_prompt_is_served_from_cache {W : Type} (clock : W → Z * W)
    (sleep : Z → W → W)
    (provider_generateWorkflow :
       string → string → string → W → option (JsError + Js.value) * W)
    (enhancePrompt : string → string → string)
    (prompt other optionsStr : string) (preferred : option string)
    (e : Engine.state W) (entry : AIEngine.CacheEntry Js.value)
    (t0 t1 : Z) (w0 w1 : W) :
  Engine.hash_code (prompt +:+ optionsStr) = Engine.hash_code (other +:+ optionsStr) →
  AIEngine.map_get (Engine.getCacheKey "workflow" other optionsStr)
    (AIEngine.cache (Engine.core e)) = Some entry →
  Js.truthy (AIEngine.data entry) = true →
  clock (AIEngine.world (Engine.core e)) = (t0, w0) →
  clock w0 = (t1, w1) →
  t1 - AIEngine.timestamp entry < AIEngine.cacheExpiry (AIEngine.config (Engine.core e)) →
  Engine.generateWorkflow clock sleep provider_generateWorkflow enhancePrompt
    prompt optionsStr preferred e
  = (Normal (AIEngine.data entry),
     Engine.mkEngine (AIEngine.set_world w1 (Engine.core e))
       (AIMetrics.recordCacheHit (Engine.metrics e)) (Engine.next_addr e)).
Proof.
  intros Hhash Hget Htruthy H0 H1 Hfresh.
  apply (generateWorkflow_hit clock sleep provider_generateWorkflow enhancePrompt
           prompt optionsStr preferred e entry t0 w0 t1 w1); try done.
  unfold Engine.getCacheKey, Engine.hashString in *. by rewrite Hhash.
Qed.

(** X17.  Every call of [generateWorkflow] is counted once: as a cache
    hit, in which case nothing is appended to the trace and the limiters
    are as before; or as a success of type "workflow"; or as a failure of
    type "workflow", and then the error thrown is the [AIEngineError]
    "Failed to generate workflow", whatever had been thrown inside. *)
Theorem generateWorkflow_is_counted_once {W : Type} (clock : W → Z * W)
    (sleep : Z → W → W)
    (provider_generateWorkflow :
       string → string → string → W → option (JsError + Js.value) * W)
    (enhancePrompt : string → string → string)
    (prompt optionsStr : string) (preferred : option string) (e : Engine.state W) :
  let run := Engine.generateWorkflow clock sleep provider_generateWorkflow enhancePrompt
               prompt optionsStr preferred e in
  (∃ v, run.1 = Normal v
        ∧ Engine.metrics run.2 = AIMetrics.recordCacheHit (Engine.metrics e)
        ∧ AIEngine.trace (Engine.core run.2) = AIEngine.trace (Engine.core e)
        ∧ AIEngine.rateLimiters (Engine.core run.2)
          = AIEngine.rateLimiters (Engine.core e))
  ∨ (∃ v latency, run.1 = Normal v
        ∧ Engine.metrics run.2
          = AIMetrics.recordGeneration "workflow" latency true (Engine.metrics e))
  ∨ (∃ latency, run.1 = Throw (Thrown generation_failed)
        ∧ Engine.metrics run.2
          = AIMetrics.recordGeneration "workflow" latency false (Engine.metrics e)).
Proof. apply generateWorkflow_outcome. Qed.

Lemma colliding_prompt_is_served_from_cache_witness :
  Engine.generateWorkflow ticking_clock (λ _ w, w) silent_provider (λ prompt _, prompt)
    "scrape BB" "{}" None cached_engine
  = (Normal (Js.VStr "workflow for Aa"),
     Engine.mkEngine (AIEngine.set_world 2%nat (Engine.core cached_engine))
       (AIMetrics.recordCacheHit (Engine.metrics cached_engine))
       (Engine.next_addr cached_engine)).
Proof.
  apply (colliding_prompt_is_served_from_cache ticking_clock (λ _ w, w) silent_provider
           (λ prompt _, prompt) "scrape BB" "scrape Aa" "{}" None cached_engine
           (AIEngine.mkEntry (Js.VStr "workflow for Aa") 0) 0 1 1%nat 2%nat);
    reflexivity.
Defined.

(** ** Providers that do not resolve *)
Section Unresolved.
Import AIEngine.
Context {W A : Type}.
Variable clock : W → Z * W.
Variable sleep : Z → W → W.
Variable call : string → W → option (JsError + A) * W.
Hypothesis unresolved : ∀ p w, ¬ resolves (call p w).1.

Lemma retry_loop_unresolved p n : ∀ r i lastError (s : state W A),
  ∃ t, (retry_loop sleep (invoke call p) n r i lastError s).1 = Throw t.
Proof.
  induction r as [|r IH]; intros i lastError s; [by eexists|].
  cbn [retry_loop]. unfold try_catch. rewrite attempt_fails by apply unresolved.
  unfold mbind, eff_bind, bind.
  destruct (bool_decide _); [rewrite delay_run|cbn]; apply IH.
Qed.

Lemma fallback_loop_unresolved providers : ∀ lastError (s : state W A),
  ∃ t, (fallback_loop clock sleep call providers lastError s).1 = Throw t.
Proof.
  induction providers as [|p rest IH]; intros lastError s; [by eexists|].
  cbn [fallback_loop].
  unfold mbind at 1, eff_bind at 1, bind at 1.
  destruct (limiter_canMakeRequest clock p s) as [[ok|t] s1]; [|by eexists].
  destruct (negb ok); [apply IH|].
  unfold mbind at 1, eff_bind at 1, bind at 1. unfold try_catch at 1.
  unfold mbind at 1, eff_bind at 1, bind at 1. cbn [get_state].
  destruct (negb _); [apply IH|].
  unfold mbind at 1, eff_bind at 1, bind at 1.
  destruct (limiter_recordRequest clock p s1) as [[[]|t] s2].
  - unfold mbind at 1, eff_bind at 1, bind at 1. cbn [get_state].
    unfold mbind at 1, eff_bind at 1, bind at 1.
    destruct (retry_loop_unresolved p (maxRetries (config s2))
                (maxRetries (config s2)) 0%nat ThrownUndefined s2) as [t Hthrow].
    fold (executeWithRetry sleep (invoke call p) (maxRetries (config s2))) in Hthrow.
    destruct (executeWithRetry _ _ _ s2) as [r s3]. cbn in Hthrow. subst r.
    destruct t as [err|]; cbn; [apply IH|by eexists].
  - destruct t as [err|]; cbn; [apply IH|by eexists].
Qed.
End Unresolved.

(** ** The fallback leaves the cache alone *)
#[global] Instance cache_kept_preorder {W A} : PreOrder (@cache_kept W A).
Proof.
  split; [by intros s|]. intros s1 s2 s3 H1 H2. unfold cache_kept in *. congruence.
Qed.

#[global] Hint Resolve cache_kept_preorder : respects.

Section CacheKept.
Import AIEngine.
Context {W A : Type}.
Variable clock : W → Z * W.
Variable sleep : Z → W → W.
Variable call : string → W → option (JsError + A) * W.

Local Abbreviation St := (state W A).

Lemma kept_modify (f : St → St) :
  (∀ s, cache (f s) = cache s) → respects cache_kept (modify f).
Proof. intros Hf s. apply Hf. Qed.

Lemma kept_engine_emit e : respects cache_kept (emit e : Eff St unit).
Proof. by intros s. Qed.

Lemma kept_engine_external {B} (f : W → B * W) :
  respects cache_kept (external f : Eff St B).
Proof. intros s. unfold external. by destruct (f (world s)). Qed.

#[local] Hint Resolve kept_engine_emit kept_engine_external : respects.
#[local] Hint Extern 1 (respects cache_kept (modify _)) =>
  apply kept_modify; by intros ? : respects.

Lemma kept_retry_loop_cache p maxRetries remaining i lastError :
  respects cache_kept
    (retry_loop sleep (invoke call p) maxRetries remaining i lastError : Eff St A).
Proof.
  revert i lastError.
  induction remaining as [|r IH]; intros i lastError; simpl; [respects|].
  rtry.
  - unfold race_timeout, invoke. respects.
  - intros t. rbind; [|intros _; apply IH].
    case_bool_decide; [unfold delay|]; respects.
Qed.

Lemma fallback_loop_keeps_cache providers lastError :
  respects cache_kept (fallback_loop clock sleep call providers lastError).
Proof.
  revert lastError.
  induction providers as [|p rest IH]; intros lastError; simpl; [respects|].
  rbind.
  { unfold limiter_canMakeRequest, limiter_of, now. respects. }
  intros ok. destruct (negb ok); [apply IH|].
  rbind.
  - rtry; [|intros t; respects].
    rbind; [respects|]. intros s.
    destruct (negb _); [respects|].
    rbind.
    { unfold limiter_recordRequest, limiter_of, now. respects. }
    intros _. rbind; [respects|]. intros s'.
    rbind; [|intros ?; respects].
    apply kept_retry_loop_cache.
  - intros [result|lastError']; [respects | apply IH].
Qed.
End CacheKept.

(** ** extractPatterns *)
Section ExtractPatterns.
Import Js Engine.
Context {W : Type}.
Variable clock : W → Z * W.
Variable sleep : Z → W → W.
Variable provider_extractPatterns : string → string → W → option (JsError + value) * W.
Variable buildPatternExtractionPrompt : string → string.

Local Abbreviation St := (state W).
Local Abbreviation extractPatterns :=
  (extractPatterns clock sleep provider_extractPatterns buildPatternExtractionPrompt).

(** [extractPatterns] after its look into the cache. *)
Lemma extractPatterns_run text (e : St) :
  ∃ cached c1,
    AIEngine.getFromCache clock (getCacheKey "patterns" text "{}") (core e)
    = (Normal cached, c1)
    ∧ extractPatterns text e
      = match usable cached with
        | Some v => (Normal v, set_core c1 e)
        | None =>
            match AIEngine.executeWithFallback clock sleep
                    (provider_extractPatterns (buildPatternExtractionPrompt text))
                    (AIMetrics.requests (metrics e)) AIEngine.provider_names None c1 with
            | (Normal patterns, c2) =>
                (Normal patterns,
                 set_core (AIEngine.setCache clock (getCacheKey "patterns" text "{}")
                             patterns c2).2 e)
            | (Throw _, c2) =>
                (Normal (VArr (next_addr e) []),
                 mkEngine c2 (metrics e) (S (next_addr e)))
            end
        end.
Proof.
  destruct (getFromCache_returns clock (getCacheKey "patterns" text "{}") (core e))
    as (cached & c1 & Hcache & _).
  exists cached, c1. split; [exact Hcache|].
  unfold Engine.extractPatterns.
  rewrite (bind_run_normal _ _ _ _ _ (on_core_run _ e _ _ Hcache)).
  destruct (usable cached) as [v|]; [done|].
  unfold try_catch.
  rewrite (bind_run_normal get_state _ _ _ _ eq_refl).
  change (metrics (set_core c1 e)) with (metrics e).
  destruct (AIEngine.executeWithFallback clock sleep
              (provider_extractPatterns (buildPatternExtractionPrompt text))
              (AIMetrics.requests (metrics e)) AIEngine.provider_names None c1)
    as [[patterns|t] c2] eqn:Hrun.
  - rewrite (bind_run_normal _ _ _ _ _ (on_core_run _ (set_core c1 e) _ _ Hrun)).
    rewrite (bind_run_normal _ _ _ _ _
               (on_core_run _ _ _ _ (setCache_run clock _ patterns _))).
    by rewrite setCache_run.
  - by rewrite (bind_run_throw _ _ _ _ _ (on_core_run _ (set_core c1 e) _ _ Hrun)).
Qed.
End ExtractPatterns.

(** ** optimizeWorkflow *)
Section OptimizeWorkflow.
Import Js Engine.
Context {W : Type}.
Variable clock : W → Z * W.
Variable sleep : Z → W → W.
Variable provider_optimize : string → string → W → option (JsError + value) * W.
Variable buildOptimizationPrompt : value → string.

Local Abbreviation St := (state W).

(** What [applyOptimizations] returns when it returns. *)
Lemma applyOptimizations_returns workflow optimizations (e e' : St) v :
  applyOptimizations workflow optimizations e = (Normal v, e') →
  metrics e' = metrics e
  ∧ ∃ a props, v = VObj a props
      ∧ ∀ k, k ∉ optimization_keys → props !! k = own_props workflow !! k.
Proof.
  unfold applyOptimizations, alloc, lift.
  unfold mbind, eff_bind, bind, mret, eff_ret, ret. cbn.
  destruct (get optimizations "parallelSteps") as [parallelSteps|]; [|done].
  destruct (get optimizations "caching") as [caching|]; [|done].
  destruct (get optimizations "errorHandling") as [errorHandling|]; [|done].
  assert (Hkeep : ∀ k, k ∉ optimization_keys →
            (if truthy caching
             then <["cachePoints" := caching]>
                    (if truthy parallelSteps
                     then <["parallelGroups" := parallelSteps]> (own_props workflow)
                     else own_props workflow)
             else if truthy parallelSteps
                  then <["parallelGroups" := parallelSteps]> (own_props workflow)
                  else own_props workflow) !! k
            = own_props workflow !! k).
  { intros k Hk. unfold optimization_keys in Hk.
    apply not_elem_of_cons in Hk as [H1 Hk].
    apply not_elem_of_cons in Hk as [H2 _].
    destruct (truthy caching), (truthy parallelSteps);
      rewrite ?lookup_insert_ne by done; done. }
  destruct (truthy errorHandling); intros [= <- <-]; (split; [done|]);
    eexists _, _; (split; [reflexivity|]); intros k Hk.
  - rewrite lookup_insert_ne; [by apply Hkeep|].
    intros <-. apply Hk. unfold optimization_keys. by do 2 right; left.
  - by apply Hkeep.
Qed.

Lemma applyOptimizations_metrics workflow optimizations (e : St) :
  metrics (applyOptimizations workflow optimizations e).2 = metrics e.
Proof.
  unfold applyOptimizations, alloc, lift.
  unfold mbind, eff_bind, bind, mret, eff_ret, ret. cbn.
  destruct (get optimizations "parallelSteps"); [|done].
  destruct (get optimizations "caching"); [|done].
  destruct (get optimizations "errorHandling"); [|done].
  by destruct (truthy _).
Qed.

Lemma optimizeWorkflow_returns workflow (e : St) :
  let run := optimizeWorkflow clock sleep provider_optimize buildOptimizationPrompt
               workflow e in
  metrics run.2 = metrics e
  ∧ (run.1 = Normal workflow
     ∨ ∃ a props, run.1 = Normal (VObj a props)
         ∧ ∀ k, k ∉ optimization_keys → props !! k = own_props workflow !! k).
Proof.
  intros run. subst run. unfold Engine.optimizeWorkflow, try_catch.
  rewrite (bind_run_normal get_state _ _ _ _ eq_refl).
  destruct (AIEngine.executeWithFallback clock sleep
              (provider_optimize (buildOptimizationPrompt workflow))
              (AIMetrics.requests (metrics e)) AIEngine.provider_names None
              (core e)) as [[optimization|t] c2] eqn:Hrun.
  - rewrite (bind_run_normal _ _ _ _ _ (on_core_run _ e _ _ Hrun)).
    pose proof (applyOptimizations_metrics workflow optimization (set_core c2 e)) as Hm.
    destruct (applyOptimizations workflow optimization (set_core c2 e))
      as [[v|t] e'] eqn:Happly.
    + apply applyOptimizations_returns in Happly as (_ & a & props & -> & Hprops).
      split; [done|]. right. by exists a, props.
    + split; [done|by left].
  - rewrite (bind_run_throw _ _ _ _ _ (on_core_run _ e _ _ Hrun)).
    split; [done|by left].
Qed.
End OptimizeWorkflow.

(** ** The ranking as the engine is wired *)

(** Without a counter under the name of a provider, every provider has
    the rate 1/2 and the order is the order of declaration. *)
Lemma declaration_order requests :
  no_provider_history requests →
  AIEngine.getProviderOrder requests AIEngine.provider_names None
  = AIEngine.provider_names.
Proof.
  intros Hnone.
  assert (Hrate : ∀ p, p ∈ AIEngine.provider_names →
            AIEngine.getSuccessRate requests p = 1 # 2).
  { intros p Hp. destruct (Hnone p Hp) as [Hs Hf].
    unfold AIEngine.getSuccessRate. by rewrite Hs, Hf. }
  assert (Hstay : ∀ a b, a ∈ AIEngine.provider_names → b ∈ AIEngine.provider_names →
            AIEngine.goes_after (AIEngine.by_rate requests) a b = false).
  { intros a b Ha Hb. unfold AIEngine.goes_after, AIEngine.by_rate.
    by rewrite (Hrate a Ha), (Hrate b Hb). }
  unfold AIEngine.getProviderOrder, AIEngine.provider_names in *.
  cbn [AIEngine.js_sort AIEngine.sort_insert].
  rewrite (Hstay "huggingface" "openrouter") by (repeat constructor).
  cbn [AIEngine.sort_insert].
  rewrite (Hstay "groq" "huggingface") by (repeat constructor). done.
Qed.

Lemma no_provider_history_recorded latency success m :
  no_provider_history (AIMetrics.requests m) →
  no_provider_history
    (AIMetrics.requests (AIMetrics.recordGeneration "workflow" latency success m)).
Proof.
  intros Hnone p Hp. destruct (Hnone p Hp) as [Hs Hf].
  assert (Hreq : AIMetrics.requests (AIMetrics.recordGeneration "workflow" latency success m)
                 = AIEngine.recordGeneration "workflow" success (AIMetrics.requests m))
    by by destruct success.
  rewrite Hreq. unfold AIEngine.recordGeneration, AIEngine.provider_names in *.
  repeat (apply elem_of_cons in Hp as [->|Hp];
          [split; (rewrite lookup_insert_ne; [done|by destruct success])|]).
  by apply elem_of_nil in Hp.
Qed.

(** X18.  The ranking of the providers never moves.  [recordGeneration] is
    only called by [generateWorkflow], with the type "workflow", and
    [getSuccessRate] reads the counters named after a provider: whatever
    requests the engine has served, every provider has the rate 1/2 and
    [getProviderOrder] without a preference returns the providers in the
    order of their declaration. *)
Theorem provider_ranking_never_changes {W : Type} (clock : W → Z * W) (sleep : Z → W → W)
    (provider_generateWorkflow :
       string → string → string → W → option (JsError + Js.value) * W)
    (provider_extractPatterns provider_optimize :
       string → string → W → option (JsError + Js.value) * W)
    (enhancePrompt : string → string → string)
    (buildPatternExtractionPrompt : string → string)
    (buildOptimizationPrompt : Js.value → string)
    (served : list Request) (e : Engine.state W) :
  no_provider_history (AIMetrics.requests (Engine.metrics e)) →
  let e' := foldl (serve clock sleep provider_generateWorkflow provider_extractPatterns
                     provider_optimize enhancePrompt buildPatternExtractionPrompt
                     buildOptimizationPrompt) e served in
  AIEngine.getProviderOrder (AIMetrics.requests (Engine.metrics e'))
    AIEngine.provider_names None = AIEngine.provider_names
  ∧ ∀ p, p ∈ AIEngine.provider_names →
      AIEngine.getSuccessRate (AIMetrics.requests (Engine.metrics e')) p = 1 # 2.
Proof.
  intros Hnone e'.
  assert (Hinv : no_provider_history (AIMetrics.requests (Engine.metrics e'))).
  { subst e'. revert e Hnone.
    induction served as [|request served IH]; intros e Hnone; [done|].
    cbn [foldl]. apply IH. destruct request as [prompt optionsStr preferred|text|workflow];
      cbn [serve].
    - destruct (generateWorkflow_outcome clock sleep provider_generateWorkflow
                  enhancePrompt prompt optionsStr preferred e)
        as [(v & _ & -> & _)|[(v & latency & _ & ->)|(latency & _ & ->)]].
      + done.
      + by apply no_provider_history_recorded.
      + by apply no_provider_history_recorded.
    - destruct (extractPatterns_run clock sleep provider_extractPatterns
                  buildPatternExtractionPrompt text e) as (cached & c1 & _ & ->).
      destruct (Engine.usable cached); [done|].
      by destruct (AIEngine.executeWithFallback _ _ _ _ _ _ c1) as [[]].
    - destruct (optimizeWorkflow_returns clock sleep provider_optimize
                  buildOptimizationPrompt workflow e) as [-> _]. done. }
  split; [by apply declaration_order|].
  intros p Hp. destruct (Hinv p Hp) as [Hs Hf].
  unfold AIEngine.getSuccessRate. by rewrite Hs, Hf.
Qed.

Lemma provider_ranking_never_changes_witness :
  let e' := foldl (serve ticking_clock (λ _ w, w) silent_provider
                     (silent_provider "") (silent_provider "")
                     (λ prompt _, prompt) (λ text, text) (λ _, "optimize"))
              (Engine.constructed 0%nat)
              [GenerateWorkflow "scrape prices" "{}" (Some "groq");
               ExtractPatterns "every morning"; GenerateWorkflow "scrape prices" "{}" None] in
  AIEngine.getProviderOrder (AIMetrics.requests (Engine.metrics e'))
    AIEngine.provider_names None = AIEngine.provider_names
  ∧ ∀ p, p ∈ AIEngine.provider_names →
      AIEngine.getSuccessRate (AIMetrics.requests (Engine.metrics e')) p = 1 # 2.
Proof.
  apply (provider_ranking_never_changes ticking_clock (λ _ w, w) silent_provider
           (silent_provider "") (silent_provider "")
           (λ prompt _, prompt) (λ text, text) (λ _, "optimize")
           [GenerateWorkflow "scrape prices" "{}" (Some "groq");
            ExtractPatterns "every morning"; GenerateWorkflow "scrape prices" "{}" None]
           (Engine.constructed 0%nat)).
  intros p Hp. split; reflexivity.
Defined.

(** X19.  [extractPatterns] never throws and is never counted in the
    metrics.  When nothing usable is cached and no provider resolves, it
    returns a new empty array and caches nothing. *)
Theorem extractPatterns_never_throws {W : Type} (clock : W → Z * W) (sleep : Z → W → W)
    (provider_extractPatterns : string → string → W → option (JsError + Js.value) * W)
    (buildPatternExtractionPrompt : string → string)
    (text : string) (e : Engine.state W) :
  let run := Engine.extractPatterns clock sleep provider_extractPatterns
               buildPatternExtractionPrompt text e in
  (∃ v, run.1 = Normal v)
  ∧ Engine.metrics run.2 = Engine.metrics e
  ∧ ((∀ p w, ¬ resolves
                 (provider_extractPatterns (buildPatternExtractionPrompt text) p w).1) →
     AIEngine.map_get (Engine.getCacheKey "patterns" text "{}")
       (AIEngine.cache (Engine.core e)) = None →
     run.1 = Normal (Js.VArr (Engine.next_addr e) [])
     ∧ AIEngine.cache (Engine.core run.2) = AIEngine.cache (Engine.core e)).
Proof.
  intros run. subst run.
  destruct (extractPatterns_run clock sleep provider_extractPatterns
              buildPatternExtractionPrompt text e) as (cached & c1 & Hcache & ->).
  split; [|split].
  - destruct (Engine.usable cached); [by eexists|].
    destruct (AIEngine.executeWithFallback _ _ _ _ _ _ c1) as [[]]; by eexists.
  - destruct (Engine.usable cached); [done|].
    by destruct (AIEngine.executeWithFallback _ _ _ _ _ _ c1) as [[]].
  - intros Hunresolved Hmiss.
    assert (Hnone : AIEngine.getFromCache clock (Engine.getCacheKey "patterns" text "{}")
                      (Engine.core e)
                    = (Normal None,
                       AIEngine.set_cache
                         (AIEngine.map_delete (Engine.getCacheKey "patterns" text "{}")
                            (AIEngine.cache (Engine.core e))) (Engine.core e))).
    { unfold AIEngine.getFromCache.
      rewrite (bind_run_normal get_state _ _ _ _ eq_refl). by rewrite Hmiss. }
    rewrite Hnone in Hcache. injection Hcache as <- <-. cbn [Engine.usable].
    set (c1 := AIEngine.set_cache _ _).
    destruct (fallback_loop_unresolved clock sleep
                (provider_extractPatterns (buildPatternExtractionPrompt text))
                Hunresolved
                (AIEngine.getProviderOrder (AIMetrics.requests (Engine.metrics e))
                   AIEngine.provider_names None) None c1) as [t Hthrow].
    pose proof (fallback_loop_keeps_cache clock sleep
                  (provider_extractPatterns (buildPatternExtractionPrompt text))
                  (AIEngine.getProviderOrder (AIMetrics.requests (Engine.metrics e))
                     AIEngine.provider_names None) None c1) as Hkeep.
    unfold AIEngine.executeWithFallback.
    destruct (AIEngine.fallback_loop _ _ _ _ _ c1) as [r c2].
    cbn [fst snd] in *. subst r. split; [done|].
    cbn [fst snd Engine.core]. unfold cache_kept in Hkeep. rewrite Hkeep. subst c1.
    cbn [AIEngine.cache AIEngine.set_cache].
    apply map_delete_absent. by apply map_get_None.
Qed.

Lemma extractPatterns_never_throws_witness :
  let run := Engine.extractPatterns ticking_clock (λ _ w, w) (silent_provider "")
               (λ text, text) "every morning" ready_engine in
  run.1 = Normal (Js.VArr 40 [])
  ∧ AIEngine.cache (Engine.core run.2) = [].
Proof.
  destruct (extractPatterns_never_throws ticking_clock (λ _ w, w) (silent_provider "")
              (λ text, text) "every morning" ready_engine) as (_ & _ & Hempty).
  apply Hempty.
  - intros p w [a Ha]. discriminate Ha.
  - reflexivity.
Defined.

(** X20.  [optimizeWorkflow] never throws and is never counted in the
    metrics.  It returns the workflow it was given, when no provider
    answers or the answer cannot be applied, or else a new object that has
    every property of the workflow unchanged but [parallelGroups],
    [cachePoints] and [errorHandling]. *)
Theorem optimizeWorkflow_keeps_the_workflow {W : Type} (clock : W → Z * W)
    (sleep : Z → W → W)
    (provider_optimize : string → string → W → option (JsError + Js.value) * W)
    (buildOptimizationPrompt : Js.value → string)
    (workflow : Js.value) (e : Engine.state W) :
  let run := Engine.optimizeWorkflow clock sleep provider_optimize buildOptimizationPrompt
               workflow e in
  Engine.metrics run.2 = Engine.metrics e
  ∧ (run.1 = Normal workflow
     ∨ ∃ a props, run.1 = Normal (Js.VObj a props)
         ∧ ∀ k, k ∉ optimization_keys → props !! k = Engine.own_props workflow !! k).
Proof. apply optimizeWorkflow_returns. Qed.

(** The suggestions of a provider applied: the caching point is added, the
    error handling is merged with that of the workflow, the later spread
    winning, and the name is kept. *)
Example scenario_optimization_applied :
  (Engine.optimizeWorkflow ticking_clock (λ _ w, w) suggesting_provider (λ _, "optimize")
     plain_workflow ready_engine).1
  = Normal (Js.VObj 40
      (<["name" := Js.VStr "Price watch"]>
      (<["cachePoints" := Js.VStr "after extract"]>
      (<["errorHandling" := Js.VObj 41 (<["mode" := Js.VStr "retry"]> ∅)]> ∅)))).
Proof. vm_compute. reflexivity. Qed.

(** ** API keys *)
Section ApiKeys.
Import Engine.
Context {W : Type}.
Variable storage_get : W → (JsError + option (list (string * string))) * W.
Variable storage_set : list (string * string) → W → W.

Local Abbreviation St := (state W).

Lemma provider_setAPIKey_run p key (e : St) :
  p ∈ AIEngine.provider_names →
  provider_setAPIKey p key e
  = (Normal (Some tt),
     set_core
       (AIEngine.mkState (AIEngine.config (core e)) (AIEngine.rateLimiters (core e))
          (<[p := key]> (AIEngine.apiKeys (core e)))
          (AIEngine.cache (core e)) (AIEngine.world (core e))
          (AIEngine.trace (core e))) e).
Proof. intros Hp. unfold provider_setAPIKey. by rewrite bool_decide_eq_true_2. Qed.

Lemma setAPIKey_run p key (e : St) :
  p ∈ AIEngine.provider_names →
  setAPIKey storage_get storage_set p key e
  = (Normal tt,
     set_core
       (AIEngine.mkState (AIEngine.config (core e)) (AIEngine.rateLimiters (core e))
          (<[p := key]> (AIEngine.apiKeys (core e)))
          (AIEngine.cache (core e))
          (storage_set [(p, key)] (storage_get (AIEngine.world (core e))).2)
          (AIEngine.trace (core e))) e).
Proof.
  intros Hp. unfold setAPIKey.
  rewrite (bind_run_normal _ _ _ _ _ (provider_setAPIKey_run p key e Hp)).
  unfold on_core, AIEngine.external, mbind, eff_bind, bind. cbn.
  by destruct (storage_get (AIEngine.world (core e))).
Qed.
Lemma loadAPIKeys_single p key (e : St) w :
  storage_get (AIEngine.world (core e)) = (inr (Some [(p, key)]), w) →
  p ∈ AIEngine.provider_names →
  AIEngine.apiKeys (core (loadAPIKeys storage_get e).2)
  = <[p := key]> (AIEngine.apiKeys (core e)).
Proof.
  intros Hget Hp. unfold loadAPIKeys, try_catch.
  assert (Hread : on_core (AIEngine.external storage_get) e
                  = (Normal (inr (Some [(p, key)])), set_core (AIEngine.set_world w (core e)) e)).
  { apply on_core_run. unfold AIEngine.external. by rewrite Hget. }
  rewrite (bind_run_normal _ _ _ _ _ Hread). cbn [load_entries].
  by rewrite (bind_run_normal _ _ _ _ _ (provider_setAPIKey_run p key _ Hp)).
Qed.
End ApiKeys.

(** X21.  [setAPIKey] stores the key it was given and no other.  The
    object it writes is built from the promise of [getStoredKeys], not
    from the keys stored, so the keys of the other providers are lost in
    the storage: after the keys of two providers have been set, both are
    configured, and an engine constructed anew from the storage has the
    key that was set last and not the other one. *)
Theorem only_the_last_key_is_persisted {W : Type}
    (storage_get : W → (JsError + option (list (string * string))) * W)
    (storage_set : list (string * string) → W → W)
    (e : Engine.state W) (p1 k1 p2 k2 : string) :
  (∀ entries w, storage_get (storage_set entries w)
                = (inr (Some entries), storage_set entries w)) →
  p1 ∈ AIEngine.provider_names → p2 ∈ AIEngine.provider_names → p1 ≠ p2 →
  k1 ≠ "" → k2 ≠ "" →
  let e2 := ((Engine.setAPIKey storage_get storage_set p1 k1;;
              Engine.setAPIKey storage_get storage_set p2 k2) e).2 in
  let restarted :=
    (Engine.loadAPIKeys storage_get
       (Engine.constructed (AIEngine.world (Engine.core e2)))).2 in
  AIEngine.isConfigured p1 (Engine.core e2) = true
  ∧ AIEngine.isConfigured p2 (Engine.core e2) = true
  ∧ AIEngine.isConfigured p2 (Engine.core restarted) = true
  ∧ AIEngine.isConfigured p1 (Engine.core restarted) = false.
Proof.
  intros Hstore Hp1 Hp2 Hne Hk1 Hk2 e2 restarted.
  assert (Htruthy : ∀ k, k ≠ "" → truthy_string k = true).
  { intros k Hk. unfold truthy_string. by destruct (String.eqb_spec k ""). }
  subst restarted e2.
  rewrite (bind_run_normal _ _ _ _ _ (setAPIKey_run storage_get storage_set p1 k1 e Hp1)).
  rewrite (setAPIKey_run storage_get storage_set p2 k2 _ Hp2).
  cbn [fst snd Engine.core Engine.set_core AIEngine.world AIEngine.apiKeys].
  unfold AIEngine.isConfigured. cbn [AIEngine.apiKeys].
  rewrite lookup_insert_ne, !lookup_insert_eq by done.
  split; [by apply Htruthy|]. split; [by apply Htruthy|].
  erewrite (loadAPIKeys_single storage_get p2 k2); [|apply Hstore|exact Hp2].
  cbn [Engine.core Engine.constructed AIEngine.apiKeys].
  rewrite lookup_insert_eq, lookup_insert_ne, lookup_empty by done.
  split; [by apply Htruthy|done].
Qed.

Lemma only_the_last_key_is_persisted_witness :
  let e2 := ((Engine.setAPIKey memory_get memory_set "groq" "gsk-key";;
              Engine.setAPIKey memory_get memory_set "openrouter" "sk-or-key")
               (Engine.constructed None)).2 in
  let restarted :=
    (Engine.loadAPIKeys memory_get
       (Engine.constructed (AIEngine.world (Engine.core e2)))).2 in
  AIEngine.isConfigured "groq" (Engine.core e2) = true
  ∧ AIEngine.isConfigured "openrouter" (Engine.core e2) = true
  ∧ AIEngine.isConfigured "openrouter" (Engine.core restarted) = true
  ∧ AIEngine.isConfigured "groq" (Engine.core restarted) = false.
Proof.
  apply (only_the_last_key_is_persisted memory_get memory_set (Engine.constructed None)
           "groq" "gsk-key" "openrouter" "sk-or-key");
    try reflexivity; try discriminate;
    unfold AIEngine.provider_names; repeat constructor.
Defined.

(** ** parseTextToWorkflow *)
Section ParseText.
Import Js HuggingFaceProvider.

(** The steps read from [lines], the first of them having the index
    [k]. *)
Local Abbreviation steps_from k lines :=
  (omap id
     (imap (λ index line,
              if includes line "step" || includes line "action"
              then Some (mkParsedStep ("step_" +:+ pretty (k + index)%nat)
                           (trim (strip_numbering line)))
              else None)
        lines)).

Lemma prefixed_inj (a b : string) : "step_" +:+ a = "step_" +:+ b → a = b.
Proof. intros H. by injection H. Qed.

Lemma steps_from_cons k line lines :
  steps_from k (line :: lines)
  = (if includes line "step" || includes line "action"
     then [mkParsedStep ("step_" +:+ pretty k) (trim (strip_numbering line))]
     else [])
    ++ steps_from (S k) lines.
Proof.
  rewrite imap_cons. cbn [omap]. rewrite Nat.add_0_r.
  rewrite (imap_ext _ (λ index line0,
             if includes line0 "step" || includes line0 "action"
             then Some (mkParsedStep ("step_" +:+ pretty (S k + index)%nat)
                          (trim (strip_numbering line0)))
             else None)).
  - by destruct (includes line "step" || includes line "action").
  - intros i x _. cbn. by rewrite Nat.add_succ_r.
Qed.

Lemma steps_from_spec lines : ∀ k,
  Forall (λ st, ∃ j line, (k ≤ j)%nat ∧ line ∈ lines ∧ names_a_step line
                  ∧ st = mkParsedStep ("step_" +:+ pretty j) (trim (strip_numbering line)))
    (steps_from k lines)
  ∧ NoDup (parsed_id <$> steps_from k lines)
  ∧ (length (steps_from k lines) ≤ length lines)%nat.
Proof.
  induction lines as [|line lines IH]; intros k.
  - split; [constructor|]. split; [constructor|done].
  - rewrite steps_from_cons. destruct (IH (S k)) as (Hall & Hnodup & Hlen).
    assert (Hrest : Forall (λ st, ∃ j line0, (k ≤ j)%nat ∧ line0 ∈ line :: lines
                        ∧ names_a_step line0
                        ∧ st = mkParsedStep ("step_" +:+ pretty j)
                                 (trim (strip_numbering line0)))
                      (steps_from (S k) lines)).
    { eapply Forall_impl; [exact Hall|].
      intros st (j & line0 & Hj & Hin & Hstep & ->).
      exists j, line0. repeat split; [lia|by right|done]. }
    destruct (includes line "step" || includes line "action") eqn:Hline; cbn [app].
    + split; [|split].
      * constructor; [|exact Hrest]. exists k, line. repeat split; [lia|by left|done].
      * cbn. apply NoDup_cons. split; [|exact Hnodup].
        intros Hin. apply list_elem_of_fmap in Hin as (st & Hid & Hst).
        rewrite Forall_forall in Hall.
        destruct (Hall st Hst) as (j & line0 & Hj & _ & _ & ->).
        cbn in Hid. apply prefixed_inj, (inj pretty) in Hid. lia.
      * cbn [length]. lia.
    + split; [exact Hrest|]. split; [exact Hnodup|]. cbn [length]. lia.
Qed.
End ParseText.

(** X22.  [parseTextToWorkflow] numbers its steps by the position of their
    line among the lines that are not blank, so the ids of the steps are
    pairwise distinct; every step comes from a line that contains "step"
    or "action", its action being that line without its numbering and
    outer white space; there are no more steps than such lines.  The
    description is the first line that is not blank, and "Automated
    workflow" for a text without one. *)
Theorem parsed_steps_have_distinct_ids (text : string) :
  let workflow := HuggingFaceProvider.parseTextToWorkflow text in
  NoDup (HuggingFaceProvider.parsed_id <$> HuggingFaceProvider.steps workflow)
  ∧ (length (HuggingFaceProvider.steps workflow) ≤ length (text_lines text))%nat
  ∧ (∀ st, st ∈ HuggingFaceProvider.steps workflow →
       ∃ line, line ∈ text_lines text ∧ names_a_step line
               ∧ HuggingFaceProvider.parsed_action st
                 = Js.trim (HuggingFaceProvider.strip_numbering line))
  ∧ HuggingFaceProvider.description workflow
    = default "Automated workflow" (head (text_lines text)).
Proof.
  intros workflow. subst workflow. unfold HuggingFaceProvider.parseTextToWorkflow.
  fold (text_lines text). cbn [HuggingFaceProvider.steps HuggingFaceProvider.description].
  destruct (steps_from_spec (text_lines text) 0) as (Hall & Hnodup & Hlen).
  cbn [Nat.add] in *.
  split; [exact Hnodup|]. split; [exact Hlen|]. split.
  - intros st Hst. rewrite Forall_forall in Hall.
    destruct (Hall st Hst) as (j & line & _ & Hin & Hstep & ->). by exists line.
  - by destruct (text_lines text).
Qed.

(** ** What a workflow writes into its execution *)
#[global] Instance property_kept_preorder {W} key : PreOrder (@property_kept W key).
Proof.
  split; [by intros s|].
  intros s1 s2 s3 H1 H2. unfold property_kept in *. congruence.
Qed.

#[global] Hint Resolve property_kept_preorder : respects.

Section Frame.
Import Js ServiceWorker.
Context {W : Type}.
Variable RegExp : string → option (string → bool).
Variable clock : W → Z * W.
Variable sleep : value → W → W.
Variable runner : Step → gmap string value → W → (JsError + value) * W.
Variable key : string.

Local Abbreviation St := (state W).
Local Abbreviation executeStep := (executeStep RegExp sleep runner).
Local Abbreviation kept := (property_kept (W:=W) key).

Lemma frame_emit e : respects kept (ServiceWorker.emit e : Eff St unit).
Proof. by intros s. Qed.

Lemma frame_external {B} (f : W → B * W) :
  respects kept (ServiceWorker.external f : Eff St B).
Proof. intros s. unfold ServiceWorker.external. by destruct (f (world s)). Qed.

Lemma frame_alloc : respects kept (alloc : Eff St nat).
Proof. by intros s. Qed.

Lemma frame_push_result r : respects kept (push_result r : Eff St unit).
Proof. by intros s. Qed.

Lemma frame_assign name v :
  name ≠ key → respects kept (assign name v : Eff St unit).
Proof. intros Hne s. unfold property_kept. cbn. by rewrite lookup_insert_ne. Qed.

#[local] Hint Resolve frame_emit frame_external frame_alloc frame_push_result
  frame_assign : respects.

Lemma frame_await f : respects kept (await f : Eff St value).
Proof. unfold await. rbind; [respects|]. intros [e|v]; respects. Qed.

Lemma frame_delay ms : respects kept (ServiceWorker.delay sleep ms : Eff St unit).
Proof. unfold ServiceWorker.delay. respects. Qed.

Lemma frame_array_push name (arg : Eff St value) :
  name ≠ key → respects kept arg → respects kept (array_push name arg).
Proof.
  intros Hne Harg. unfold array_push. rbind; [respects|]. intros s.
  destruct (execution s !! name) as [[]|]; respects.
Qed.

Lemma frame_executeLoop (exec : Step → Eff St value) act inn :
  loop_variable act ≠ key →
  Forall (λ st, respects kept (exec st)) inn →
  respects kept (executeLoop exec act inn).
Proof.
  intros Hvar IH.
  assert (Hsteps : ∀ results, respects kept (loop_steps exec inn results)).
  { induction IH as [|st inn' Hst _ IHinn]; intros results; simpl; [respects|].
    rbind; [exact Hst|]. intros r. apply IHinn. }
  assert (Hitems : ∀ items results,
            respects kept (loop_items exec (loop_variable act) inn items results)).
  { induction items as [|item items IHitems]; intros results; simpl; [respects|].
    rbind; [by apply frame_assign|]. intros _.
    rbind; [apply Hsteps|]. intros results'. apply IHitems. }
  unfold executeLoop, loop_variable in *.
  rbind; [respects|]. intros items.
  intros s. unfold lift, mbind, eff_bind, bind.
  destruct (get act "variable") as [variable|t]; [|reflexivity].
  cbn.
  destruct (iterate items) as [items'|t]; [|done].
  match goal with |- context [loop_items exec ?name inn items' [] ?s1] =>
    pose proof (Hitems items' [] s1) as Hm;
    destruct (loop_items exec name inn items' [] s1) as [[r|t] s2]
  end; cbn in *; (etrans; [|exact Hm]); done.
Qed.

Lemma frame_executeStep step :
  key ∉ loop_variables step → respects kept (executeStep step).
Proof.
  induction step as [step IH] using Step_nested_ind.
  destruct step as [id type act conds eh sa inn]. cbn [ServiceWorker.executeStep]. simpl in *.
  intros Hvars.
  rbind; [respects|]. intros _.
  destruct (served_by_runner type).
  { rbind; [respects|]. intros s. apply frame_await. }
  destruct (String.eqb type "wait").
  { rbind; [respects|]. intros timeout. rbind; [apply frame_delay|]. respects. }
  destruct (String.eqb type "condition"); [respects|].
  destruct (String.eqb type "loop"); [|respects].
  apply not_elem_of_cons in Hvars as [Hvar Hinner].
  apply frame_executeLoop; [done|].
  apply Forall_forall. intros st Hst.
  rewrite Forall_forall in IH. apply IH; [done|].
  intros Hin. apply Hinner. apply list_elem_of_In, in_flat_map.
  exists st. split; by apply list_elem_of_In.
Qed.

Lemma frame_retry_loop step remaining i lastError :
  key ∉ loop_variables step →
  respects kept (retry_loop RegExp sleep runner step remaining i lastError).
Proof.
  intros Hvars. revert i lastError.
  induction remaining as [|r IH]; intros i lastError; simpl; [respects|].
  rtry; [|intros t; apply IH].
  rbind; [apply frame_delay|]. intros _. by apply frame_executeStep.
Qed.

Lemma frame_try_step step :
  key ∉ bookkeeping → key ∉ assigned_names step →
  respects kept (try_step RegExp sleep runner step).
Proof.
  intros Hbook Hnames.
  assert (Hres : "results" ≠ key) by (intros <-; apply Hbook; compute_done).
  assert (Herr : "errors" ≠ key) by (intros <-; apply Hbook; compute_done).
  apply not_elem_of_app in Hnames as [Hstore Hvars].
  unfold try_step. rtry.
  - unfold run_step. rbind; [respects|]. intros s.
    destruct (conditions_fail RegExp step s); [respects|].
    rbind; [by apply frame_executeStep|]. intros result.
    rbind; [respects|]. intros _.
    rbind; [apply frame_array_push; [done|respects]|]. intros _.
    rbind; [|respects].
    destruct (storeAs step) as [name|]; [|respects].
    destruct (truthy_string name); [|respects].
    apply frame_assign. intros ->. apply Hstore. by left.
  - intros error. unfold handle_step_error.
    case_bool_decide; [respects|].
    case_bool_decide.
    + rbind; [by apply frame_retry_loop|]. intros r. respects.
    + rbind; [respects|]. intros message.
      rbind; [respects|]. intros _.
      rbind; [|respects].
      apply frame_array_push; [done|respects].
Qed.

Lemma frame_steps_loop workflow : ∀ todo i,
  key ∉ bookkeeping → Forall (λ step, key ∉ assigned_names step) todo →
  respects kept (steps_loop RegExp sleep runner workflow i todo).
Proof.
  intros todo i Hbook Hall. revert i.
  induction Hall as [|step todo Hstep _ IH]; intros i; simpl; [respects|].
  rbind; [|intros _; apply IH].
  unfold iteration.
  rbind. { apply frame_assign. intros <-. apply Hbook. compute_done. }
  intros _. rbind; [by apply frame_try_step|]. intros [|]; [respects|].
  destruct (truthy (stepDelay workflow)); [apply frame_delay|respects].
Qed.

Lemma frame_executeWorkflow workflow :
  key ∉ bookkeeping →
  Forall (λ step, key ∉ assigned_names step) (steps workflow) →
  respects kept (executeWorkflow RegExp clock sleep runner workflow).
Proof.
  intros Hbook Hall. unfold executeWorkflow.
  rbind; [by intros s|]. intros _.
  rbind; [by apply frame_steps_loop|]. intros _.
  rbind; [apply frame_external|]. intros t. respects.
Qed.
End Frame.

(** X23.  [executeWorkflow] changes no property of the execution other
    than those it keeps itself ([currentStep], [results], [errors]) and
    those its steps name, as [storeAs] or as the variable of a loop: every
    other property is, whatever the outcome, the one it was. *)
Theorem workflow_writes_only_the_properties_it_names {W}
    (RegExp : string → option (string → bool)) (clock : W → Z * W)
    (sleep : Js.value → W → W)
    (runner : ServiceWorker.Step → gmap string Js.value → W → (JsError + Js.value) * W)
    (workflow : ServiceWorker.Workflow) (key : string) (s : ServiceWorker.state W) :
  key ∉ bookkeeping →
  Forall (λ step, key ∉ assigned_names step) (ServiceWorker.steps workflow) →
  ServiceWorker.execution
    (ServiceWorker.executeWorkflow RegExp clock sleep runner workflow s).2 !! key
  = ServiceWorker.execution s !! key.
Proof.
  intros Hbook Hall.
  exact (frame_executeWorkflow RegExp clock sleep runner key workflow Hbook Hall s).
Qed.

Lemma workflow_writes_only_the_properties_it_names_witness :
  ServiceWorker.execution
    (ServiceWorker.executeWorkflow no_RegExp sample_clock sample_sleep sample_runner
       overwriting_workflow sample_execution).2 !! "startTime"
  = ServiceWorker.execution sample_execution !! "startTime".
Proof.
  apply (workflow_writes_only_the_properties_it_names no_RegExp sample_clock sample_sleep
           sample_runner overwriting_workflow "startTime" sample_execution).
  - unfold bookkeeping. compute_done.
  - unfold overwriting_workflow, assigned_names. cbn.
    repeat (constructor; [compute_done|]). constructor.
Defined.

(** ** Feedback and executions *)
Section Feedback.
Import Js ServiceWorker Service.
Context {W : Type}.
Variable clock : W → Z * W.
Variable learnFromFeedback : FeedbackRecord → W → option JsError * W.
Variable recordSuccess : value → value → W → option JsError * W.
Variable recordFailure : value → value → W → option JsError * W.

Local Abbreviation St := (Service.state W).
Local Abbreviation recordFeedback :=
  (recordFeedback clock learnFromFeedback recordSuccess recordFailure).
#[local] Arguments Js.le : simpl never.
#[local] Arguments Js.ge : simpl never.

(** Feedback that has no corrections and is not rated 2 or less is
    stored, and then rejected when the length of its corrections is
    read. *)
Lemma recordFeedback_uncorrected workflowId a props (s : St) :
  props !! "corrections" = None →
  le (default VUndefined (props !! "rating")) (VNum (Int 2)) = false →
  ∃ record s',
    recordFeedback workflowId (VObj a props) s
    = (Throw (Thrown (TypeError_
                "Cannot read properties of undefined (reading 'length')")), s')
    ∧ feedbackStore s' = FeedbackStore_add record (feedbackStore s)
    ∧ record_workflowId record = workflowId
    ∧ record_feedback record = default VUndefined (props !! "rating")
    ∧ activeWorkflows s' = activeWorkflows s
    ∧ execution (worker s') = execution (worker s)
    ∧ world (worker s') = (clock (world (worker s))).2.
Proof.
  intros Hcorr Hrating.
  unfold Service.recordFeedback, on_worker, ServiceWorker.now, ServiceWorker.external,
    alloc, lift.
  unfold mbind, eff_bind, bind, modify, get_state, mret, eff_ret, ret, throw.
  cbn. rewrite Hcorr. cbn.
  destruct (clock (world (worker s))) as [t w1] eqn:Hclock. cbn.
  destruct (truthy (default VUndefined (props !! "context"))); cbn.
  all: rewrite Hrating; cbn; rewrite ?Hcorr; cbn;
    eexists _, _; (split; [reflexivity|]); cbn; done.
Qed.
End Feedback.

Lemma above_two_is_not_critical rating :
  above_two rating → Js.le rating (Js.VNum (Js.Int 2)) = false.
Proof.
  destruct rating as [| | |[|r]| | |]; try done.
  cbn. intros Hr. apply negb_false_iff, Z.ltb_lt. exact Hr.
Qed.

(** X24.  Feedback that carries no corrections and whose rating is a
    number above 2, or [NaN], or missing, is rejected by [handleFeedback]
    with the [TypeError] of reading [length] of [undefined], after its
    record has been added to the feedback store; the training system
    learns nothing from it and the pattern matcher is not consulted, the
    world being as the reading of the clock left it. *)
Theorem uncorrected_praise_is_stored_and_rejected {W} (clock : W → Z * W)
    (getStoredWorkflow : Js.value → W → option (Js.value * ServiceWorker.Workflow) * W)
    (learnFromFeedback : Service.FeedbackRecord → W → option JsError * W)
    (recordSuccess recordFailure : Js.value → Js.value → W → option JsError * W)
    (learnPattern : Js.value → Js.value → Js.value → W → option JsError * W)
    (workflowId : Js.value) (a : nat) (props : gmap string Js.value)
    (s : Service.state W) :
  props !! "corrections" = None →
  above_two (default Js.VUndefined (props !! "rating")) →
  ∃ record s',
    Service.handleFeedback clock getStoredWorkflow learnFromFeedback recordSuccess
      recordFailure learnPattern workflowId (Js.VObj a props) s
    = (Throw (Thrown (TypeError_
                "Cannot read properties of undefined (reading 'length')")), s')
    ∧ Service.feedbackStore s' = Service.FeedbackStore_add record (Service.feedbackStore s)
    ∧ Service.record_workflowId record = workflowId
    ∧ Service.record_feedback record = default Js.VUndefined (props !! "rating")
    ∧ ServiceWorker.world (Service.worker s')
      = (clock (ServiceWorker.world (Service.worker s))).2.
Proof.
  intros Hcorr Hrating%above_two_is_not_critical.
  destruct (recordFeedback_uncorrected clock learnFromFeedback recordSuccess recordFailure
              workflowId a props s Hcorr Hrating)
    as (record & s' & Hrun & Hstore & Hid & Hfb & _ & _ & Hworld).
  exists record, s'. split; [|done].
  unfold Service.handleFeedback. by rewrite (bind_run_throw _ _ _ _ _ Hrun).
Qed.

Lemma uncorrected_praise_is_stored_and_rejected_witness :
  ∃ record s',
    Service.handleFeedback sample_clock sample_store sample_learning sample_outcome
      sample_outcome sample_learnPattern (Js.VStr "wf_1")
      (Js.VObj 7 (<["rating" := Js.VNum (Js.Int 5)]> ∅)) sample_service
    = (Throw (Thrown (TypeError_
                "Cannot read properties of undefined (reading 'length')")), s')
    ∧ Service.feedbackStore s' = Service.FeedbackStore_add record (Service.feedbackStore sample_service)
    ∧ Service.record_workflowId record = Js.VStr "wf_1"
    ∧ Service.record_feedback record
      = default Js.VUndefined ((<["rating" := Js.VNum (Js.Int 5)]> ∅ : gmap string Js.value) !! "rating")
    ∧ ServiceWorker.world (Service.worker s')
      = (sample_clock (ServiceWorker.world (Service.worker sample_service))).2.
Proof.
  apply (uncorrected_praise_is_stored_and_rejected sample_clock sample_store sample_learning
           sample_outcome sample_outcome sample_learnPattern (Js.VStr "wf_1") 7
           (<["rating" := Js.VNum (Js.Int 5)]> ∅) sample_service);
    [reflexivity|vm_compute; reflexivity].
Defined.

Section NeverResolves.
Context {S : Type}.

Lemma never_resolves_throw {B} t : never_resolves (throw t : Eff S B).
Proof. intros s. by exists t. Qed.

Lemma never_resolves_first {B C} (m : Eff S B) (k : B → Eff S C) :
  never_resolves m → never_resolves (m ≫= k).
Proof.
  intros Hm s. unfold mbind, eff_bind, bind.
  destruct (Hm s) as [t Ht]. destruct (m s) as [[b|t'] s1]; [done|]. by exists t'.
Qed.

Lemma never_resolves_then {B C} (m : Eff S B) (k : B → Eff S C) :
  (∀ b, never_resolves (k b)) → never_resolves (m ≫= k).
Proof.
  intros Hk s. unfold mbind, eff_bind, bind.
  destruct (m s) as [[b|t] s1]; [apply Hk|by exists t].
Qed.

Lemma never_resolves_try_catch {B} (m : Eff S B) h :
  never_resolves m → (∀ t, never_resolves (h t)) → never_resolves (try_catch m h).
Proof.
  intros Hm Hh s. unfold try_catch.
  destruct (Hm s) as [t Ht]. destruct (m s) as [[b|t'] s1]; [done|]. apply Hh.
Qed.

Lemma never_resolves_finally {B} (m : Eff S B) f :
  never_resolves m → never_resolves (Service.finally m f).
Proof.
  intros Hm s. unfold Service.finally.
  destruct (Hm s) as [t Ht]. destruct (m s) as [[b|t'] s1]; [done|].
  destruct (f s1) as [[[]|t''] s2]; by eexists.
Qed.
End NeverResolves.

Section Executions.
Import Js ServiceWorker Service.
Context {W : Type}.
Variable RegExp : string → option (string → bool).
Variable clock : W → Z * W.
Variable sleep : value → W → W.
Variable runner : Step → gmap string value → W → (JsError + value) * W.
Variable memoryUsage : W → (JsError + value) * W.
Variable learnFromFeedback : FeedbackRecord → W → option JsError * W.
Variable recordSuccess : value → value → W → option JsError * W.
Variable recordFailure : value → value → W → option JsError * W.

Local Abbreviation St := (Service.state W).

Lemma execute_and_report_never_resolves workflowId workflow :
  never_resolves
    (execute_and_report RegExp clock sleep runner memoryUsage learnFromFeedback
       recordSuccess recordFailure workflowId workflow).
Proof.
  unfold execute_and_report.
  do 5 (apply never_resolves_then; intros ?).
  apply never_resolves_first. intros s.
  edestruct (recordFeedback_uncorrected clock learnFromFeedback recordSuccess recordFailure
               workflowId) as (record & s' & Hrun & _); [| |rewrite Hrun; by eexists];
    reflexivity.
Qed.

Lemma report_failure_never_resolves workflowId error :
  never_resolves
    (report_failure clock learnFromFeedback recordSuccess recordFailure workflowId error).
Proof.
  unfold report_failure.
  do 5 (apply never_resolves_then; intros ?).
  apply never_resolves_throw.
Qed.
End Executions.

(** X25.  [handleExecuteWorkflow] never resolves: when the workflow
    runs to its end, the feedback that reports the success carries no
    corrections, [recordFeedback] rejects it, and the handler reports a
    failure and throws; in every other case it throws as well. *)
Theorem handleExecuteWorkflow_never_resolves {W}
    (RegExp : string → option (string → bool)) (clock : W → Z * W)
    (sleep : Js.value → W → W)
    (runner : ServiceWorker.Step → gmap string Js.value → W → (JsError + Js.value) * W)
    (getStoredWorkflow : Js.value → W → option (Js.value * ServiceWorker.Workflow) * W)
    (generateExecutionId : W → string * W)
    (memoryUsage : W → (JsError + Js.value) * W)
    (learnFromFeedback : Service.FeedbackRecord → W → option JsError * W)
    (recordSuccess recordFailure : Js.value → Js.value → W → option JsError * W)
    (workflowId parameters tabId : Js.value) (s : Service.state W) :
  ∃ t,
    (Service.handleExecuteWorkflow RegExp clock sleep runner getStoredWorkflow
       generateExecutionId memoryUsage learnFromFeedback recordSuccess recordFailure
       workflowId parameters tabId s).1 = Throw t.
Proof.
  revert s. change (never_resolves
    (Service.handleExecuteWorkflow RegExp clock sleep runner getStoredWorkflow
       generateExecutionId memoryUsage learnFromFeedback recordSuccess recordFailure
       workflowId parameters tabId)).
  unfold Service.handleExecuteWorkflow.
  apply never_resolves_then. intros parameters'.
  apply never_resolves_then. intros [[stored workflow]|]; [|apply never_resolves_throw].
  do 6 (apply never_resolves_then; intros ?).
  apply never_resolves_finally, never_resolves_try_catch.
  - apply execute_and_report_never_resolves.
  - intros t. apply report_failure_never_resolves.
Qed.

(** ** The registry of active executions *)
#[global] Instance registration_kept_preorder {W} : PreOrder (@registration_kept W).
Proof.
  split; [by intros s|].
  intros s1 s2 s3 [H1 H1'] [H2 H2']. split; [congruence|by etrans].
Qed.

#[global] Hint Resolve registration_kept_preorder : respects.

Section Registry.
Import Js ServiceWorker Service.
Context {W : Type}.
Variable RegExp : string → option (string → bool).
Variable clock : W → Z * W.
Variable sleep : value → W → W.
Variable runner : Step → gmap string value → W → (JsError + value) * W.
Variable getStoredWorkflow : value → W → option (value * Workflow) * W.
Variable generateExecutionId : W → string * W.
Variable memoryUsage : W → (JsError + value) * W.
Variable learnFromFeedback : FeedbackRecord → W → option JsError * W.
Variable recordSuccess : value → value → W → option JsError * W.
Variable recordFailure : value → value → W → option JsError * W.

Local Abbreviation St := (Service.state W).
Local Abbreviation recordFeedback :=
  (recordFeedback clock learnFromFeedback recordSuccess recordFailure).

Lemma registered_on_worker {B} (m : Eff (ServiceWorker.state W) B) :
  respects (property_kept "id") m → respects registration_kept (on_worker m : Eff St B).
Proof.
  intros Hm s. unfold on_worker. specialize (Hm (worker s)).
  by destruct (m (worker s)) as [r w].
Qed.

Lemma registered_call f : respects registration_kept (call f : Eff St unit).
Proof.
  unfold call. rbind.
  { apply registered_on_worker, frame_external. }
  intros [e|]; respects.
Qed.

Lemma registered_alloc : respects registration_kept (on_worker alloc : Eff St nat).
Proof. apply registered_on_worker, frame_alloc. Qed.

Lemma registered_now :
  respects registration_kept (on_worker (ServiceWorker.now clock) : Eff St Z).
Proof. apply registered_on_worker, frame_external. Qed.

#[local] Hint Resolve registered_call registered_alloc registered_now : respects.

Lemma registered_recordFeedback workflowId feedback :
  respects registration_kept (recordFeedback workflowId feedback).
Proof.
  unfold Service.recordFeedback.
  rbind; [respects|]. intros rating.
  rbind; [respects|]. intros corrections.
  rbind; [respects|]. intros corrections'.
  rbind; [respects|]. intros timestamp.
  rbind; [respects|]. intros context.
  rbind; [respects|]. intros context'.
  rbind; [by intros s|]. intros _.
  rbind; [respects|]. intros critical.
  rbind; [respects|]. intros _.
  rbind; [respects|]. intros _.
  respects.
Qed.

Lemma registered_estimate :
  respects (property_kept "id") (estimateResourceUsage memoryUsage).
Proof.
  unfold estimateResourceUsage.
  rbind; [apply frame_await|]. intros memory.
  rbind; [respects|]. intros s.
  rbind; [respects|]. intros steps.
  rbind; [respects|]. intros errors.
  rbind; [apply frame_alloc|]. intros a. respects.
Qed.

Lemma registered_block workflowId workflow :
  Forall (λ step, "id" ∉ assigned_names step) (steps workflow) →
  respects registration_kept
    (try_catch
       (execute_and_report RegExp clock sleep runner memoryUsage learnFromFeedback
          recordSuccess recordFailure workflowId workflow)
       (report_failure clock learnFromFeedback recordSuccess recordFailure workflowId)).
Proof.
  intros Hsteps. rtry.
  - unfold execute_and_report.
    rbind.
    { apply registered_on_worker, frame_executeWorkflow; [compute_done|done]. }
    intros result. rbind; [respects|]. intros t.
    rbind; [respects|]. intros s.
    rbind; [apply registered_on_worker, registered_estimate|]. intros usage.
    rbind; [respects|]. intros a.
    rbind; [apply registered_recordFeedback|]. intros _. respects.
  - intros error. unfold report_failure.
    rbind; [destruct error; respects|]. intros errorType.
    rbind; [respects|]. intros errorMessage.
    rbind; [respects|]. intros s.
    rbind; [respects|]. intros a.
    rbind; [apply registered_recordFeedback|]. intros _. respects.
Qed.

Lemma handleExecuteWorkflow_releases workflowId parameters tabId stored workflow w1 id w2
    (s : St) :
  getStoredWorkflow workflowId (world (worker s)) = (Some (stored, workflow), w1) →
  generateExecutionId w1 = (id, w2) →
  Forall (λ step, "id" ∉ assigned_names step) (steps workflow) →
  activeWorkflows
    (handleExecuteWorkflow RegExp clock sleep runner getStoredWorkflow generateExecutionId
       memoryUsage learnFromFeedback recordSuccess recordFailure
       workflowId parameters tabId s).2
  = activeWorkflows s ∖ {[id]}.
Proof.
  intros Hstored Hid Hsteps.
  assert (Hblock : ∀ s0 : St,
            execution (worker s0) !! "id" = Some (VStr id) →
            activeWorkflows
              (finally
                 (try_catch
                    (execute_and_report RegExp clock sleep runner memoryUsage
                       learnFromFeedback recordSuccess recordFailure workflowId workflow)
                    (report_failure clock learnFromFeedback recordSuccess recordFailure
                       workflowId))
                 release s0).2
            = activeWorkflows s0 ∖ {[id]}).
  { intros s0 Hs0. unfold finally.
    pose proof (registered_block workflowId workflow Hsteps s0) as [Hactive Hkept].
    destruct (try_catch _ _ s0) as [r s3]. cbn in Hactive, Hkept.
    unfold property_kept in Hkept. rewrite Hs0 in Hkept.
    unfold release, modify. cbn. rewrite Hkept. cbn. by rewrite Hactive. }
  unfold handleExecuteWorkflow.
  unfold mbind at 1, eff_bind at 1, bind at 1.
  destruct parameters; unfold on_worker, ServiceWorker.now, ServiceWorker.external, alloc;
    unfold mbind, eff_bind, bind, modify, mret, eff_ret, ret; cbn [worker world fst snd];
    cbn [set_world world]; rewrite Hstored;
    cbn [worker world set_world activeWorkflows feedbackStore]; rewrite Hid;
    cbn [worker world set_world activeWorkflows feedbackStore];
    destruct (clock w2) as [t w3]; cbn -[finally try_catch new_execution];
    (rewrite Hblock;
     [cbn; by rewrite difference_union_distr_l_L, difference_diag_L, union_empty_l_L|]);
    cbn; unfold new_execution; by rewrite lookup_insert_eq.
Qed.
End Registry.

(** X26.  Whatever the outcome of an execution, [handleExecuteWorkflow]
    leaves the registry of active workflows without the id it generated
    for it, provided no step of the workflow assigns the property [id] of
    the execution, as its [storeAs] or as the variable of a loop. *)
Theorem finished_execution_leaves_the_registry {W}
    (RegExp : string → option (string → bool)) (clock : W → Z * W)
    (sleep : Js.value → W → W)
    (runner : ServiceWorker.Step → gmap string Js.value → W → (JsError + Js.value) * W)
    (getStoredWorkflow : Js.value → W → option (Js.value * ServiceWorker.Workflow) * W)
    (generateExecutionId : W → string * W)
    (memoryUsage : W → (JsError + Js.value) * W)
    (learnFromFeedback : Service.FeedbackRecord → W → option JsError * W)
    (recordSuccess recordFailure : Js.value → Js.value → W → option JsError * W)
    (workflowId parameters tabId stored : Js.value) (workflow : ServiceWorker.Workflow)
    (w1 w2 : W) (id : string) (s : Service.state W) :
  getStoredWorkflow workflowId (ServiceWorker.world (Service.worker s))
  = (Some (stored, workflow), w1) →
  generateExecutionId w1 = (id, w2) →
  Forall (λ step, "id" ∉ assigned_names step) (ServiceWorker.steps workflow) →
  Service.activeWorkflows
    (Service.handleExecuteWorkflow RegExp clock sleep runner getStoredWorkflow
       generateExecutionId memoryUsage learnFromFeedback recordSuccess recordFailure
       workflowId parameters tabId s).2
  = Service.activeWorkflows s ∖ {[id]}.
Proof. apply handleExecuteWorkflow_releases. Qed.

Lemma finished_execution_leaves_the_registry_witness :
  Service.activeWorkflows
    (Service.handleExecuteWorkflow no_RegExp sample_clock sample_sleep sample_runner
       sample_store sample_generateExecutionId sample_memoryUsage sample_learning
       sample_outcome sample_outcome
       (Js.VStr "wf_1") Js.VUndefined (Js.VNum (Js.Int 3)) sample_service).2
  = Service.activeWorkflows sample_service ∖ {["exec_0"]}.
Proof.
  apply (finished_execution_leaves_the_registry no_RegExp sample_clock sample_sleep
           sample_runner sample_store sample_generateExecutionId sample_memoryUsage
           sample_learning sample_outcome sample_outcome
           (Js.VStr "wf_1") Js.VUndefined (Js.VNum (Js.Int 3)) (Js.VObj 1 ∅)
           stored_workflow 0%nat 0%nat "exec_0" sample_service).
  - reflexivity.
  - reflexivity.
  - unfold stored_workflow, assigned_names. cbn.
    repeat (constructor; [compute_done|]). constructor.
Defined.

(** Without that proviso the entry stays: the step of this workflow
    keeps its result as [execution.id], and the clean-up deletes the key
    of that name, which the registry does not have. *)
Example renamed_execution_stays_registered :
  "exec_0" ∈
    Service.activeWorkflows
      (Service.handleExecuteWorkflow no_RegExp sample_clock sample_sleep sample_runner
         renaming_store sample_generateExecutionId sample_memoryUsage sample_learning
         sample_outcome sample_outcome
         (Js.VStr "wf_1") Js.VUndefined (Js.VNum (Js.Int 3))
         (Service.mkService ∅ [] sample_execution)).2.
Proof. compute_done. Qed.

(** ** Executions and the record of successes *)
Lemma bind_ext {S B C} (m : Eff S B) (k k' : B → Eff S C) s :
  (∀ b s1, k b s1 = k' b s1) → (m ≫= k) s = (m ≫= k') s.
Proof.
  intros Hk. unfold mbind, eff_bind, bind. by destruct (m s) as [[b|t] s1].
Qed.

Section SuccessRecord.
Import Js ServiceWorker Service.
Context {W : Type}.
Variable clock : W → Z * W.
Variable learnFromFeedback : FeedbackRecord → W → option JsError * W.
Variable recordSuccess recordSuccess' : value → value → W → option JsError * W.
Variable recordFailure : value → value → W → option JsError * W.

Local Abbreviation St := (Service.state W).
#[local] Arguments Js.le : simpl never.
#[local] Arguments Js.ge : simpl never.

(** [recordSuccess] is reached neither by feedback that is rejected for
    its missing corrections nor by feedback rated less than 4. *)
Lemma recordFeedback_without_success workflowId a props (s : St) :
  (props !! "corrections" = None
   ∧ le (default VUndefined (props !! "rating")) (VNum (Int 2)) = false)
  ∨ ge (default VUndefined (props !! "rating")) (VNum (Int 4)) = false →
  recordFeedback clock learnFromFeedback recordSuccess recordFailure
    workflowId (VObj a props) s
  = recordFeedback clock learnFromFeedback recordSuccess' recordFailure
      workflowId (VObj a props) s.
Proof.
  intros Hcase.
  unfold Service.recordFeedback, call, on_worker, ServiceWorker.now, ServiceWorker.external,
    alloc, lift.
  unfold mbind, eff_bind, bind, modify, get_state, mret, eff_ret, ret, throw.
  cbn.
  destruct Hcase as [[Hcorr Hrating]|Hge].
  - rewrite Hcorr. cbn.
    destruct (clock (world (worker s))) as [t w1]. cbn.
    destruct (truthy (default VUndefined (props !! "context"))); cbn.
    all: rewrite Hrating; cbn; rewrite ?Hcorr; reflexivity.
  - rewrite Hge. reflexivity.
Qed.
End SuccessRecord.

Lemma bind_ext_first {S B C} (m m' : Eff S B) (k : B → Eff S C) s :
  m s = m' s → (m ≫= k) s = (m' ≫= k) s.
Proof. intros Hm. unfold mbind, eff_bind, bind. by rewrite Hm. Qed.

Lemma try_catch_ext {S B} (m m' : Eff S B) h h' s :
  (∀ s0, m s0 = m' s0) → (∀ t s1, h t s1 = h' t s1) →
  try_catch m h s = try_catch m' h' s.
Proof.
  intros Hm Hh. unfold try_catch. rewrite Hm. by destruct (m' s) as [[b|t] s1].
Qed.

Lemma finally_ext {S B} (m m' : Eff S B) f s :
  m s = m' s → Service.finally m f s = Service.finally m' f s.
Proof. intros Hm. unfold Service.finally. by rewrite Hm. Qed.

(** X27.  No execution reaches [recordSuccess]: [handleExecuteWorkflow]
    ends in the same way and in the same state whatever [recordSuccess]
    does, since the feedback of a success is rejected before it gets
    there and the feedback of a failure is rated 1. *)
Theorem executions_never_record_a_success {W}
    (RegExp : string → option (string → bool)) (clock : W → Z * W)
    (sleep : Js.value → W → W)
    (runner : ServiceWorker.Step → gmap string Js.value → W → (JsError + Js.value) * W)
    (getStoredWorkflow : Js.value → W → option (Js.value * ServiceWorker.Workflow) * W)
    (generateExecutionId : W → string * W)
    (memoryUsage : W → (JsError + Js.value) * W)
    (learnFromFeedback : Service.FeedbackRecord → W → option JsError * W)
    (recordSuccess recordSuccess' recordFailure
       : Js.value → Js.value → W → option JsError * W)
    (workflowId parameters tabId : Js.value) (s : Service.state W) :
  Service.handleExecuteWorkflow RegExp clock sleep runner getStoredWorkflow
    generateExecutionId memoryUsage learnFromFeedback recordSuccess recordFailure
    workflowId parameters tabId s
  = Service.handleExecuteWorkflow RegExp clock sleep runner getStoredWorkflow
      generateExecutionId memoryUsage learnFromFeedback recordSuccess' recordFailure
      workflowId parameters tabId s.
Proof.
  unfold Service.handleExecuteWorkflow.
  apply bind_ext. intros parameters' s1.
  apply bind_ext. intros [[stored workflow]|] s2; [|done].
  do 6 (apply bind_ext; intros ? ?).
  apply finally_ext, try_catch_ext.
  - intros s'. unfold Service.execute_and_report.
    do 5 (apply bind_ext; intros ? ?).
    apply bind_ext_first, recordFeedback_without_success. left. by split.
  - intros t s'. unfold Service.report_failure.
    do 4 (apply bind_ext; intros ? ?).
    apply bind_ext_first, recordFeedback_without_success. by right.
Qed.

(** ** The cache of the pattern matcher *)
Section MatcherCache.
Import PatternMatcher.
Context {V : Type}.
Implicit Types (m : list (string * V)) (key : string).

(** A new entry survives the eviction that follows it when the cache
    may hold at least one entry. *)
Lemma new_entry_survives key (v : V) m (size : nat) :
  AIEngine.map_get key m = None → (1 ≤ size)%nat →
  let m' := AIEngine.map_set key v m in
  AIEngine.map_get key
    (if (size <? length m')%nat
     then match AIEngine.map_first_key m' with
          | Some firstKey => AIEngine.map_delete firstKey m'
          | None => m'
          end
     else m') = Some v.
Proof.
  intros Hnone Hsize m'.
  destruct (size <? length m')%nat eqn:Hfull; [|apply map_get_set].
  destruct m as [|[k v'] m0].
  - apply Nat.ltb_lt in Hfull. cbn in Hfull. lia.
  - subst m'. cbn [AIEngine.map_get] in Hnone. cbn [AIEngine.map_set].
    destruct (String.eqb_spec k key) as [->|Hne]; [done|].
    cbn [AIEngine.map_first_key].
    rewrite map_get_delete_ne by done. cbn [AIEngine.map_get].
    destruct (String.eqb_spec k key); [done|]. apply map_get_set.
Qed.
End MatcherCache.

(** X28.  The cache of the pattern matcher tells texts apart by their
    first fifty characters only: once [match] has answered for a text,
    it gives the same results, with no matching and no change of state,
    for every text that begins with the same fifty characters in the same
    context, provided the cache may hold an entry at all. *)
Theorem texts_sharing_fifty_characters_share_results {W R C}
    (JSON_stringify : C → string)
    (performMatching : string → C → W → (JsError + R) * W)
    (text1 text2 : string) (context : C) (results : R)
    (s s1 : PatternMatcher.state W R) :
  (1 ≤ PatternMatcher.cacheSize s)%nat →
  substring 0 50 text1 = substring 0 50 text2 →
  PatternMatcher.match_ JSON_stringify performMatching text1 context s
  = (Normal results, s1) →
  PatternMatcher.match_ JSON_stringify performMatching text2 context s1
  = (Normal results, s1).
Proof.
  intros Hsize Hprefix.
  assert (Hkey : PatternMatcher.getCacheKey text2 (JSON_stringify context)
                 = PatternMatcher.getCacheKey text1 (JSON_stringify context)).
  { unfold PatternMatcher.getCacheKey. by rewrite Hprefix. }
  unfold PatternMatcher.match_. rewrite Hkey.
  set (key := PatternMatcher.getCacheKey text1 (JSON_stringify context)).
  unfold mbind, eff_bind, bind, modify, get_state, mret, eff_ret, ret, throw. cbn.
  destruct (AIEngine.map_get key (PatternMatcher.cache s)) as [cached|] eqn:Hget.
  - intros [= <- <-]. by rewrite Hget.
  - destruct (performMatching text1 context (PatternMatcher.world s)) as [[e|found] w].
    + cbn. discriminate.
    + cbn.
      pose proof (new_entry_survives key found (PatternMatcher.cache s)
                    (PatternMatcher.cacheSize s) Hget Hsize) as Hkept.
      cbn in Hkept.
      destruct (AIEngine.map_first_key
                  (AIEngine.map_set key found (PatternMatcher.cache s)));
        match type of Hkept with
        | AIEngine.map_get _ (if ?full then _ else _) = _ => destruct full
        end; cbn; intros [= <- <-]; cbn; unfold AIEngine.map_delete in Hkept;
        by rewrite Hkept.
Qed.

Lemma texts_sharing_fifty_characters_share_results_witness :
  ∃ s1,
    PatternMatcher.match_ id sample_performMatching (fifty +:+ " a PDF") "{}"
      sample_matcher
    = (Normal ("patterns of: " +:+ fifty +:+ " a PDF"), s1)
    ∧ PatternMatcher.match_ id sample_performMatching (fifty +:+ " a spreadsheet") "{}" s1
      = (Normal ("patterns of: " +:+ fifty +:+ " a PDF"), s1).
Proof.
  eexists. split; [reflexivity|].
  apply (texts_sharing_fifty_characters_share_results id sample_performMatching
           (fifty +:+ " a PDF") (fifty +:+ " a spreadsheet") "{}"
           ("patterns of: " +:+ fifty +:+ " a PDF") sample_matcher);
    [cbn; lia|reflexivity|reflexivity].
Defined.

(** ** The similarity of two texts *)

(** X29.  The similarity of two texts lies between 0 and 1 when no
    token of the first text occurs in it twice.  A repeated token is
    counted each time it occurs in the intersection and once in the
    union, so that the proviso is needed. *)
Theorem similarity_is_a_fraction_without_repeated_tokens (text1 text2 : string) :
  NoDup (PatternMatcher.tokenize (PatternMatcher.toLowerCase text1)) →
  (0 <= PatternMatcher.calculateSimilarity text1 text2
   ∧ PatternMatcher.calculateSimilarity text1 text2 <= 1)%Q.
Proof.
  intros Hnodup. unfold PatternMatcher.calculateSimilarity.
  set (tokens1 := PatternMatcher.tokenize (PatternMatcher.toLowerCase text1)) in *.
  set (tokens2 := PatternMatcher.tokenize (PatternMatcher.toLowerCase text2)).
  set (intersection := filter (λ t, t ∈ tokens2) tokens1).
  set (union := remove_dups (tokens1 ++ tokens2)).
  assert (Hle : (length intersection ≤ length union)%nat).
  { apply submseteq_length, NoDup_submseteq; [by apply NoDup_filter|].
    intros t Ht. apply list_elem_of_filter in Ht as [_ Ht].
    apply elem_of_remove_dups, elem_of_app. by left. }
  destruct (0 <? length union)%nat eqn:Hpos; [|done].
  apply Nat.ltb_lt in Hpos.
  assert (Hden : (0 < inject_Z (Z.of_nat (length union)))%Q).
  { rewrite <- (Zlt_Qlt 0). lia. }
  split.
  - apply Qle_shift_div_l; [done|]. rewrite Qmult_0_l, <- (Zle_Qle 0). lia.
  - apply Qle_shift_div_r; [done|]. rewrite Qmult_1_l, <- Zle_Qle. lia.
Qed.

Lemma similarity_is_a_fraction_without_repeated_tokens_witness :
  (0 <= PatternMatcher.calculateSimilarity "Open the Report" "open the invoice"
   ∧ PatternMatcher.calculateSimilarity "Open the Report" "open the invoice" <= 1)%Q.
Proof.
  apply (similarity_is_a_fraction_without_repeated_tokens
           "Open the Report" "open the invoice").
  vm_compute. repeat (constructor; [compute_done|]). constructor.
Defined.

(** A text that repeats its token is twice as similar to that token as a
    text can be. *)
Example repeated_token_is_counted_twice :
  (PatternMatcher.calculateSimilarity "click click" "click" == 2)%Q.
Proof. reflexivity. Qed.
